(** * OrgManager: roles, invitations and ownership transfer

    A shallow embedding of the server actions of [src/actions/auth.ts]
    (members and invitations) and of the permission checks of
    [src/lib/utils/permissions.ts].  The Supabase client is modelled as a
    state monad over the three tables the actions touch; every request sent
    to the database may fail, and every write is recorded in a journal
    together with the table contents it left behind. *)

From Stdlib Require Import String Ascii List ZArith Bool Lia Arith.
Import ListNotations.
Local Open Scope string_scope.
Local Open Scope list_scope.


(* ------------------------------------------------------------------ *)
(** ** Data model ([src/lib/types/auth.ts], [src/lib/types/organization.ts]) *)

(** [type OrganizationRole = "owner" | "admin" | "user" | "viewer"] *)
Inductive OrganizationRole : Type := owner | admin | user | viewer.

(** [type InvitationStatus = "pending" | "accepted" | "expired"] *)
Inductive InvitationStatus : Type := pending | accepted | expired.

Definition role_eqb (a b : OrganizationRole) : bool :=
  match a, b with
  | owner, owner | admin, admin | user, user | viewer, viewer => true
  | _, _ => false
  end.

Definition status_eqb (a b : InvitationStatus) : bool :=
  match a, b with
  | pending, pending | accepted, accepted | expired, expired => true
  | _, _ => false
  end.

(** A row of [organization_members]. *)
Record OrganizationMember : Type := mkMember {
  m_id : string;
  m_organization_id : string;
  m_user_id : string;
  m_role : OrganizationRole
}.

(** A row of [invitations]; times are milliseconds since the epoch. *)
Record OrganizationInvitation : Type := mkInvitation {
  i_id : string;
  i_organization_id : string;
  i_inviter_id : string;
  i_invitee_email : string;
  i_role : OrganizationRole;
  i_status : InvitationStatus;
  i_token : string;
  i_expires_at : Z;
  i_created_at : Z
}.

(** A row of [users]. *)
Record UserProfile : Type := mkUser {
  u_id : string;
  u_email : string
}.

(** The authenticated user handed out by [requireAuth] / [getAuthUser];
    Supabase types the email as optional. *)
Record AuthUser : Type := mkAuth {
  auth_id : string;
  auth_email : option string
}.

Record Database : Type := mkDatabase {
  organization_members : list OrganizationMember;
  invitations : list OrganizationInvitation;
  users : list UserProfile
}.

(* ------------------------------------------------------------------ *)
(** ** Requests to the database *)

(** The [.eq(...)] chains that select the invitations an update applies to. *)
Inductive InvitationFilter : Type :=
| ById (id : string)
| ByToken (token : string)
| PendingFor (organizationId email : string)
| AmongIds (organizationId email : string) (ids : list string).

Definition inv_matches (f : InvitationFilter) (i : OrganizationInvitation) : bool :=
  match f with
  | ById id => i_id i =? id
  | ByToken t => i_token i =? t
  | PendingFor org email =>
      (i_organization_id i =? org) && (i_invitee_email i =? email)
      && status_eqb (i_status i) pending
  | AmongIds org email ids =>
      (i_organization_id i =? org) && (i_invitee_email i =? email)
      && existsb (String.eqb (i_id i)) ids
  end.

(** The writes the actions issue. *)
Inductive Mutation : Type :=
| UpdateMemberRole (memberId organizationId : string) (role : OrganizationRole)
| InsertMember (row : OrganizationMember)
| DeleteMember (memberId organizationId : string)
| InsertInvitation (row : OrganizationInvitation)
| UpdateInvitationStatus (f : InvitationFilter) (status : InvitationStatus).

Definition set_role (r : OrganizationRole) (m : OrganizationMember) : OrganizationMember :=
  mkMember (m_id m) (m_organization_id m) (m_user_id m) r.

Definition set_status (s : InvitationStatus) (i : OrganizationInvitation)
  : OrganizationInvitation :=
  mkInvitation (i_id i) (i_organization_id i) (i_inviter_id i) (i_invitee_email i)
    (i_role i) s (i_token i) (i_expires_at i) (i_created_at i).

Definition member_is (memberId organizationId : string) (m : OrganizationMember) : bool :=
  (m_id m =? memberId) && (m_organization_id m =? organizationId).

Definition member_of (organizationId userId : string) (m : OrganizationMember) : bool :=
  (m_organization_id m =? organizationId) && (m_user_id m =? userId).

Definition owners_of (organizationId : string) (ms : list OrganizationMember)
  : list OrganizationMember :=
  filter (fun m => (m_organization_id m =? organizationId) && role_eqb (m_role m) owner) ms.

(** The constraints of the schema ([src/PROJECT_BRIEF.md], and the index
    [idx_organization_members_unique_owner] named in [transferOwnership]):
    primary keys, unique [(organization_id, user_id)], at most one owner per
    organization, unique invitation token. *)
Definition member_insert_ok (row : OrganizationMember) (ms : list OrganizationMember) : bool :=
  negb (existsb (fun m => m_id m =? m_id row) ms)
  && negb (existsb (member_of (m_organization_id row) (m_user_id row)) ms)
  && (negb (role_eqb (m_role row) owner)
      || match owners_of (m_organization_id row) ms with [] => true | _ => false end).

Definition single_owner_ok (organizationId : string) (ms : list OrganizationMember) : bool :=
  (length (owners_of organizationId ms) <=? 1)%nat.

Definition invitation_insert_ok (row : OrganizationInvitation)
  (invs : list OrganizationInvitation) : bool :=
  negb (existsb (fun i => i_id i =? i_id row) invs)
  && negb (existsb (fun i => i_token i =? i_token row) invs).

Definition with_members (d : Database) (ms : list OrganizationMember) : Database :=
  mkDatabase ms (invitations d) (users d).

Definition with_invitations (d : Database) (invs : list OrganizationInvitation) : Database :=
  mkDatabase (organization_members d) invs (users d).

(** What a write does to the tables; [None] is a constraint violation. *)
Definition perform (r : Mutation) (d : Database) : option Database :=
  match r with
  | UpdateMemberRole id org role =>
      let ms := map (fun m => if member_is id org m then set_role role m else m)
                    (organization_members d) in
      if negb (role_eqb role owner) || single_owner_ok org ms
      then Some (with_members d ms) else None
  | InsertMember row =>
      if member_insert_ok row (organization_members d)
      then Some (with_members d (organization_members d ++ [row])) else None
  | DeleteMember id org =>
      Some (with_members d
              (filter (fun m => negb (member_is id org m)) (organization_members d)))
  | InsertInvitation row =>
      if invitation_insert_ok row (invitations d)
      then Some (with_invitations d (invitations d ++ [row])) else None
  | UpdateInvitationStatus f s =>
      Some (with_invitations d
              (map (fun i => if inv_matches f i then set_status s i else i)
                   (invitations d)))
  end.

(* ------------------------------------------------------------------ *)
(** ** The world an action runs in, and the monad of actions *)

(** One journal entry per write: the request, whether the database applied
    it, and the tables right after it. *)
Record Entry : Type := mkEntry {
  request : Mutation;
  succeeded : bool;
  state_after : Database
}.

(** What the actions take from where they run.  [seven_days_later t] is the
    instant [d.setDate(d.getDate() + 7)] yields for a [Date] that reads [t],
    seven days later on the calendar of the server's time zone;
    [database_clock t] is what the database's clock reads when the server's
    reads [t], the default of the [created_at] column; [error_message] is
    the [message] of the errors the database returns. *)
Record Environment : Type := mkEnvironment {
  seven_days_later : Z -> Z;
  database_clock : Z -> Z;
  error_message : option string
}.

(** [outcomes] schedules, request by request (reads and writes alike),
    whether the database answers ([true]) or returns an error ([false]);
    once the schedule is exhausted every request is answered.  [uuid] is the
    generator behind the [id] and [token] column defaults, [now] the clock. *)
Record World : Type := mkWorld {
  db : Database;
  outcomes : list bool;
  journal : list Entry;
  now : Z;
  uuid : nat -> string;
  uuid_next : nat;
  env : Environment
}.

Definition Action (A : Type) : Type := World -> A * World.

Definition ret {A} (a : A) : Action A := fun w => (a, w).

Definition bind {A B} (c : Action A) (k : A -> Action B) : Action B :=
  fun w => let (a, w') := c w in k a w'.

Notation "x <- c ;; k" := (bind c (fun x => k))
  (at level 61, c at next level, right associativity).
Notation "c ;;; k" := (bind c (fun _ => k))
  (at level 61, right associativity).

Definition run {A} (c : Action A) (w : World) : A * World := c w.
Definition result {A} (c : Action A) (w : World) : A := fst (c w).
Definition after {A} (c : Action A) (w : World) : World := snd (c w).

(** Consume the next scheduled outcome. *)
Definition attempt : Action bool := fun w =>
  match outcomes w with
  | [] => (true, w)
  | b :: rest =>
      (b, mkWorld (db w) rest (journal w) (now w) (uuid w) (uuid_next w) (env w))
  end.

Definition get_db : Action Database := fun w => (db w, w).
Definition get_now : Action Z := fun w => (now w, w).
Definition get_env : Action Environment := fun w => (env w, w).

Definition fresh_uuid : Action string := fun w =>
  (uuid w (uuid_next w),
   mkWorld (db w) (outcomes w) (journal w) (now w) (uuid w) (S (uuid_next w))
           (env w)).

(** [.single()]: exactly one row, otherwise an error. *)
Definition single {A} (rows : list A) : option A :=
  match rows with
  | [x] => Some x
  | _ => None
  end.

(** A [select]: [None] when the request fails ([data] is [null]). *)
Definition select {A} (table : Database -> list A) (p : A -> bool)
  : Action (option (list A)) :=
  ok <- attempt ;;
  d <- get_db ;;
  ret (if ok then Some (filter p (table d)) else None).

Definition select_single {A} (table : Database -> list A) (p : A -> bool)
  : Action (option A) :=
  rows <- select table p ;;
  ret (match rows with Some rs => single rs | None => None end).

(** A write: [true] when applied ([error] is [null]). *)
Definition commit (r : Mutation) : Action bool := fun w =>
  let (ok, w1) := attempt w in
  match (if ok then perform r (db w1) else None) with
  | Some d' =>
      (true, mkWorld d' (outcomes w1) (journal w1 ++ [mkEntry r true d'])
               (now w1) (uuid w1) (uuid_next w1) (env w1))
  | None =>
      (false, mkWorld (db w1) (outcomes w1) (journal w1 ++ [mkEntry r false (db w1)])
                (now w1) (uuid w1) (uuid_next w1) (env w1))
  end.

(** [.update({status}).match(f).select()]: the rows updated, [None] on error. *)
Definition update_invitations_returning (f : InvitationFilter) (s : InvitationStatus)
  : Action (option (list OrganizationInvitation)) :=
  d <- get_db ;;
  ok <- commit (UpdateInvitationStatus f s) ;;
  ret (if ok then Some (map (set_status s) (filter (inv_matches f) (invitations d)))
       else None).

(* ------------------------------------------------------------------ *)
(** ** Permission checks ([src/lib/utils/permissions.ts]) *)

(** [ROLE_HIERARCHY] *)
Definition ROLE_HIERARCHY (r : OrganizationRole) : Z :=
  match r with
  | owner => 4
  | admin => 3
  | user => 2
  | viewer => 1
  end.

Definition hasRoleOrHigher (userRole requiredRole : OrganizationRole) : bool :=
  (ROLE_HIERARCHY requiredRole <=? ROLE_HIERARCHY userRole)%Z.

Definition isOwner (userId organizationId : string) : Action bool :=
  data <- select_single organization_members
            (fun m => member_of organizationId userId m && role_eqb (m_role m) owner) ;;
  ret (match data with
       | None => false
       | Some m => role_eqb (m_role m) owner
       end).

Definition isAdminOrOwner (userId organizationId : string) : Action bool :=
  data <- select_single organization_members
            (fun m => member_of organizationId userId m
                      && (role_eqb (m_role m) owner || role_eqb (m_role m) admin)) ;;
  ret (match data with
       | None => false
       | Some m => role_eqb (m_role m) owner || role_eqb (m_role m) admin
       end).

Definition canInviteMembers (userId organizationId : string) : Action bool :=
  isAdminOrOwner userId organizationId.

Definition isMember (userId organizationId : string) : Action bool :=
  data <- select_single organization_members (member_of organizationId userId) ;;
  ret (match data with None => false | Some _ => true end).

Definition getUserRole (userId organizationId : string) : Action (option OrganizationRole) :=
  data <- select_single organization_members (member_of organizationId userId) ;;
  ret (option_map m_role data).

(** [{ canChange | canRemove | canTransfer : boolean; reason?: string }] *)
Record Permission : Type := mkPermission {
  granted : bool;
  reason : option string
}.

Definition allow : Permission := mkPermission true None.
Definition deny (why : string) : Permission := mkPermission false (Some why).

Definition canChangeRole (userId organizationId targetUserId : string)
  (newRole : OrganizationRole) : Action Permission :=
  currentUserMember <- select_single organization_members
                         (member_of organizationId userId) ;;
  match currentUserMember with
  | None => ret (deny "You are not a member of this organization")
  | Some currentUserMember =>
    let currentUserRole := m_role currentUserMember in
    targetMember <- select_single organization_members
                      (member_of organizationId targetUserId) ;;
    match targetMember with
    | None => ret (deny "Target user is not a member of this organization")
    | Some targetMember =>
      let targetUserRole := m_role targetMember in
      if role_eqb currentUserRole owner then
        if role_eqb targetUserRole owner && negb (role_eqb newRole owner) then
          ret allow
        else if role_eqb targetUserRole owner && role_eqb newRole owner then
          ret (deny "Organization already has an owner")
        else ret allow
      else if role_eqb currentUserRole admin then
        if role_eqb targetUserRole owner || role_eqb targetUserRole admin then
          ret (deny "Admins cannot modify owners or other admins")
        else if role_eqb newRole owner || role_eqb newRole admin then
          ret (deny "Admins cannot assign owner or admin roles")
        else ret allow
      else ret (deny "You don't have permission to change member roles")
    end
  end.

Definition canRemoveMember (userId organizationId targetUserId : string)
  : Action Permission :=
  if userId =? targetUserId then
    isUserOwner <- isOwner userId organizationId ;;
    if isUserOwner
    then ret (deny "Owners must transfer ownership before leaving the organization")
    else ret allow
  else
    currentUserMember <- select_single organization_members
                           (member_of organizationId userId) ;;
    match currentUserMember with
    | None => ret (deny "You are not a member of this organization")
    | Some currentUserMember =>
      let currentUserRole := m_role currentUserMember in
      targetMember <- select_single organization_members
                        (member_of organizationId targetUserId) ;;
      match targetMember with
      | None => ret (deny "Target user is not a member of this organization")
      | Some targetMember =>
        let targetUserRole := m_role targetMember in
        if role_eqb currentUserRole owner then
          if role_eqb targetUserRole owner
          then ret (deny "Cannot remove the owner. Transfer ownership first.")
          else ret allow
        else if role_eqb currentUserRole admin then
          if role_eqb targetUserRole owner || role_eqb targetUserRole admin
          then ret (deny "Admins cannot remove owners or other admins")
          else ret allow
        else ret (deny "You don't have permission to remove members")
      end
    end.

Definition canTransferOwnership (userId organizationId targetUserId : string)
  : Action Permission :=
  isUserOwner <- isOwner userId organizationId ;;
  if negb isUserOwner then ret (deny "Only owners can transfer ownership")
  else if userId =? targetUserId then ret (deny "Cannot transfer ownership to yourself")
  else
    targetMember <- select_single organization_members
                      (member_of organizationId targetUserId) ;;
    match targetMember with
    | None => ret (deny "Target user is not a member of this organization")
    | Some _ => ret allow
    end.

(* ------------------------------------------------------------------ *)
(** ** Strings

    Strings are sequences of code units below 256 (the Latin-1 part of what
    a JavaScript string can hold); on these [toLowerCase] and [trim] act as
    [String.prototype.toLowerCase] and [String.prototype.trim] do. *)

Definition lower_char (c : ascii) : ascii :=
  let n := N_of_ascii c in
  if ((65 <=? n) && (n <=? 90) || (192 <=? n) && (n <=? 222) && negb (n =? 215))%N
  then ascii_of_N (n + 32) else c.

Fixpoint toLowerCase (s : string) : string :=
  match s with
  | EmptyString => EmptyString
  | String c s' => String (lower_char c) (toLowerCase s')
  end.

Definition is_white_space (c : ascii) : bool :=
  let n := N_of_ascii c in
  ((9 <=? n) && (n <=? 13) || (n =? 32) || (n =? 160))%N.

Fixpoint trimStart (s : string) : string :=
  match s with
  | EmptyString => EmptyString
  | String c s' => if is_white_space c then trimStart s' else s
  end.

Fixpoint trimEnd (s : string) : string :=
  match s with
  | EmptyString => EmptyString
  | String c s' =>
      match trimEnd s' with
      | EmptyString => if is_white_space c then EmptyString else String c EmptyString
      | t => String c t
      end
  end.

Definition trim (s : string) : string := trimEnd (trimStart s).

(** A string in a boolean position: the empty string is falsy. *)
Definition truthy (s : option string) : option string :=
  match s with
  | Some EmptyString => None
  | other => other
  end.

(** [a || b] on an optional message. *)
Definition or_else (s : option string) (dflt : string) : string :=
  match truthy s with
  | Some x => x
  | None => dflt
  end.

(* ------------------------------------------------------------------ *)
(** ** Member actions ([src/actions/auth.ts], members part)

    Every action begins with [requireAuth()]; the user it returns is the
    argument [actor] (a request without a session is redirected before the
    action does anything).  The Supabase client reports failures as values,
    so the actions' outer [catch] is reached only where a form field is
    absent. *)

(** The fields of the submitted form; [None] is an absent field. *)
Record FormData : Type := mkForm {
  form_email : option string;
  form_role : option string
}.

(** [z.enum(["owner", "admin", "user", "viewer"])] *)
Definition changeRoleSchema (role : option string) : option OrganizationRole :=
  match role with
  | None => None
  | Some s =>
      if s =? "owner" then Some owner
      else if s =? "admin" then Some admin
      else if s =? "user" then Some user
      else if s =? "viewer" then Some viewer
      else None
  end.

(** The text of the validation library's issue for a value outside an enum;
    the library is not part of the repository. *)
Definition invalid_enum_value : string := "Invalid enum value".

Definition unexpected_error : string :=
  "An unexpected error occurred. Please try again later.".

Definition changeMemberRole (actor : AuthUser) (organizationId memberId : string)
  (formData : FormData) : Action (option string) :=
  isUserMember <- isMember (auth_id actor) organizationId ;;
  if negb isUserMember then ret (Some "You don't have access to this organization")
  else
    member <- select_single organization_members (member_is memberId organizationId) ;;
    match member with
    | None => ret (Some "Member not found")
    | Some member =>
      match changeRoleSchema (form_role formData) with
      | None => ret (Some invalid_enum_value)
      | Some newRole =>
        permissionCheck <- canChangeRole (auth_id actor) organizationId
                             (m_user_id member) newRole ;;
        if negb (granted permissionCheck) then
          ret (Some (or_else (reason permissionCheck)
                       "You don't have permission to change this role"))
        else if role_eqb newRole owner then
          ret (Some "Use transfer ownership to change a member to owner")
        else
          updated <- commit (UpdateMemberRole memberId organizationId newRole) ;;
          if negb updated
          then ret (Some "Failed to update member role. Please try again.")
          else ret None
      end
    end.

Definition removeMember (actor : AuthUser) (organizationId memberId : string)
  : Action (option string) :=
  isUserMember <- isMember (auth_id actor) organizationId ;;
  if negb isUserMember then ret (Some "You don't have access to this organization")
  else
    member <- select_single organization_members (member_is memberId organizationId) ;;
    match member with
    | None => ret (Some "Member not found")
    | Some member =>
      permissionCheck <- canRemoveMember (auth_id actor) organizationId (m_user_id member) ;;
      if negb (granted permissionCheck) then
        ret (Some (or_else (reason permissionCheck)
                     "You don't have permission to remove this member"))
      else
        memberUser <- select_single users (fun u => u_id u =? m_user_id member) ;;
        deleted <- commit (DeleteMember memberId organizationId) ;;
        if negb deleted then ret (Some "Failed to remove member. Please try again.")
        else
          match truthy (option_map u_email memberUser) with
          | None => ret None
          | Some email =>
            acceptedInvitations <- select invitations
              (fun i => (i_organization_id i =? organizationId)
                        && (i_invitee_email i =? email)
                        && status_eqb (i_status i) accepted) ;;
            match acceptedInvitations with
            | Some (inv :: rest) =>
                commit (UpdateInvitationStatus
                          (AmongIds organizationId email (map i_id (inv :: rest)))
                          accepted) ;;;
                ret None
            | _ => ret None
            end
          end
    end.

Definition transfer_failed : string := "Failed to transfer ownership. Please try again.".

Definition transferOwnership (actor : AuthUser) (organizationId newOwnerMemberId : string)
  : Action (option string) :=
  isUserMember <- isMember (auth_id actor) organizationId ;;
  if negb isUserMember then ret (Some "You don't have access to this organization")
  else
    newOwnerMember <- select_single organization_members
                        (member_is newOwnerMemberId organizationId) ;;
    match newOwnerMember with
    | None => ret (Some "Member not found")
    | Some newOwnerMember =>
      permissionCheck <- canTransferOwnership (auth_id actor) organizationId
                           (m_user_id newOwnerMember) ;;
      if negb (granted permissionCheck) then
        ret (Some (or_else (reason permissionCheck)
                     "You don't have permission to transfer ownership"))
      else
        oldOwnerMember <- select_single organization_members
          (fun m => member_of organizationId (auth_id actor) m
                    && role_eqb (m_role m) owner) ;;
        match oldOwnerMember with
        | None => ret (Some "Owner member record not found")
        | Some oldOwnerMember =>
          (* 1. old owner to admin first *)
          updatedOld <- commit (UpdateMemberRole (m_id oldOwnerMember)
                                  organizationId admin) ;;
          if negb updatedOld then ret (Some transfer_failed)
          else
            (* 2. new owner to owner *)
            updatedNew <- commit (UpdateMemberRole newOwnerMemberId
                                    organizationId owner) ;;
            if negb updatedNew then
              (* rollback; its outcome is not inspected *)
              commit (UpdateMemberRole (m_id oldOwnerMember) organizationId owner) ;;;
              ret (Some transfer_failed)
            else ret None
        end
    end.

(* ------------------------------------------------------------------ *)
(** ** Invitation actions ([src/actions/auth.ts], invitations part) *)

(** [{ error: string | null; organizationId?: string }] *)
Record AcceptResult : Type := mkAccept {
  error : option string;
  organizationId : option string
}.

Definition failure (msg : string) : AcceptResult := mkAccept (Some msg) None.

(** [.order("created_at", { ascending: false })] *)
Fixpoint insert_by_created_at (i : OrganizationInvitation)
  (sorted : list OrganizationInvitation) : list OrganizationInvitation :=
  match sorted with
  | [] => [i]
  | j :: rest =>
      if (i_created_at j <? i_created_at i)%Z then i :: j :: rest
      else j :: insert_by_created_at i rest
  end.

Definition newest_first (rows : list OrganizationInvitation)
  : list OrganizationInvitation :=
  fold_right insert_by_created_at [] rows.

Definition has (ids : list string) (id : string) : bool := existsb (String.eqb id) ids.

(** [{ invitations: OrganizationInvitation[]; error: string | null }] *)
Definition getPendingInvitations (actor : option AuthUser)
  : Action (list OrganizationInvitation * option string) :=
  match actor with
  | None => ret ([], None)
  | Some actor =>
    match truthy (auth_email actor) with
    | None => ret ([], None)
    | Some email =>
      t <- get_now ;;
      data <- select invitations
                (fun i => (i_invitee_email i =? email)
                          && status_eqb (i_status i) pending
                          && (t <? i_expires_at i)%Z) ;;
      match data with
      | None => ret ([], Some "Failed to fetch invitations. Please try again.")
      | Some [] => ret ([], None)
      | Some rows =>
        let data := newest_first rows in
        let organizationIds := map i_organization_id data in
        memberships <- select organization_members
                         (fun m => (m_user_id m =? auth_id actor)
                                   && has organizationIds (m_organization_id m)) ;;
        let memberOrgIds :=
          map m_organization_id (match memberships with Some ms => ms | None => [] end) in
        acceptedInvitations <- select invitations
                         (fun i => (i_invitee_email i =? email)
                                   && status_eqb (i_status i) accepted
                                   && has organizationIds (i_organization_id i)) ;;
        let acceptedOrgIds :=
          map i_organization_id
              (match acceptedInvitations with Some invs => invs | None => [] end) in
        let filteredData :=
          filter (fun inv => negb (has memberOrgIds (i_organization_id inv))
                             && negb (has acceptedOrgIds (i_organization_id inv))) data in
        ret (filteredData, None)
      end
    end
  end.

Definition mark_failed_no_rows : string :=
  "Failed to mark invitation as accepted. No rows were updated. Please contact support.".

(** [`Failed to mark invitation as accepted: ${error.message || 'Unknown
    error'}. Please contact support.`], for the message of the database's
    error. *)
Definition mark_failed (message : option string) : string :=
  "Failed to mark invitation as accepted: "
  ++ or_else message "Unknown error" ++ ". Please contact support.".

Definition acceptInvitation (actor : AuthUser) (invitationId : string)
  : Action AcceptResult :=
  match truthy (auth_email actor) with
  | None => ret (failure "User email not found")
  | Some email =>
    invitation <- select_single invitations
                    (fun i => (i_id i =? invitationId)
                              && (i_invitee_email i =? email)
                              && status_eqb (i_status i) pending) ;;
    match invitation with
    | None => ret (failure "Invitation not found or has expired")
    | Some invitation =>
      t <- get_now ;;
      if (i_expires_at invitation <? t)%Z then
        commit (UpdateInvitationStatus (ById invitationId) expired) ;;;
        ret (failure "This invitation has expired")
      else
        existingMember <- select_single organization_members
                            (member_of (i_organization_id invitation) (auth_id actor)) ;;
        match existingMember with
        | Some _ =>
            commit (UpdateInvitationStatus
                      (PendingFor (i_organization_id invitation) email) accepted) ;;;
            ret (mkAccept (Some "You are already a member of this organization")
                          (Some (i_organization_id invitation)))
        | None =>
            newId <- fresh_uuid ;;
            inserted <- commit (InsertMember
                                  (mkMember newId (i_organization_id invitation)
                                            (auth_id actor) (i_role invitation))) ;;
            if negb inserted
            then ret (failure "Failed to accept invitation. Please try again.")
            else
              updateResult <- update_invitations_returning (ById invitationId) accepted ;;
              match updateResult with
              | None =>
                  e <- get_env ;;
                  ret (failure (mark_failed (error_message e)))
              | Some [] => ret (failure mark_failed_no_rows)
              | Some _ =>
                  commit (UpdateInvitationStatus
                            (PendingFor (i_organization_id invitation) email) accepted) ;;;
                  ret (mkAccept None (Some (i_organization_id invitation)))
              end
        end
    end
  end.

Definition acceptInvitationByToken (actor : AuthUser) (token : string)
  : Action AcceptResult :=
  match truthy (auth_email actor) with
  | None => ret (failure "User email not found")
  | Some email =>
    invitation <- select_single invitations
                    (fun i => (i_token i =? token) && status_eqb (i_status i) pending) ;;
    match invitation with
    | None => ret (failure "Invitation not found or has already been used")
    | Some invitation =>
      if negb (toLowerCase (i_invitee_email invitation) =? toLowerCase email) then
        ret (failure "This invitation was sent to a different email address")
      else
        t <- get_now ;;
        if (i_expires_at invitation <? t)%Z then
          commit (UpdateInvitationStatus (ByToken token) expired) ;;;
          ret (failure "This invitation has expired")
        else
          existingMember <- select_single organization_members
                              (member_of (i_organization_id invitation) (auth_id actor)) ;;
          match existingMember with
          | Some _ =>
              commit (UpdateInvitationStatus
                        (PendingFor (i_organization_id invitation) email) accepted) ;;;
              ret (mkAccept None (Some (i_organization_id invitation)))
          | None =>
              newId <- fresh_uuid ;;
              inserted <- commit (InsertMember
                                    (mkMember newId (i_organization_id invitation)
                                              (auth_id actor) (i_role invitation))) ;;
              if negb inserted
              then ret (failure "Failed to accept invitation. Please try again.")
              else
                updateResult <- update_invitations_returning (ByToken token) accepted ;;
                match updateResult with
                | None =>
                    e <- get_env ;;
                    ret (failure (mark_failed (error_message e)))
                | Some [] => ret (failure mark_failed_no_rows)
                | Some _ =>
                    commit (UpdateInvitationStatus
                              (PendingFor (i_organization_id invitation) email)
                              accepted) ;;;
                    ret (mkAccept None (Some (i_organization_id invitation)))
                end
          end
    end
  end.

Definition declineInvitation (actor : AuthUser) (invitationId : string)
  : Action (option string) :=
  match truthy (auth_email actor) with
  | None => ret (Some "User email not found")
  | Some email =>
    invitation <- select_single invitations
                    (fun i => (i_id i =? invitationId)
                              && (i_invitee_email i =? email)
                              && status_eqb (i_status i) pending) ;;
    match invitation with
    | None => ret (Some "Invitation not found")
    | Some _ =>
        updated <- commit (UpdateInvitationStatus (ById invitationId) expired) ;;
        if negb updated then ret (Some "Failed to decline invitation. Please try again.")
        else ret None
    end
  end.

Definition cancelInvitation (actor : AuthUser) (organizationId invitationId : string)
  : Action (option string) :=
  isUserMember <- isMember (auth_id actor) organizationId ;;
  if negb isUserMember then ret (Some "You don't have access to this organization")
  else
    invitation <- select_single invitations
                    (fun i => (i_id i =? invitationId)
                              && (i_organization_id i =? organizationId)
                              && status_eqb (i_status i) pending) ;;
    match invitation with
    | None => ret (Some "Invitation not found")
    | Some invitation =>
      member <- select_single organization_members
                  (member_of organizationId (auth_id actor)) ;;
      let permitted :=
        match member with
        | None => false
        | Some member =>
            negb (negb (role_eqb (m_role member) owner)
                  && negb (role_eqb (m_role member) admin)
                  && negb (i_inviter_id invitation =? auth_id actor))
        end in
      if negb permitted
      then ret (Some "You don't have permission to cancel this invitation")
      else
        updated <- commit (UpdateInvitationStatus (ById invitationId) expired) ;;
        if negb updated then ret (Some "Failed to cancel invitation. Please try again.")
        else ret None
    end.

(** [{ error: string | null; invitationId?: string }] *)
Record InviteResult : Type := mkInvite {
  invite_error : option string;
  invitationId : option string
}.

(** [z.enum(["admin", "user", "viewer"])] *)
Definition inviteRoleSchema (role : option string) : option OrganizationRole :=
  match role with
  | None => None
  | Some s =>
      if s =? "admin" then Some admin
      else if s =? "user" then Some user
      else if s =? "viewer" then Some viewer
      else None
  end.

(** Seven times twenty-four hours, in milliseconds: what seven calendar
    days last when no change of the clocks falls among them. *)
Definition seven_days : Z := 7 * 24 * 60 * 60 * 1000.

Section Invite.

(** [z.string().email(...)]: the validation library's test of an email
    address, which is not part of the repository. *)
Variable isEmail : string -> bool.

Definition inviteMember (actor : AuthUser) (organizationId : string)
  (formData : FormData) : Action InviteResult :=
  canInvite <- canInviteMembers (auth_id actor) organizationId ;;
  if negb canInvite
  then ret (mkInvite (Some "Only owners and admins can invite members") None)
  else
    isUserMember <- isMember (auth_id actor) organizationId ;;
    if negb isUserMember
    then ret (mkInvite (Some "You don't have access to this organization") None)
    else
      match form_email formData with
      | None => ret (mkInvite (Some unexpected_error) None)
      | Some email =>
        let email := trim (toLowerCase email) in
        if negb (isEmail email) then ret (mkInvite (Some "Invalid email address") None)
        else
          match inviteRoleSchema (form_role formData) with
          | None => ret (mkInvite (Some invalid_enum_value) None)
          | Some role =>
            currentUserMember <- select_single organization_members
                                   (member_of organizationId (auth_id actor)) ;;
            if match currentUserMember with
               | Some m => role_eqb (m_role m) admin && role_eqb role admin
               | None => false
               end
            then ret (mkInvite
                        (Some "Admins cannot invite other admins. Only owners can invite admins.")
                        None)
            else
              existingUser <- select_single users (fun u => u_email u =? email) ;;
              existingMember <-
                match existingUser with
                | Some existingUser =>
                    select_single organization_members
                      (member_of organizationId (u_id existingUser))
                | None => ret None
                end ;;
              match existingMember with
              | Some _ =>
                  ret (mkInvite (Some "User is already a member of this organization") None)
              | None =>
                existingInvitation <- select_single invitations
                  (fun i => (i_organization_id i =? organizationId)
                            && (i_invitee_email i =? email)
                            && status_eqb (i_status i) pending) ;;
                match existingInvitation with
                | Some _ =>
                    ret (mkInvite
                           (Some "There is already a pending invitation for this email")
                           None)
                | None =>
                  t <- get_now ;;
                  e <- get_env ;;
                  (* [id], [token] and [created_at] are column defaults *)
                  newId <- fresh_uuid ;;
                  newToken <- fresh_uuid ;;
                  inserted <- commit (InsertInvitation
                    (mkInvitation newId organizationId (auth_id actor) email role
                                  pending newToken (seven_days_later e t)
                                  (database_clock e t))) ;;
                  if negb inserted
                  then ret (mkInvite
                              (Some "Failed to create invitation. Please try again.") None)
                  else
                    (* the two lookups made for the notification email; its
                       outcome changes neither the tables nor the result *)
                    attempt ;;; attempt ;;;
                    ret (mkInvite None (Some newId))
                end
              end
          end
      end.

End Invite.

(* ------------------------------------------------------------------ *)
(** ** Running the primitives *)

(** Whether the next request is answered, and the world once it was sent. *)
Definition next_ok (w : World) : bool := fst (attempt w).
Definition tick (w : World) : World := snd (attempt w).

(** The next [n] requests are all answered. *)
Fixpoint answered (n : nat) (w : World) : bool :=
  match n with
  | O => true
  | S n' => next_ok w && answered n' (tick w)
  end.

(** The row [.eq("organization_id", o).eq("user_id", u).single()] yields. *)
Definition membership (d : Database) (organizationId userId : string)
  : option OrganizationMember :=
  single (filter (member_of organizationId userId) (organization_members d)).

(** The row [.eq("id", id).eq("organization_id", o).single()] yields. *)
Definition member_by_id (d : Database) (memberId organizationId : string)
  : option OrganizationMember :=
  single (filter (member_is memberId organizationId) (organization_members d)).

Lemma attempt_eq w : attempt w = (next_ok w, tick w).
Proof. unfold next_ok, tick. destruct (attempt w); reflexivity. Qed.

Lemma db_tick w : db (tick w) = db w.
Proof. unfold tick, attempt. destruct (outcomes w); reflexivity. Qed.

Lemma journal_tick w : journal (tick w) = journal w.
Proof. unfold tick, attempt. destruct (outcomes w); reflexivity. Qed.

Lemma now_tick w : now (tick w) = now w.
Proof. unfold tick, attempt. destruct (outcomes w); reflexivity. Qed.

Lemma uuid_tick w : uuid (tick w) = uuid w /\ uuid_next (tick w) = uuid_next w.
Proof. unfold tick, attempt. destruct (outcomes w); split; reflexivity. Qed.

Lemma env_tick w : env (tick w) = env w.
Proof. unfold tick, attempt. destruct (outcomes w); reflexivity. Qed.

Lemma select_eq A (table : Database -> list A) p w :
  select table p w =
  ((if next_ok w then Some (filter p (table (db w))) else None), tick w).
Proof.
  unfold select, bind, get_db, ret. rewrite attempt_eq, db_tick. reflexivity.
Qed.

Lemma select_single_eq A (table : Database -> list A) p w :
  select_single table p w =
  ((if next_ok w then single (filter p (table (db w))) else None), tick w).
Proof.
  unfold select_single, bind, ret. rewrite select_eq.
  destruct (next_ok w); reflexivity.
Qed.

(** A write either is applied, or leaves the tables alone; either way it is
    journalled. *)
Definition applied (r : Mutation) (w : World) : option Database :=
  if next_ok w then perform r (db w) else None.

Definition committed (r : Mutation) (w : World) : World :=
  let w1 := tick w in
  match applied r w with
  | Some d' => mkWorld d' (outcomes w1) (journal w ++ [mkEntry r true d'])
                 (now w) (uuid w) (uuid_next w) (env w)
  | None => mkWorld (db w) (outcomes w1) (journal w ++ [mkEntry r false (db w)])
              (now w) (uuid w) (uuid_next w) (env w)
  end.

Lemma commit_eq r w :
  commit r w = (match applied r w with Some _ => true | None => false end, committed r w).
Proof.
  unfold commit, committed, applied.
  rewrite attempt_eq, db_tick, journal_tick, now_tick, env_tick.
  destruct (uuid_tick w) as [-> ->].
  destruct (next_ok w); [destruct (perform r (db w))|]; reflexivity.
Qed.


Lemma role_eqb_eq a b : role_eqb a b = true <-> a = b.
Proof. destruct a, b; simpl; split; congruence. Qed.

Lemma status_eqb_eq a b : status_eqb a b = true <-> a = b.
Proof. destruct a, b; simpl; split; congruence. Qed.

(* ------------------------------------------------------------------ *)
(** ** The role-change decision *)

Definition low_role (r : OrganizationRole) : bool :=
  role_eqb r user || role_eqb r viewer.

Lemma canChangeRole_eq userId org targetUserId newRole w :
  result (canChangeRole userId org targetUserId newRole) w =
  match (if next_ok w then membership (db w) org userId else None) with
  | None => deny "You are not a member of this organization"
  | Some actorRow =>
    match (if next_ok (tick w) then membership (db w) org targetUserId else None) with
    | None => deny "Target user is not a member of this organization"
    | Some targetRow =>
      match m_role actorRow with
      | owner =>
          if role_eqb (m_role targetRow) owner && role_eqb newRole owner
          then deny "Organization already has an owner" else allow
      | admin =>
          if negb (low_role (m_role targetRow))
          then deny "Admins cannot modify owners or other admins"
          else if negb (low_role newRole)
          then deny "Admins cannot assign owner or admin roles"
          else allow
      | _ => deny "You don't have permission to change member roles"
      end
    end
  end.
Proof.
  unfold result, canChangeRole, bind, membership.
  rewrite select_single_eq.
  destruct (next_ok w); [|reflexivity].
  destruct (single _) as [a|]; [|reflexivity].
  rewrite select_single_eq, db_tick.
  destruct (next_ok (tick w)); [|destruct (m_role a); reflexivity].
  destruct (single _) as [t|]; [|destruct (m_role a); reflexivity].
  destruct (m_role a), (m_role t), newRole; reflexivity.
Qed.

(** C9.  For an admin actor, [canChangeRole] denies whenever the target is
    an owner or an admin (whatever the new role) and whenever the new role
    is owner or admin (whatever the target's role); it grants exactly when
    both requests are answered and both the target's role and the new role
    are among user and viewer.  The two denials carry the reasons of the
    source. *)
Theorem canChangeRole_admin_actor :
  forall w userId org targetUserId newRole actorRow targetRow,
    membership (db w) org userId = Some actorRow ->
    m_role actorRow = admin ->
    membership (db w) org targetUserId = Some targetRow ->
    let decision := result (canChangeRole userId org targetUserId newRole) w in
    (m_role targetRow = owner \/ m_role targetRow = admin -> granted decision = false)
    /\ (newRole = owner \/ newRole = admin -> granted decision = false)
    /\ (granted decision = true <->
        answered 2 w = true
        /\ (m_role targetRow = user \/ m_role targetRow = viewer)
        /\ (newRole = user \/ newRole = viewer))
    /\ (answered 2 w = true ->
        decision =
        if role_eqb (m_role targetRow) owner || role_eqb (m_role targetRow) admin
        then deny "Admins cannot modify owners or other admins"
        else if role_eqb newRole owner || role_eqb newRole admin
        then deny "Admins cannot assign owner or admin roles"
        else allow).
Proof.
  intros w userId org targetUserId newRole actorRow targetRow Ha Hr Ht decision.
  subst decision. rewrite canChangeRole_eq, Ha, Ht. simpl answered.
  destruct (next_ok w), (next_ok (tick w)); simpl; rewrite ?Hr;
    destruct (m_role targetRow), newRole; simpl;
    repeat split; intros; try reflexivity; try discriminate;
    repeat match goal with
           | H : _ \/ _ |- _ => destruct H
           | H : _ /\ _ |- _ => destruct H
           end; try discriminate; auto.
Qed.

(* ------------------------------------------------------------------ *)
(** ** Reasoning about actions: postconditions *)

(** [wp c Q w]: running [c] in [w] yields a value and a world that satisfy [Q]. *)
Definition wp {A} (c : Action A) (Q : A -> World -> Prop) (w : World) : Prop :=
  Q (fst (c w)) (snd (c w)).

Lemma wp_ret A (a : A) Q w : Q a w -> wp (ret a) Q w.
Proof. exact (fun H => H). Qed.

Lemma wp_bind A B (c : Action A) (k : A -> Action B) Q w :
  wp c (fun a w' => wp (k a) Q w') w -> wp (bind c k) Q w.
Proof. unfold wp, bind. destruct (c w) as [a w']. exact (fun H => H). Qed.

Lemma wp_attempt Q w : Q (next_ok w) (tick w) -> wp attempt Q w.
Proof. unfold wp. rewrite attempt_eq. exact (fun H => H). Qed.

Lemma wp_get_now Q w : Q (now w) w -> wp get_now Q w.
Proof. exact (fun H => H). Qed.

Lemma wp_get_db Q w : Q (db w) w -> wp get_db Q w.
Proof. exact (fun H => H). Qed.

Lemma wp_get_env Q w : Q (env w) w -> wp get_env Q w.
Proof. exact (fun H => H). Qed.

Lemma wp_select A (table : Database -> list A) p Q w :
  Q (if next_ok w then Some (filter p (table (db w))) else None) (tick w) ->
  wp (select table p) Q w.
Proof. unfold wp. rewrite select_eq. exact (fun H => H). Qed.

Lemma wp_select_single A (table : Database -> list A) p Q w :
  Q (if next_ok w then single (filter p (table (db w))) else None) (tick w) ->
  wp (select_single table p) Q w.
Proof. unfold wp. rewrite select_single_eq. exact (fun H => H). Qed.

Lemma wp_commit r Q w :
  Q (match applied r w with Some _ => true | None => false end) (committed r w) ->
  wp (commit r) Q w.
Proof. unfold wp. rewrite commit_eq. exact (fun H => H). Qed.

(** The world once the generator handed out an id. *)
Definition bump (w : World) : World := snd (fresh_uuid w).

Lemma wp_fresh_uuid Q w : Q (uuid w (uuid_next w)) (bump w) -> wp fresh_uuid Q w.
Proof. exact (fun H => H). Qed.

(** The tables, the journal, the clock and the generator are those of [w]. *)
Definition untouched (w w' : World) : Prop :=
  db w' = db w /\ journal w' = journal w /\ now w' = now w
  /\ uuid w' = uuid w /\ uuid_next w' = uuid_next w.

Lemma untouched_refl w : untouched w w.
Proof. repeat split. Qed.

Lemma untouched_tick w0 w : untouched w0 w -> untouched w0 (tick w).
Proof.
  intros (Hd & Hj & Hn & Hu & Hx). destruct (uuid_tick w) as [E1 E2].
  repeat split; rewrite ?db_tick, ?journal_tick, ?now_tick, ?E1, ?E2; assumption.
Qed.

Create HintDb actions.
#[local] Hint Resolve untouched_refl untouched_tick : actions.

(** One step of symbolic execution of an action under [wp]. *)
Ltac wp_step :=
  lazymatch goal with
  | |- wp (bind _ _) _ _ => apply wp_bind
  | |- wp (ret _) _ _ => apply wp_ret
  | |- wp attempt _ _ => apply wp_attempt
  | |- wp get_now _ _ => apply wp_get_now
  | |- wp get_db _ _ => apply wp_get_db
  | |- wp get_env _ _ => apply wp_get_env
  | |- wp fresh_uuid _ _ => apply wp_fresh_uuid
  | |- wp (select _ _) _ _ => apply wp_select
  | |- wp (select_single _ _) _ _ => apply wp_select_single
  | |- wp (commit _) _ _ => apply wp_commit
  | |- wp (if ?b then _ else _) _ _ => destruct b eqn:?
  | |- wp (match ?x with _ => _ end) _ _ => destruct x eqn:?
  end.

(** A read-only action leaves the world untouched but for the schedule. *)
Definition read_only {A} (c : Action A) : Prop :=
  forall w0 w, untouched w0 w -> wp c (fun _ w' => untouched w0 w') w.

Lemma isMember_read_only userId org : read_only (isMember userId org).
Proof. intros w0 w H. unfold isMember. repeat wp_step; auto with actions. Qed.

Lemma isOwner_read_only userId org : read_only (isOwner userId org).
Proof. intros w0 w H. unfold isOwner. repeat wp_step; auto with actions. Qed.

Lemma isAdminOrOwner_read_only userId org : read_only (isAdminOrOwner userId org).
Proof. intros w0 w H. unfold isAdminOrOwner. repeat wp_step; auto with actions. Qed.

Lemma canChangeRole_read_only userId org target newRole :
  read_only (canChangeRole userId org target newRole).
Proof. intros w0 w H. unfold canChangeRole. repeat wp_step; auto with actions. Qed.

Lemma canRemoveMember_read_only userId org target :
  read_only (canRemoveMember userId org target).
Proof.
  intros w0 w H. unfold canRemoveMember, isOwner. repeat wp_step; auto with actions.
Qed.

Lemma canTransferOwnership_read_only userId org target :
  read_only (canTransferOwnership userId org target).
Proof.
  intros w0 w H. unfold canTransferOwnership, isOwner. repeat wp_step; auto with actions.
Qed.

Lemma wp_read_only A (c : Action A) (Q : A -> World -> Prop) w0 w :
  read_only c -> untouched w0 w ->
  (forall a w', untouched w0 w' -> Q a w') ->
  wp c Q w.
Proof. intros Hc Hw HQ. apply HQ. exact (Hc w0 w Hw). Qed.

(* ------------------------------------------------------------------ *)
(** ** A sample organization *)

Module Acme.

Definition alice : AuthUser := mkAuth "u-alice" (Some "alice@acme.test").
Definition bob : AuthUser := mkAuth "u-bob" (Some "bob@acme.test").
Definition carol : AuthUser := mkAuth "u-carol" (Some "carol@acme.test").
Definition dave : AuthUser := mkAuth "u-dave" (Some "dave@acme.test").

Definition members : list OrganizationMember :=
  [ mkMember "m-alice" "acme" "u-alice" owner;
    mkMember "m-bob" "acme" "u-bob" admin;
    mkMember "m-carol" "acme" "u-carol" user ].

Definition profiles : list UserProfile :=
  [ mkUser "u-alice" "alice@acme.test";
    mkUser "u-bob" "bob@acme.test";
    mkUser "u-carol" "carol@acme.test";
    mkUser "u-dave" "dave@acme.test" ].

Definition tables : Database := mkDatabase members [] profiles.

Definition alice_row : OrganizationMember := mkMember "m-alice" "acme" "u-alice" owner.
Definition carol_row : OrganizationMember := mkMember "m-carol" "acme" "u-carol" user.

(** A stand-in for the validation library's email test. *)
Fixpoint has_at_sign (s : string) : bool :=
  match s with
  | EmptyString => false
  | String c s' => (c =? "@")%char || has_at_sign s'
  end.

Definition uuids (n : nat) : string :=
  match n with
  | 0 => "id-0" | 1 => "id-1" | 2 => "id-2" | 3 => "id-3" | 4 => "id-4"
  | _ => "id-5"
  end%nat.

(** A server on universal time, whose seven calendar days are seven times
    twenty-four hours, a database whose clock agrees with the server's, and
    errors that carry no message. *)
Definition utc : Environment :=
  mkEnvironment (fun t => t + seven_days)%Z (fun t => t) None.

(** A world over [d] at time [t] in which the requests fail as scheduled. *)
Definition world (d : Database) (schedule : list bool) (t : Z) : World :=
  mkWorld d schedule [] t uuids 0 utc.

End Acme.

(* ------------------------------------------------------------------ *)
(** ** Role changes never hand out ownership *)

Lemma journal_committed r w :
  journal (committed r w) =
  journal w ++ [mkEntry r (match applied r w with Some _ => true | None => false end)
                        (db (committed r w))].
Proof. unfold committed. destruct (applied r w); reflexivity. Qed.

(** The entries an action appended to the journal of [w]. *)
Definition appended (w w' : World) (extra : list Entry) : Prop :=
  journal w' = journal w ++ extra.

Lemma appended_untouched w0 w : untouched w0 w -> appended w0 w [].
Proof. intros (_ & Hj & _). unfold appended. rewrite Hj, app_nil_r. reflexivity. Qed.

(** [canChangeRole], asked for the role owner: granted to an owner acting on
    a member who is not the owner, denied to everybody else. *)
Lemma canChangeRole_owner_request w userId org targetUserId actorRow targetRow :
  membership (db w) org userId = Some actorRow ->
  membership (db w) org targetUserId = Some targetRow ->
  answered 2 w = true ->
  granted (result (canChangeRole userId org targetUserId owner) w)
  = role_eqb (m_role actorRow) owner && negb (role_eqb (m_role targetRow) owner).
Proof.
  intros Ha Ht Hok. rewrite canChangeRole_eq, Ha, Ht. simpl in Hok.
  destruct (next_ok w); [|discriminate].
  destruct (next_ok (tick w)); [|discriminate].
  destruct (m_role actorRow), (m_role targetRow); reflexivity.
Qed.

Lemma changeMemberRole_post actor org memberId formData w :
  wp (changeMemberRole actor org memberId formData)
     (fun r w' =>
        (form_role formData = Some "owner" -> r <> None /\ untouched w w')
        /\ exists extra, appended w w' extra
             /\ Forall (fun e => exists r, request e = UpdateMemberRole memberId org r
                                           /\ r <> owner) extra) w.
Proof.
  unfold changeMemberRole, isMember.
    repeat wp_step;
      try solve [split; [intros _; split; [discriminate | auto with actions]|];
                 exists []; split;
                 [apply appended_untouched; auto with actions | constructor]].
    apply (@wp_read_only _ _ _ w);
      [apply canChangeRole_read_only | auto with actions |].
    intros p w' Hw'.
    repeat wp_step;
      try solve [split; [intros _; split; [discriminate | auto with actions]|];
                 exists []; split;
                 [apply appended_untouched; auto with actions | constructor]].
    all: split;
      [ intros E; rewrite E in *; simpl in *;
        match goal with
        | H : Some owner = Some _ |- _ => inversion H; subst; discriminate
        end
      | eexists; split;
        [ unfold appended; rewrite journal_committed;
          destruct Hw' as (_ & -> & _); reflexivity
        | constructor; [|constructor]; eexists; split; [reflexivity|];
          intros ->; discriminate ] ].
Qed.

(** What the role-change action answers to a request for the role owner,
    once the actor and the member were found. *)
Lemma changeMemberRole_owner_request actor org memberId email targetRow w :
  answered 2 w = true ->
  membership (db w) org (auth_id actor) <> None ->
  member_by_id (db w) memberId org = Some targetRow ->
  result (changeMemberRole actor org memberId (mkForm email (Some "owner"))) w
  = Some (let decision := result (canChangeRole (auth_id actor) org (m_user_id targetRow)
                                    owner) (tick (tick w)) in
          if granted decision
          then "Use transfer ownership to change a member to owner"
          else or_else (reason decision)
                 "You don't have permission to change this role").
Proof.
  intros Hok Hactor Htarget. cbn [answered] in Hok.
  apply andb_true_iff in Hok. destruct Hok as [H1 Hok].
  apply andb_true_iff in Hok. destruct Hok as [H2 _].
  unfold result at 1. unfold changeMemberRole, isMember, bind.
  rewrite select_single_eq, H1. fold (membership (db w) org (auth_id actor)).
  destruct (membership (db w) org (auth_id actor)) as [a|]; [|contradiction Hactor; reflexivity].
  cbn [ret negb]. rewrite select_single_eq, db_tick, H2.
  fold (member_by_id (db w) memberId org). rewrite Htarget.
  cbn [form_role changeRoleSchema String.eqb Ascii.eqb Bool.eqb].
  unfold result.
  destruct (canChangeRole (auth_id actor) org (m_user_id targetRow) owner (tick (tick w)))
    as [decision w'].
  cbn [fst]. destruct (granted decision); reflexivity.
Qed.

(** C4 (as it holds).  Asked for the role owner, [canChangeRole] does not
    always deny: with both lookups answered it denies to admins, users and
    viewers, and for a target that is the owner, with the reasons of the
    source, but it grants to an owner acting on a member who is not the
    owner; a failed lookup denies.  The role-change action
    [changeMemberRole] never grants the role owner all the same: a request
    for it always comes back with an error and touches neither the tables nor
    the journal; the error is the reason of [canChangeRole] where it denied
    and the advice to use the ownership transfer where it granted; and
    whatever the form holds, the only write [changeMemberRole] can issue sets
    a role other than owner. *)
Theorem changeMemberRole_never_grants_owner :
  forall actor org memberId email formData w,
    (let c := changeMemberRole actor org memberId (mkForm email (Some "owner")) in
     result c w <> None /\ untouched w (after c w))
    /\ (let c := changeMemberRole actor org memberId formData in
        exists extra, appended w (after c w) extra
          /\ Forall (fun e => exists r, request e = UpdateMemberRole memberId org r
                                        /\ r <> owner) extra)
    /\ (forall userId targetUserId,
          let decision := result (canChangeRole userId org targetUserId owner) w in
          (granted decision = true <->
           answered 2 w = true
           /\ exists actorRow targetRow,
                membership (db w) org userId = Some actorRow
                /\ membership (db w) org targetUserId = Some targetRow
                /\ m_role actorRow = owner /\ m_role targetRow <> owner)
          /\ (forall actorRow targetRow,
                membership (db w) org userId = Some actorRow ->
                membership (db w) org targetUserId = Some targetRow ->
                answered 2 w = true ->
                decision =
                match m_role actorRow with
                | owner =>
                    if role_eqb (m_role targetRow) owner
                    then deny "Organization already has an owner" else allow
                | admin =>
                    if role_eqb (m_role targetRow) owner
                       || role_eqb (m_role targetRow) admin
                    then deny "Admins cannot modify owners or other admins"
                    else deny "Admins cannot assign owner or admin roles"
                | _ => deny "You don't have permission to change member roles"
                end))
    /\ (forall targetRow,
          answered 2 w = true ->
          membership (db w) org (auth_id actor) <> None ->
          member_by_id (db w) memberId org = Some targetRow ->
          let decision := result (canChangeRole (auth_id actor) org (m_user_id targetRow)
                                    owner) (tick (tick w)) in
          result (changeMemberRole actor org memberId (mkForm email (Some "owner"))) w
          = Some (if granted decision
                  then "Use transfer ownership to change a member to owner"
                  else or_else (reason decision)
                         "You don't have permission to change this role")).
Proof.
  intros actor org memberId email formData w. split; [|split; [|split]].
  - exact (proj1 (changeMemberRole_post actor org memberId
                    (mkForm email (Some "owner")) w) eq_refl).
  - exact (proj2 (changeMemberRole_post actor org memberId formData w)).
  - intros userId targetUserId decision. subst decision.
    rewrite canChangeRole_eq. cbn [answered]. split.
    + destruct (next_ok w); cbn [andb];
        [|split; [discriminate | intros [H _]; discriminate H]].
      destruct (membership (db w) org userId) as [a|];
        [|split; [discriminate | intros (_ & a & t & H & _); discriminate H]].
      destruct (next_ok (tick w)); cbn [andb];
        [|split; [discriminate | intros [H _]; discriminate H]].
      destruct (membership (db w) org targetUserId) as [t|];
        [|split; [discriminate | intros (_ & a' & t & _ & H & _); discriminate H]].
      destruct (m_role a) eqn:Ra, (m_role t) eqn:Rt;
        cbn [role_eqb andb low_role orb negb granted deny allow];
        (split;
         [ first [ discriminate
                 | intros _; split; [reflexivity|]; exists a, t;
                   rewrite Ra, Rt; repeat split; discriminate ]
         | first [ reflexivity
                 | intros (_ & a' & t' & Ea & Et & Ha & Ht);
                   inversion Ea; subst a'; inversion Et; subst t';
                   first [ rewrite Ra in Ha; discriminate Ha
                         | contradiction Ht; exact Rt ] ] ]).
    + intros a t Ha Ht Hok. rewrite Ha, Ht.
      apply andb_true_iff in Hok. destruct Hok as [H1 Hok].
      apply andb_true_iff in Hok. destruct Hok as [H2 _]. rewrite H1, H2.
      destruct (m_role a), (m_role t); reflexivity.
  - intros targetRow Hok Hactor Htarget decision.
    exact (changeMemberRole_owner_request actor org memberId email targetRow w
             Hok Hactor Htarget).
Qed.

(** The owner asks to make a user owner: [canChangeRole] grants, and the
    action answers with the advice. *)
Example changeMemberRole_owner_request_by_owner :
  result (changeMemberRole Acme.alice "acme" "m-carol" (mkForm None (Some "owner")))
         (Acme.world Acme.tables [] 0)
  = Some "Use transfer ownership to change a member to owner".
Proof. reflexivity. Qed.

(** An owner asking [canChangeRole] to make another member owner is granted
    it: the denial of such requests is not made by this function. *)
Lemma canChangeRole_grants_owner_to_owner_actor :
  granted (result (canChangeRole "u-alice" "acme" "u-carol" owner)
                  (Acme.world Acme.tables [] 0)) = true.
Proof. reflexivity. Qed.

(* ------------------------------------------------------------------ *)
(** ** Ownership transfer *)

Lemma filter_andb A (p q : A -> bool) (l : list A) :
  filter (fun x => p x && q x) l = filter q (filter p l).
Proof.
  induction l as [|x l IH]; simpl; [reflexivity|].
  destruct (p x); simpl; [destruct (q x)|]; rewrite IH; reflexivity.
Qed.

Lemma single_filter A (p : A -> bool) (l : list A) (x : A) :
  single l = Some x -> single (filter p l) = if p x then Some x else None.
Proof.
  destruct l as [|y [|z l]]; simpl; try discriminate.
  intros [= ->]. destruct (p x); reflexivity.
Qed.

Lemma isMember_eq userId org w :
  isMember userId org w =
  (match (if next_ok w then membership (db w) org userId else None) with
   | Some _ => true
   | None => false
   end, tick w).
Proof. unfold isMember, bind, ret. rewrite select_single_eq. reflexivity. Qed.

(** The owner's row, as [isOwner] and [transferOwnership] look it up. *)
Definition owner_row (d : Database) (organizationId userId : string)
  : option OrganizationMember :=
  single (filter (fun m => member_of organizationId userId m && role_eqb (m_role m) owner)
                 (organization_members d)).

Lemma owner_row_membership d org userId m :
  membership d org userId = Some m ->
  owner_row d org userId = if role_eqb (m_role m) owner then Some m else None.
Proof.
  unfold membership, owner_row. intros H. rewrite filter_andb.
  exact (single_filter _ (fun m => role_eqb (m_role m) owner) _ _ H).
Qed.

Lemma isOwner_eq userId org w :
  isOwner userId org w =
  (match (if next_ok w then owner_row (db w) org userId else None) with
   | Some m => role_eqb (m_role m) owner
   | None => false
   end, tick w).
Proof. unfold isOwner, bind, ret. rewrite select_single_eq. reflexivity. Qed.

Lemma canTransferOwnership_eq userId org targetUserId w :
  canTransferOwnership userId org targetUserId w =
  if negb (match (if next_ok w then owner_row (db w) org userId else None) with
           | Some m => role_eqb (m_role m) owner
           | None => false
           end)
  then (deny "Only owners can transfer ownership", tick w)
  else if userId =? targetUserId
  then (deny "Cannot transfer ownership to yourself", tick w)
  else (match (if next_ok (tick w) then membership (db w) org targetUserId else None) with
        | None => deny "Target user is not a member of this organization"
        | Some _ => allow
        end, tick (tick w)).
Proof.
  unfold canTransferOwnership, bind. rewrite isOwner_eq.
  destruct (negb _); [reflexivity|].
  destruct (userId =? targetUserId); [reflexivity|].
  rewrite select_single_eq, db_tick. unfold membership.
  destruct (if next_ok (tick w) then _ else _); reflexivity.
Qed.

(** The three writes of the transfer. *)
Definition demote (oldRow : OrganizationMember) (org : string) : Mutation :=
  UpdateMemberRole (m_id oldRow) org admin.
Definition promote (newOwnerMemberId org : string) : Mutation :=
  UpdateMemberRole newOwnerMemberId org owner.
Definition restore (oldRow : OrganizationMember) (org : string) : Mutation :=
  UpdateMemberRole (m_id oldRow) org owner.

(** A transfer the permission checks let through: the actor holds the
    owner's row of the organization, the target row exists and belongs to
    somebody else. *)
Record valid_transfer (d : Database) (actor : AuthUser) (org newOwnerMemberId : string)
  (oldRow targetRow : OrganizationMember) : Prop := {
  vt_actor : membership d org (auth_id actor) = Some oldRow;
  vt_owner : m_role oldRow = owner;
  vt_target : member_by_id d newOwnerMemberId org = Some targetRow;
  vt_distinct : auth_id actor <> m_user_id targetRow;
  vt_member : membership d org (m_user_id targetRow) = Some targetRow
}.

Fixpoint ticks (n : nat) (w : World) : World :=
  match n with
  | O => w
  | S n' => ticks n' (tick w)
  end.

Lemma transferOwnership_eq actor org newOwnerMemberId w oldRow targetRow :
  valid_transfer (db w) actor org newOwnerMemberId oldRow targetRow ->
  answered 5 w = true ->
  transferOwnership actor org newOwnerMemberId w =
  let w5 := ticks 5 w in
  match applied (demote oldRow org) w5 with
  | None => (Some transfer_failed, committed (demote oldRow org) w5)
  | Some _ =>
    let w6 := committed (demote oldRow org) w5 in
    match applied (promote newOwnerMemberId org) w6 with
    | Some _ => (None, committed (promote newOwnerMemberId org) w6)
    | None =>
      (Some transfer_failed,
       committed (restore oldRow org) (committed (promote newOwnerMemberId org) w6))
    end
  end.
Proof.
  intros [Ha Ho Ht Hd Hm] Hok. simpl in Hok.
  repeat (apply andb_true_iff in Hok; destruct Hok as [? Hok]).
  unfold transferOwnership, bind.
  rewrite isMember_eq, H, Ha. cbn [negb].
  rewrite select_single_eq, db_tick, H0. fold (member_by_id (db w) newOwnerMemberId org).
  rewrite Ht.
  rewrite canTransferOwnership_eq, !db_tick, H1, H2, Hm.
  rewrite (@owner_row_membership _ _ _ _ Ha), Ho. cbn [role_eqb].
  cbv beta iota. rewrite Ho. cbn [role_eqb negb].
  destruct (String.eqb_spec (auth_id actor) (m_user_id targetRow)) as [E|_];
    [contradiction|].
  cbn [granted allow negb].
  rewrite select_single_eq, !db_tick, H3.
  fold (owner_row (db w) org (auth_id actor)).
  rewrite (@owner_row_membership _ _ _ _ Ha), Ho. cbn [role_eqb].
  rewrite commit_eq. cbn [ticks]. unfold demote, promote, restore.
  destruct (applied (UpdateMemberRole (m_id oldRow) org admin) _); [|reflexivity].
  cbn [negb]. rewrite commit_eq.
  destruct (applied (UpdateMemberRole newOwnerMemberId org owner) _); [reflexivity|].
  cbn [negb]. rewrite commit_eq. reflexivity.
Qed.

Lemma journal_ticks n w : journal (ticks n w) = journal w.
Proof. revert w. induction n; intros w; simpl; [|rewrite IHn, journal_tick]; reflexivity. Qed.

Lemma db_ticks n w : db (ticks n w) = db w.
Proof. revert w. induction n; intros w; simpl; [|rewrite IHn, db_tick]; reflexivity. Qed.


(** A transfer ends with [null] or with the one failure message: the caller
    cannot tell a failed rollback from any other failed write. *)
Lemma transferOwnership_results actor org newOwnerMemberId w oldRow targetRow :
  valid_transfer (db w) actor org newOwnerMemberId oldRow targetRow ->
  answered 5 w = true ->
  result (transferOwnership actor org newOwnerMemberId) w = None
  \/ result (transferOwnership actor org newOwnerMemberId) w = Some transfer_failed.
Proof.
  intros Hvalid Hok. unfold result.
  rewrite (transferOwnership_eq _ _ _ _ _ _ Hvalid Hok). cbv zeta.
  destruct (applied _ _); [destruct (applied _ _)|]; auto.
Qed.

Module DoubleFailure.
Import Acme.

(** Five reads answered, the demotion applied, then the promotion and the
    rollback both refused. *)
Definition schedule : list bool := [true; true; true; true; true; true; false; false].
(** The same with the rollback applied. *)
Definition recovered : list bool := [true; true; true; true; true; true; false; true].

Definition run_with (s : list bool) : option string * World :=
  run (transferOwnership alice "acme" "m-carol") (world tables s 0).

End DoubleFailure.

(** C2 (what the code does).  Alice, owner of Acme, transfers to Carol; the
    promotion fails and so does the rollback.  The three writes were issued,
    the last two refused; nobody owns Acme any more; and the caller gets the
    very message of a transfer whose rollback was applied. *)
Theorem transferOwnership_double_failure :
  map (fun e => (request e, succeeded e))
      (journal (snd (DoubleFailure.run_with DoubleFailure.schedule)))
  = [ (UpdateMemberRole "m-alice" "acme" admin, true);
      (UpdateMemberRole "m-carol" "acme" owner, false);
      (UpdateMemberRole "m-alice" "acme" owner, false) ]
  /\ owners_of "acme"
       (organization_members (db (snd (DoubleFailure.run_with DoubleFailure.schedule))))
     = []
  /\ fst (DoubleFailure.run_with DoubleFailure.schedule)
     = Some "Failed to transfer ownership. Please try again."
  /\ fst (DoubleFailure.run_with DoubleFailure.schedule)
     = fst (DoubleFailure.run_with DoubleFailure.recovered)
  /\ owners_of "acme"
       (organization_members (db (snd (DoubleFailure.run_with DoubleFailure.recovered))))
     = [mkMember "m-alice" "acme" "u-alice" owner].
Proof. vm_compute. repeat split. Qed.

(* ------------------------------------------------------------------ *)
(** ** The tables after a transfer *)

Definition role_update (memberId org : string) (r : OrganizationRole)
  (ms : list OrganizationMember) : list OrganizationMember :=
  map (fun m => if member_is memberId org m then set_role r m else m) ms.

Lemma filter_map_commute A (p q : A -> bool) (f : A -> A) (l : list A) :
  (forall x, In x l -> q (f x) = p x) ->
  filter q (map f l) = map f (filter p l).
Proof.
  induction l as [|x l IH]; intros H; simpl; [reflexivity|].
  rewrite (H x (or_introl eq_refl)).
  destruct (p x); simpl; rewrite IH; auto; intros y Hy; apply H; right; exact Hy.
Qed.

Lemma single_map A (f : A -> A) (l : list A) :
  single (map f l) = option_map f (single l).
Proof. destruct l as [|x [|y l]]; reflexivity. Qed.

Lemma single_In A (l : list A) (x : A) : single l = Some x -> l = [x].
Proof. destruct l as [|y [|z l]]; simpl; congruence. Qed.

Lemma filter_single_In A (p : A -> bool) (l : list A) (x y : A) :
  single (filter p l) = Some x -> In y l -> p y = true -> y = x.
Proof.
  intros Hs Hin Hp. apply single_In in Hs.
  assert (Hy : In y (filter p l)) by (apply filter_In; split; assumption).
  rewrite Hs in Hy. destruct Hy as [<-|[]]. reflexivity.
Qed.

Lemma membership_role_update d memberId org r org' userId :
  membership (with_members d (role_update memberId org r (organization_members d)))
             org' userId
  = option_map (fun m => if member_is memberId org m then set_role r m else m)
               (membership d org' userId).
Proof.
  unfold membership, role_update. cbn [organization_members with_members].
  rewrite (filter_map_commute _ (member_of org' userId)), single_map; [reflexivity|].
  intros x _. destruct (member_is memberId org x); reflexivity.
Qed.

Lemma member_by_id_role_update d memberId org r id' org' :
  member_by_id (with_members d (role_update memberId org r (organization_members d)))
               id' org'
  = option_map (fun m => if member_is memberId org m then set_role r m else m)
               (member_by_id d id' org').
Proof.
  unfold member_by_id, role_update. cbn [organization_members with_members].
  rewrite (filter_map_commute _ (member_is id' org')), single_map; [reflexivity|].
  intros x _. destruct (member_is memberId org x); reflexivity.
Qed.

(** What both parties of a transfer look like in the tables: each has one
    row, found by id and by user, and [ownerRow] is the organization's only
    owner. *)
Record transfer_ready (d : Database) (org : string)
  (ownerRow targetRow : OrganizationMember) : Prop := {
  tr_owner_membership : membership d org (m_user_id ownerRow) = Some ownerRow;
  tr_owner_by_id : member_by_id d (m_id ownerRow) org = Some ownerRow;
  tr_target_membership : membership d org (m_user_id targetRow) = Some targetRow;
  tr_target_by_id : member_by_id d (m_id targetRow) org = Some targetRow;
  tr_distinct : m_user_id ownerRow <> m_user_id targetRow;
  tr_sole_owner : owners_of org (organization_members d) = [ownerRow]
}.

Section Ready.

Variables (d : Database) (org : string) (ownerRow targetRow : OrganizationMember).
Hypothesis ready : transfer_ready d org ownerRow targetRow.

Let ms := organization_members d.

Lemma ready_owner_role : m_role ownerRow = owner.
Proof.
  assert (H : In ownerRow (owners_of org ms)).
  { unfold ms. rewrite (tr_sole_owner _ _ _ _ ready). left. reflexivity. }
  apply filter_In in H. destruct H as [_ H].
  apply andb_true_iff in H. apply role_eqb_eq. exact (proj2 H).
Qed.

Lemma ready_owner_In : In ownerRow ms /\ member_is (m_id ownerRow) org ownerRow = true.
Proof.
  pose proof (single_In _ _ _ (tr_owner_by_id _ _ _ _ ready)) as H.
  assert (Hin : In ownerRow (filter (member_is (m_id ownerRow) org) ms)).
  { unfold ms. rewrite H. left. reflexivity. }
  apply filter_In in Hin. exact Hin.
Qed.

Lemma ready_target_In : In targetRow ms /\ member_is (m_id targetRow) org targetRow = true.
Proof.
  pose proof (single_In _ _ _ (tr_target_by_id _ _ _ _ ready)) as H.
  assert (Hin : In targetRow (filter (member_is (m_id targetRow) org) ms)).
  { unfold ms. rewrite H. left. reflexivity. }
  apply filter_In in Hin. exact Hin.
Qed.

Lemma ready_rows_differ :
  member_is (m_id targetRow) org ownerRow = false
  /\ member_is (m_id ownerRow) org targetRow = false.
Proof.
  split.
  - destruct (member_is (m_id targetRow) org ownerRow) eqn:E; [|reflexivity].
    pose proof (filter_single_In _ _ _ _ _ (tr_target_by_id _ _ _ _ ready)
                  (proj1 ready_owner_In) E) as Heq.
    exfalso. apply (tr_distinct _ _ _ _ ready). rewrite Heq. reflexivity.
  - destruct (member_is (m_id ownerRow) org targetRow) eqn:E; [|reflexivity].
    pose proof (filter_single_In _ _ _ _ _ (tr_owner_by_id _ _ _ _ ready)
                  (proj1 ready_target_In) E) as Heq.
    exfalso. apply (tr_distinct _ _ _ _ ready). rewrite Heq. reflexivity.
Qed.

(** Which rows of the tables each id designates. *)
Lemma ready_owner_only m :
  In m ms -> member_is (m_id ownerRow) org m = true -> m = ownerRow.
Proof. exact (filter_single_In _ _ _ _ m (tr_owner_by_id _ _ _ _ ready)). Qed.

Lemma ready_target_only m :
  In m ms -> member_is (m_id targetRow) org m = true -> m = targetRow.
Proof. exact (filter_single_In _ _ _ _ m (tr_target_by_id _ _ _ _ ready)). Qed.

Lemma ready_owner_is m :
  In m ms -> (m_organization_id m =? org) && role_eqb (m_role m) owner = true ->
  m = ownerRow.
Proof.
  intros Hin Hp.
  assert (H : In m (owners_of org ms)) by (apply filter_In; split; assumption).
  unfold ms in H. rewrite (tr_sole_owner _ _ _ _ ready) in H.
  destruct H as [<-|[]]. reflexivity.
Qed.

End Ready.

Lemma filter_none A (p : A -> bool) (l : list A) :
  (forall x, In x l -> p x = false) -> filter p l = [].
Proof.
  induction l as [|x l IH]; intros H; simpl; [reflexivity|].
  rewrite (H x (or_introl eq_refl)). apply IH. intros y Hy. apply H. right. exact Hy.
Qed.

Section Swap.

Variables (d : Database) (org : string) (ownerRow targetRow : OrganizationMember).
Hypothesis ready : transfer_ready d org ownerRow targetRow.

Let ms := organization_members d.
Let ms1 := role_update (m_id ownerRow) org admin ms.
Let ms2 := role_update (m_id targetRow) org owner ms1.

(** Between the two writes nobody owns the organization. *)
Lemma owners_after_demote : owners_of org ms1 = [].
Proof.
  unfold owners_of, ms1, role_update. apply filter_none.
  intros y Hy. apply in_map_iff in Hy. destruct Hy as (x & <- & Hx).
  destruct (member_is (m_id ownerRow) org x) eqn:E.
  - cbn [set_role m_role m_organization_id role_eqb]. apply andb_false_r.
  - destruct ((m_organization_id x =? org) && role_eqb (m_role x) owner) eqn:Q;
      [|reflexivity].
    rewrite (ready_owner_is _ _ _ _ ready x Hx Q) in E.
    rewrite (proj2 (ready_owner_In _ _ _ _ ready)) in E. discriminate.
Qed.

(** After both, the target row alone does. *)
Lemma owners_after_promote : owners_of org ms2 = [set_role owner targetRow].
Proof.
  unfold owners_of, ms2, ms1, role_update. rewrite map_map.
  rewrite (filter_map_commute _ (member_is (m_id targetRow) org)).
  - unfold ms. rewrite (single_In _ _ _ (tr_target_by_id _ _ _ _ ready)).
    cbn [map]. destruct (ready_rows_differ _ _ _ _ ready) as [_ ->].
    rewrite (proj2 (ready_target_In _ _ _ _ ready)). reflexivity.
  - intros x Hx.
    destruct (member_is (m_id targetRow) org x) eqn:T.
    + pose proof (ready_target_only _ _ _ _ ready x Hx T) as Ex. subst x.
      destruct (ready_rows_differ _ _ _ _ ready) as [_ ->]. rewrite T.
      cbn [set_role m_role m_organization_id role_eqb].
      unfold member_is in T. apply andb_true_iff in T. destruct T as [_ ->].
      reflexivity.
    + destruct (member_is (m_id ownerRow) org x) eqn:E.
      * unfold member_is in *. cbn [set_role m_id m_organization_id m_role] in *.
        rewrite T. cbn [set_role m_role role_eqb]. apply andb_false_r.
      * rewrite T.
        destruct ((m_organization_id x =? org) && role_eqb (m_role x) owner) eqn:Q;
          [|reflexivity].
        rewrite (ready_owner_is _ _ _ _ ready x Hx Q) in E.
        rewrite (proj2 (ready_owner_In _ _ _ _ ready)) in E. discriminate.
Qed.

(** The roles are swapped, and the tables are ready for the way back. *)
Lemma ready_after_transfer :
  transfer_ready (with_members d ms2) org (set_role owner targetRow)
                 (set_role admin ownerRow).
Proof.
  destruct (ready_rows_differ _ _ _ _ ready) as [Ho Ht].
  destruct (ready_owner_In _ _ _ _ ready) as [_ Hoo].
  destruct (ready_target_In _ _ _ _ ready) as [_ Htt].
  pose proof (membership_role_update (with_members d ms1) (m_id targetRow) org owner)
    as M2.
  pose proof (member_by_id_role_update (with_members d ms1) (m_id targetRow) org owner)
    as B2.
  cbn [organization_members with_members] in M2, B2. fold ms2 in M2, B2.
  assert (E : with_members (with_members d ms1) ms2 = with_members d ms2) by reflexivity.
  rewrite E in M2, B2. clear E.
  constructor; cbn [set_role m_id m_user_id].
  - rewrite M2. unfold ms1. rewrite membership_role_update.
    rewrite (tr_target_membership _ _ _ _ ready). cbn [option_map].
    rewrite Ht, Htt. reflexivity.
  - rewrite B2. unfold ms1. rewrite member_by_id_role_update.
    rewrite (tr_target_by_id _ _ _ _ ready). cbn [option_map].
    rewrite Ht, Htt. reflexivity.
  - rewrite M2. unfold ms1. rewrite membership_role_update.
    rewrite (tr_owner_membership _ _ _ _ ready). cbn [option_map].
    rewrite Hoo. unfold member_is in *. cbn [set_role m_id m_organization_id] in *.
    rewrite Ho. reflexivity.
  - rewrite B2. unfold ms1. rewrite member_by_id_role_update.
    rewrite (tr_owner_by_id _ _ _ _ ready). cbn [option_map].
    rewrite Hoo. unfold member_is in *. cbn [set_role m_id m_organization_id] in *.
    rewrite Ho. reflexivity.
  - intros E. apply (tr_distinct _ _ _ _ ready). symmetry. exact E.
  - exact owners_after_promote.
Qed.

End Swap.

(* ------------------------------------------------------------------ *)
(** ** The schedule of outcomes *)

Lemma next_ok_hd w : next_ok w = hd true (outcomes w).
Proof. unfold next_ok, attempt. destruct (outcomes w); reflexivity. Qed.

Lemma outcomes_tick w : outcomes (tick w) = tl (outcomes w).
Proof.
  unfold tick, attempt. destruct (outcomes w) eqn:E; simpl; rewrite ?E; reflexivity.
Qed.

Lemma outcomes_committed r w : outcomes (committed r w) = tl (outcomes w).
Proof. unfold committed. rewrite outcomes_tick. destruct (applied r w); reflexivity. Qed.

Lemma answered_outcomes n : forall w w',
  outcomes w = outcomes w' -> answered n w = answered n w'.
Proof.
  induction n as [|n IH]; intros w w' E; simpl; [reflexivity|].
  rewrite !next_ok_hd, E. f_equal. apply IH. rewrite !outcomes_tick, E. reflexivity.
Qed.

Lemma tl_skipn A n : forall l : list A, tl (skipn n l) = skipn (S n) l.
Proof.
  induction n as [|n IH]; intros [|a l]; try reflexivity. exact (IH l).
Qed.

Lemma outcomes_ticks n : forall w, outcomes (ticks n w) = skipn n (outcomes w).
Proof.
  induction n as [|n IH]; intros w; simpl; [reflexivity|].
  rewrite IH, outcomes_tick. destruct (outcomes w); [destruct n|]; reflexivity.
Qed.

Lemma answered_split n m : forall w,
  answered (n + m) w = answered n w && answered m (ticks n w).
Proof.
  induction n as [|n IH]; intros w; simpl; [reflexivity|].
  rewrite IH, andb_assoc. reflexivity.
Qed.

Lemma env_ticks n : forall w, env (ticks n w) = env w.
Proof. induction n; intros w; simpl; [|rewrite IHn, env_tick]; reflexivity. Qed.

Lemma now_ticks n : forall w, now (ticks n w) = now w.
Proof. induction n; intros w; simpl; [|rewrite IHn, now_tick]; reflexivity. Qed.

Lemma uuid_ticks n : forall w,
  uuid (ticks n w) = uuid w /\ uuid_next (ticks n w) = uuid_next w.
Proof.
  induction n; intros w; simpl; [split; reflexivity|].
  destruct (IHn (tick w)) as [-> ->]. apply uuid_tick.
Qed.

(** A transfer in which every request is answered: the result, and the
    world it leaves. *)
Lemma transferOwnership_applied w actor org ownerRow targetRow :
  transfer_ready (db w) org ownerRow targetRow ->
  auth_id actor = m_user_id ownerRow ->
  answered 7 w = true ->
  let ms := organization_members (db w) in
  let d1 := with_members (db w) (role_update (m_id ownerRow) org admin ms) in
  let d2 := with_members (db w)
              (role_update (m_id targetRow) org owner
                 (role_update (m_id ownerRow) org admin ms)) in
  transferOwnership actor org (m_id targetRow) w =
  (None,
   mkWorld d2 (skipn 7 (outcomes w))
     (journal w ++ [ mkEntry (demote ownerRow org) true d1;
                     mkEntry (promote (m_id targetRow) org) true d2 ])
     (now w) (uuid w) (uuid_next w) (env w)).
Proof.
  intros Hready Hactor Hok ms d1 d2.
  assert (Hvalid : valid_transfer (db w) actor org (m_id targetRow) ownerRow targetRow).
  { constructor; rewrite ?Hactor.
    - exact (tr_owner_membership _ _ _ _ Hready).
    - exact (ready_owner_role _ _ _ _ Hready).
    - exact (tr_target_by_id _ _ _ _ Hready).
    - exact (tr_distinct _ _ _ _ Hready).
    - exact (tr_target_membership _ _ _ _ Hready). }
  change 7%nat with (5 + 2)%nat in Hok. rewrite answered_split in Hok.
  apply andb_true_iff in Hok. destruct Hok as [H5 H2].
  rewrite (transferOwnership_eq _ _ _ _ _ _ Hvalid H5). cbv zeta.
  cbn [answered] in H2. apply andb_true_iff in H2. destruct H2 as [Hw1 Hw2].
  rewrite andb_true_r in Hw2.
  set (w5 := ticks 5 w) in *.
  assert (A1 : applied (demote ownerRow org) w5 = Some d1).
  { unfold applied. rewrite Hw1. unfold w5. rewrite db_ticks. reflexivity. }
  assert (W6 : committed (demote ownerRow org) w5 =
               mkWorld d1 (skipn 6 (outcomes w))
                 (journal w ++ [mkEntry (demote ownerRow org) true d1])
                 (now w) (uuid w) (uuid_next w) (env w)).
  { unfold committed. rewrite A1, outcomes_tick. unfold w5.
    rewrite outcomes_ticks, journal_ticks, now_ticks, env_ticks.
    destruct (uuid_ticks 5 w) as [-> ->].
    rewrite tl_skipn. reflexivity. }
  rewrite A1, W6.
  assert (A2 : applied (promote (m_id targetRow) org)
                 (mkWorld d1 (skipn 6 (outcomes w))
                    (journal w ++ [mkEntry (demote ownerRow org) true d1])
                    (now w) (uuid w) (uuid_next w) (env w)) = Some d2).
  { unfold applied. rewrite next_ok_hd. cbn [outcomes db].
    rewrite next_ok_hd, outcomes_tick in Hw2. unfold w5 in Hw2.
    rewrite outcomes_ticks, tl_skipn in Hw2. rewrite Hw2.
    unfold promote, perform, d1. cbn [organization_members with_members role_eqb negb orb].
    unfold single_owner_ok.
    change (map _ (role_update (m_id ownerRow) org admin ms))
      with (role_update (m_id targetRow) org owner
              (role_update (m_id ownerRow) org admin ms)).
    unfold ms. rewrite (owners_after_promote _ _ _ _ Hready). reflexivity. }
  rewrite A2. f_equal. unfold committed. rewrite A2. cbn [journal now uuid uuid_next].
  rewrite outcomes_tick. cbn [outcomes]. rewrite <- app_assoc, tl_skipn. reflexivity.
Qed.

Lemma set_role_same m : set_role (m_role m) m = m.
Proof. destruct m; reflexivity. Qed.

Lemma set_role_set_role r r' m : set_role r (set_role r' m) = set_role r m.
Proof. reflexivity. Qed.

Lemma member_is_set_role id org r m :
  member_is id org (set_role r m) = member_is id org m.
Proof. reflexivity. Qed.

(** The member table after a transfer and the transfer back: the original
    one with the target's role set to admin. *)
Lemma round_trip_members d org ownerRow targetRow :
  transfer_ready d org ownerRow targetRow ->
  role_update (m_id ownerRow) org owner
    (role_update (m_id targetRow) org admin
       (role_update (m_id targetRow) org owner
          (role_update (m_id ownerRow) org admin (organization_members d))))
  = role_update (m_id targetRow) org admin (organization_members d).
Proof.
  intros ready. unfold role_update. rewrite !map_map. apply map_ext_in.
  intros x Hx.
  destruct (ready_rows_differ _ _ _ _ ready) as [Ho Ht].
  destruct (member_is (m_id ownerRow) org x) eqn:E.
  - pose proof (ready_owner_only _ _ _ _ ready x Hx E) as Ex. subst x.
    repeat (rewrite ?member_is_set_role, ?Ho, ?E; cbv beta iota).
    rewrite set_role_set_role.
    rewrite <- (ready_owner_role _ _ _ _ ready). apply set_role_same.
  - destruct (member_is (m_id targetRow) org x) eqn:T;
      repeat (rewrite ?member_is_set_role, ?T, ?E; cbv beta iota); reflexivity.
Qed.

(** C3 (as it holds).  The owner O transfers to the member M and M transfers
    straight back, every request being answered.  Both calls succeed; between
    them M is the organization's only owner; afterwards O holds the owner's
    row again exactly as before, M is admin whatever M's role was, and no
    other row has changed.  Inside each call the write that demotes leaves
    the organization without an owner until the write that promotes. *)
Theorem transfer_round_trip :
  forall w org ownerRow targetRow O M,
    transfer_ready (db w) org ownerRow targetRow ->
    auth_id O = m_user_id ownerRow ->
    auth_id M = m_user_id targetRow ->
    answered 14 w = true ->
    let first := transferOwnership O org (m_id targetRow) in
    let second := transferOwnership M org (m_id ownerRow) in
    let w1 := after first w in
    let w2 := after second w1 in
    result first w = None
    /\ result second w1 = None
    /\ owners_of org (organization_members (db w1)) = [set_role owner targetRow]
    /\ organization_members (db w2)
       = role_update (m_id targetRow) org admin (organization_members (db w))
    /\ membership (db w2) org (auth_id O) = Some ownerRow
    /\ membership (db w2) org (auth_id M) = Some (set_role admin targetRow)
    /\ exists extra,
         appended w w2 extra
         /\ map (fun e => owners_of org (organization_members (state_after e))) extra
            = [ []; [set_role owner targetRow]; []; [ownerRow] ].
Proof.
  intros w org ownerRow targetRow O M Hready HO HM Hok first second w1 w2.
  change 14%nat with (7 + 7)%nat in Hok. rewrite answered_split in Hok.
  apply andb_true_iff in Hok. destruct Hok as [Hok1 Hok2].
  pose proof (transferOwnership_applied w O org ownerRow targetRow Hready HO Hok1) as E1.
  cbv zeta in E1.
  set (ms := organization_members (db w)) in *.
  set (ms1 := role_update (m_id ownerRow) org admin ms) in *.
  set (ms2 := role_update (m_id targetRow) org owner ms1) in *.
  assert (Ew1 : w1 = mkWorld (with_members (db w) ms2) (skipn 7 (outcomes w))
                       (journal w ++ [ mkEntry (demote ownerRow org) true
                                         (with_members (db w) ms1);
                                       mkEntry (promote (m_id targetRow) org) true
                                         (with_members (db w) ms2) ])
                       (now w) (uuid w) (uuid_next w) (env w)).
  { unfold w1, after, first. rewrite E1. reflexivity. }
  pose proof (ready_after_transfer _ _ _ _ Hready) as Hready2. cbv zeta in Hready2.
  fold ms ms1 ms2 in Hready2.
  assert (Hdb1 : db w1 = with_members (db w) ms2) by (rewrite Ew1; reflexivity).
  assert (Hok2' : answered 7 w1 = true).
  { rewrite <- Hok2. apply answered_outcomes.
    rewrite outcomes_ticks, Ew1. reflexivity. }
  rewrite <- Hdb1 in Hready2.
  pose proof (transferOwnership_applied w1 M org (set_role owner targetRow)
                (set_role admin ownerRow) Hready2 HM Hok2') as E2.
  cbv zeta in E2. cbn [set_role m_id] in E2.
  assert (Hms4 : role_update (m_id ownerRow) org owner
                   (role_update (m_id targetRow) org admin (organization_members (db w1)))
                 = role_update (m_id targetRow) org admin ms).
  { rewrite Hdb1. cbn [organization_members with_members].
    exact (round_trip_members _ _ _ _ Hready). }
  rewrite Hms4 in E2.
  assert (Ew2 : db w2 = with_members (db w1) (role_update (m_id targetRow) org admin ms)).
  { unfold w2, after, second. rewrite E2. reflexivity. }
  destruct (ready_rows_differ _ _ _ _ Hready) as [Ho Ht].
  split; [unfold result, first; rewrite E1; reflexivity|].
  split; [unfold result, second; fold w1; rewrite E2; reflexivity|].
  split; [rewrite Hdb1; exact (owners_after_promote _ _ _ _ Hready)|].
  split; [rewrite Ew2; reflexivity|].
  assert (Edb2 : db w2 = with_members (db w) (role_update (m_id targetRow) org admin ms)).
  { rewrite Ew2, Hdb1. reflexivity. }
  split.
  { rewrite Edb2. unfold ms. rewrite membership_role_update, HO,
      (tr_owner_membership _ _ _ _ Hready). cbn [option_map]. rewrite Ho. reflexivity. }
  split.
  { rewrite Edb2. unfold ms. rewrite membership_role_update, HM,
      (tr_target_membership _ _ _ _ Hready). cbn [option_map].
    rewrite (proj2 (ready_target_In _ _ _ _ Hready)). reflexivity. }
  pose proof (owners_after_demote _ _ _ _ Hready) as D1.
  pose proof (owners_after_promote _ _ _ _ Hready) as D2.
  pose proof (owners_after_demote _ _ _ _ Hready2) as D3.
  pose proof (owners_after_promote _ _ _ _ Hready2) as D4.
  cbv zeta in D1, D2, D3, D4. cbn [set_role m_id] in D3, D4.
  rewrite Hms4 in D4. rewrite Hdb1 in D3.
  cbn [organization_members with_members] in D3.
  rewrite set_role_set_role in D4.
  rewrite <- (ready_owner_role _ _ _ _ Hready), set_role_same in D4.
  fold ms ms1 ms2 in D1, D2, D3.
  eexists. split.
  - unfold appended, w2, after, second. fold w1. rewrite E2. cbn [snd journal].
    rewrite Ew1. cbn [journal]. rewrite <- app_assoc. reflexivity.
  - cbn [map app state_after db organization_members with_members].
    rewrite D1, D2, D3, D4. reflexivity.
Qed.

Module RoundTrip.
Import Acme.

(** Alice (owner) transfers Acme to Carol (user); Carol transfers it back. *)
Definition start : World := world tables [] 0.
Definition between : World :=
  after (transferOwnership alice "acme" "m-carol") start.
Definition finish : World :=
  after (transferOwnership carol "acme" "m-alice") between.

End RoundTrip.

(** The round trip does not give Carol her role back: she was a user and is
    left an admin, so the role assignment is not the original one. *)
Lemma round_trip_changes_target_role :
  option_map m_role (membership Acme.tables "acme" "u-carol") = Some user
  /\ option_map m_role (membership (db RoundTrip.finish) "acme" "u-carol") = Some admin
  /\ organization_members (db RoundTrip.finish) <> organization_members Acme.tables.
Proof. vm_compute. repeat split. discriminate. Qed.

(* ------------------------------------------------------------------ *)
(** ** Looking invitations up *)

(** The constraints of the [invitations] table: [id] is its primary key and
    [token] is unique. *)
Definition unique_invitations (d : Database) : Prop :=
  NoDup (map i_id (invitations d)) /\ NoDup (map i_token (invitations d)).

Lemma filter_by_key A (key : A -> string) (q : A -> bool) (l : list A) (x : A) :
  NoDup (map key l) -> In x l -> q x = true ->
  filter (fun y => (key y =? key x) && q y) l = [x].
Proof.
  induction l as [|y l IH]; intros Hnd Hin Hq; [destruct Hin|].
  simpl in Hnd. inversion Hnd as [|? ? Hnotin Hnd']; subst.
  destruct Hin as [->|Hin].
  - simpl. rewrite String.eqb_refl, Hq. simpl. f_equal.
    apply filter_none. intros z Hz.
    destruct (String.eqb_spec (key z) (key x)) as [E|_]; [|reflexivity].
    exfalso. apply Hnotin. rewrite <- E. apply in_map. exact Hz.
  - simpl. destruct (String.eqb_spec (key y) (key x)) as [E|_].
    + exfalso. apply Hnotin. rewrite E. apply in_map. exact Hin.
    + simpl. apply IH; assumption.
Qed.

(** The pending invitation [.eq("id", ...).eq("invitee_email", ...)
    .eq("status", "pending").single()] finds. *)
Definition pending_by_id (d : Database) (invitationId email : string)
  : option OrganizationInvitation :=
  single (filter (fun i => (i_id i =? invitationId) && (i_invitee_email i =? email)
                           && status_eqb (i_status i) pending) (invitations d)).

(** The pending invitation [.eq("token", ...).eq("status", "pending").single()]
    finds. *)
Definition pending_by_token (d : Database) (token : string)
  : option OrganizationInvitation :=
  single (filter (fun i => (i_token i =? token) && status_eqb (i_status i) pending)
                 (invitations d)).

Lemma pending_by_id_found d inv :
  unique_invitations d -> In inv (invitations d) -> i_status inv = pending ->
  pending_by_id d (i_id inv) (i_invitee_email inv) = Some inv.
Proof.
  intros [Hid _] Hin Hst. unfold pending_by_id.
  rewrite (filter_ext _ (fun y => (i_id y =? i_id inv)
                                  && ((i_invitee_email y =? i_invitee_email inv)
                                      && status_eqb (i_status y) pending))).
  - rewrite (filter_by_key _ i_id _ _ inv Hid Hin); [reflexivity|].
    rewrite String.eqb_refl, Hst. reflexivity.
  - intros y. rewrite andb_assoc. reflexivity.
Qed.

Lemma pending_by_token_found d inv :
  unique_invitations d -> In inv (invitations d) -> i_status inv = pending ->
  pending_by_token d (i_token inv) = Some inv.
Proof.
  intros [_ Htok] Hin Hst. unfold pending_by_token.
  rewrite (filter_by_key _ i_token _ _ inv Htok Hin); [reflexivity|].
  rewrite Hst. reflexivity.
Qed.

(** The sweep: every pending invitation of [(org, email)] becomes accepted. *)
Definition sweep (org email : string) : Mutation :=
  UpdateInvitationStatus (PendingFor org email) accepted.

Definition swept (org email : string) (invs : list OrganizationInvitation)
  : list OrganizationInvitation :=
  map (fun i => if inv_matches (PendingFor org email) i then set_status accepted i else i)
      invs.

Lemma acceptInvitation_member_eq actor email inv row w :
  auth_email actor = Some email -> email <> "" ->
  pending_by_id (db w) (i_id inv) email = Some inv ->
  (i_expires_at inv <? now w)%Z = false ->
  membership (db w) (i_organization_id inv) (auth_id actor) = Some row ->
  answered 2 w = true ->
  acceptInvitation actor (i_id inv) w =
  (mkAccept (Some "You are already a member of this organization")
            (Some (i_organization_id inv)),
   committed (sweep (i_organization_id inv) email) (ticks 2 w)).
Proof.
  intros He Hne Hinv Hexp Hmem Hok. cbn [answered] in Hok.
  apply andb_true_iff in Hok. destruct Hok as [H1 H2]. rewrite andb_true_r in H2.
  unfold acceptInvitation. rewrite He.
  destruct email as [|c email']; [contradiction|]. cbn [truthy].
  unfold bind. rewrite select_single_eq, H1.
  fold (pending_by_id (db w) (i_id inv) (String c email')). rewrite Hinv.
  cbn [get_now]. rewrite now_tick, Hexp.
  rewrite select_single_eq, db_tick, H2.
  fold (membership (db w) (i_organization_id inv) (auth_id actor)). rewrite Hmem.
  rewrite commit_eq. reflexivity.
Qed.

Lemma acceptInvitationByToken_member_eq actor email inv row w :
  auth_email actor = Some email -> email <> "" ->
  pending_by_token (db w) (i_token inv) = Some inv ->
  toLowerCase (i_invitee_email inv) = toLowerCase email ->
  (i_expires_at inv <? now w)%Z = false ->
  membership (db w) (i_organization_id inv) (auth_id actor) = Some row ->
  answered 2 w = true ->
  acceptInvitationByToken actor (i_token inv) w =
  (mkAccept None (Some (i_organization_id inv)),
   committed (sweep (i_organization_id inv) email) (ticks 2 w)).
Proof.
  intros He Hne Hinv Hlow Hexp Hmem Hok. cbn [answered] in Hok.
  apply andb_true_iff in Hok. destruct Hok as [H1 H2]. rewrite andb_true_r in H2.
  unfold acceptInvitationByToken. rewrite He.
  destruct email as [|c email']; [contradiction|]. cbn [truthy].
  unfold bind. rewrite select_single_eq, H1.
  fold (pending_by_token (db w) (i_token inv)). rewrite Hinv.
  rewrite Hlow, String.eqb_refl. cbn [negb get_now]. rewrite now_tick, Hexp.
  rewrite select_single_eq, db_tick, H2.
  fold (membership (db w) (i_organization_id inv) (auth_id actor)). rewrite Hmem.
  rewrite commit_eq. reflexivity.
Qed.

Lemma swept_no_pending org email invs i :
  In i (swept org email invs) ->
  i_organization_id i = org -> i_invitee_email i = email -> i_status i <> pending.
Proof.
  unfold swept. intros Hin Ho He. apply in_map_iff in Hin.
  destruct Hin as (x & <- & _).
  destruct (inv_matches (PendingFor org email) x) eqn:M; [discriminate|].
  intros Hp. cbn [inv_matches] in M. rewrite Ho, He, Hp, !String.eqb_refl in M.
  discriminate.
Qed.

Lemma swept_marks org email invs inv :
  In inv invs -> i_organization_id inv = org -> i_invitee_email inv = email ->
  i_status inv = pending -> In (set_status accepted inv) (swept org email invs).
Proof.
  intros Hin Ho He Hp. unfold swept. apply in_map_iff. exists inv. split; [|exact Hin].
  cbn [inv_matches]. rewrite Ho, He, Hp, !String.eqb_refl. reflexivity.
Qed.

(** What the short circuit leaves behind: the member table as it was, and
    one write in the journal, the sweep; if the database applied it, the
    invitation and every other pending invitation of the pair are accepted,
    otherwise the invitations are as they were. *)
Definition short_circuited (w w' : World) (email : string)
  (inv : OrganizationInvitation) : Prop :=
  organization_members (db w') = organization_members (db w)
  /\ exists e,
       appended w w' [e]
       /\ request e = sweep (i_organization_id inv) email
       /\ if succeeded e
          then invitations (db w')
               = swept (i_organization_id inv) email (invitations (db w))
               /\ In (set_status accepted inv) (invitations (db w'))
               /\ (forall i, In i (invitations (db w')) ->
                     i_organization_id i = i_organization_id inv ->
                     i_invitee_email i = email -> i_status i <> pending)
          else invitations (db w') = invitations (db w).

Lemma sweep_short_circuited w n email inv :
  In inv (invitations (db w)) -> i_invitee_email inv = email ->
  i_status inv = pending ->
  short_circuited w (committed (sweep (i_organization_id inv) email) (ticks n w))
                  email inv.
Proof.
  intros Hin He Hp. unfold short_circuited.
  set (w0 := ticks n w).
  assert (Hdb : db w0 = db w) by apply db_ticks.
  assert (Hj : journal w0 = journal w) by apply journal_ticks.
  unfold committed, applied. destruct (next_ok w0).
  - cbn [perform sweep db organization_members with_invitations journal]. rewrite Hdb, Hj.
    split; [reflexivity|]. eexists. split; [reflexivity|].
    cbn [request succeeded invitations with_invitations].
    split; [reflexivity|]. split; [reflexivity|]. split.
    + apply swept_marks; auto.
    + intros i. apply swept_no_pending.
  - cbn [db journal]. rewrite Hdb, Hj.
    split; [reflexivity|]. eexists. split; [reflexivity|].
    cbn [request succeeded]. split; reflexivity.
Qed.

(** C5 (as it holds).  A pending, unexpired invitation addressed to the
    actor's email, the actor being a member of the organization already and
    the two lookups being answered.  Accepting it by id or by token creates
    no membership and issues one write, the sweep of the pending invitations
    of the pair, which (when the database applies it) marks this invitation
    and the others accepted.  Both results carry the organization's id; by
    token the error is [null], by id it is the message that the user is
    already a member. *)
Theorem accept_when_already_member :
  forall w actor email inv row,
    unique_invitations (db w) ->
    In inv (invitations (db w)) ->
    i_status inv = pending ->
    i_invitee_email inv = email ->
    auth_email actor = Some email ->
    email <> "" ->
    (i_expires_at inv <? now w)%Z = false ->
    membership (db w) (i_organization_id inv) (auth_id actor) = Some row ->
    answered 2 w = true ->
    let byId := acceptInvitation actor (i_id inv) in
    let byToken := acceptInvitationByToken actor (i_token inv) in
    result byId w
    = mkAccept (Some "You are already a member of this organization")
               (Some (i_organization_id inv))
    /\ result byToken w = mkAccept None (Some (i_organization_id inv))
    /\ short_circuited w (after byId w) email inv
    /\ short_circuited w (after byToken w) email inv.
Proof.
  intros w actor email inv row Huniq Hin Hp He Hauth Hne Hexp Hmem Hok byId byToken.
  pose proof (pending_by_id_found _ _ Huniq Hin Hp) as Hid. rewrite He in Hid.
  pose proof (pending_by_token_found _ _ Huniq Hin Hp) as Htok.
  pose proof (acceptInvitation_member_eq _ _ _ _ _ Hauth Hne Hid Hexp Hmem Hok) as E1.
  assert (Hlow : toLowerCase (i_invitee_email inv) = toLowerCase email)
    by (rewrite He; reflexivity).
  pose proof (acceptInvitationByToken_member_eq _ _ _ _ _ Hauth Hne Htok Hlow Hexp
                Hmem Hok) as E2.
  unfold result, after, byId, byToken. rewrite E1, E2. cbn [fst snd].
  repeat split; try apply sweep_short_circuited; auto.
Qed.

Module AlreadyMember.
Import Acme.

(** Carol is a member of Acme, and an invitation to Acme is pending for her. *)
Definition invitation : OrganizationInvitation :=
  mkInvitation "i-1" "acme" "u-alice" "carol@acme.test" viewer pending "t-1" 1000 0.
Definition duplicate : OrganizationInvitation :=
  mkInvitation "i-2" "acme" "u-bob" "carol@acme.test" user pending "t-2" 2000 10.

Definition start : World :=
  world (mkDatabase members [invitation; duplicate] profiles) [] 500.

End AlreadyMember.

(** Accepting by id an invitation to an organization one already belongs to
    does not return a success: the result carries an error. *)
Lemma acceptInvitation_member_is_error :
  error (result (acceptInvitation Acme.carol "i-1") AlreadyMember.start)
  = Some "You are already a member of this organization"
  /\ error (result (acceptInvitation Acme.carol "i-1") AlreadyMember.start) <> None.
Proof. vm_compute. split; [reflexivity | discriminate]. Qed.

(* ------------------------------------------------------------------ *)
(** ** Accepting by token, and accepting again *)

Lemma existsb_false A (p : A -> bool) (l : list A) :
  (forall x, In x l -> p x = false) -> existsb p l = false.
Proof.
  induction l as [|x l IH]; intros H; simpl; [reflexivity|].
  rewrite (H x (or_introl eq_refl)). apply IH. intros y Hy. apply H. right. exact Hy.
Qed.

(** The invitations once the one with token [t] was marked accepted. *)
Definition marked_by_token (t : string) (invs : list OrganizationInvitation)
  : list OrganizationInvitation :=
  map (fun i => if inv_matches (ByToken t) i then set_status accepted i else i) invs.

(** A first acceptance by token: the invitation is pending and unexpired,
    its address is the actor's up to case, the actor has no row in the
    organization, the id drawn for the new row is unused. *)
Record joinable (w : World) (actor : AuthUser) (email : string)
  (inv : OrganizationInvitation) : Prop := {
  jn_unique : unique_invitations (db w);
  jn_listed : In inv (invitations (db w));
  jn_pending : i_status inv = pending;
  jn_email : auth_email actor = Some email;
  jn_nonempty : email <> "";
  jn_address : toLowerCase (i_invitee_email inv) = toLowerCase email;
  jn_unexpired : (i_expires_at inv <? now w)%Z = false;
  jn_role : i_role inv <> owner;
  jn_outsider : forall m, In m (organization_members (db w)) ->
                  member_of (i_organization_id inv) (auth_id actor) m = false;
  jn_fresh : forall m, In m (organization_members (db w)) ->
               m_id m <> uuid w (uuid_next w)
}.

Definition joined_row (w : World) (actor : AuthUser) (inv : OrganizationInvitation)
  : OrganizationMember :=
  mkMember (uuid w (uuid_next w)) (i_organization_id inv) (auth_id actor) (i_role inv).

Definition joined_db (w : World) (actor : AuthUser) (email : string)
  (inv : OrganizationInvitation) : Database :=
  mkDatabase (organization_members (db w) ++ [joined_row w actor inv])
             (swept (i_organization_id inv) email
                    (marked_by_token (i_token inv) (invitations (db w))))
             (users (db w)).

Lemma acceptInvitationByToken_join_eq w actor email inv :
  joinable w actor email inv ->
  answered 5 w = true ->
  result (acceptInvitationByToken actor (i_token inv)) w
  = mkAccept None (Some (i_organization_id inv))
  /\ db (after (acceptInvitationByToken actor (i_token inv)) w)
     = joined_db w actor email inv.
Proof.
  intros [Huniq Hin Hp He Hne Hlow Hexp Hrole Hout Hfresh] Hok.
  change 5%nat with (2 + 3)%nat in Hok. rewrite answered_split in Hok.
  apply andb_true_iff in Hok. destruct Hok as [Hreads Hwrites].
  cbn [answered] in Hreads.
  apply andb_true_iff in Hreads. destruct Hreads as [H1 H2]. rewrite andb_true_r in H2.
  cbn [answered ticks] in Hwrites.
  apply andb_true_iff in Hwrites. destruct Hwrites as [H3 Hwrites].
  apply andb_true_iff in Hwrites. destruct Hwrites as [H4 Hwrites].
  apply andb_true_iff in Hwrites. destruct Hwrites as [H5 _].
  pose proof (pending_by_token_found _ _ Huniq Hin Hp) as Htok.
  unfold result, after, acceptInvitationByToken. rewrite He.
  destruct email as [|c email']; [contradiction|]. cbn [truthy].
  unfold bind. rewrite select_single_eq, H1.
  fold (pending_by_token (db w) (i_token inv)). rewrite Htok.
  rewrite Hlow, String.eqb_refl. cbn [negb get_now]. rewrite now_tick, Hexp.
  rewrite select_single_eq, db_tick, H2.
  rewrite (filter_none _ _ _ Hout). cbn [single].
  set (w2 := tick (tick w)) in *.
  assert (Hdb2 : db w2 = db w) by (unfold w2; rewrite !db_tick; reflexivity).
  assert (Hu2 : uuid w2 (uuid_next w2) = uuid w (uuid_next w)).
  { unfold w2. destruct (uuid_tick (tick w)) as [-> ->].
    destruct (uuid_tick w) as [-> ->]. reflexivity. }
  cbn [fresh_uuid]. rewrite Hu2. fold (joined_row w actor inv).
  rewrite commit_eq.
  set (w3 := mkWorld (db w2) (outcomes w2) (journal w2) (now w2) (uuid w2)
                     (S (uuid_next w2)) (env w2)).
  assert (N3 : next_ok w3 = next_ok w2) by (rewrite !next_ok_hd; reflexivity).
  assert (A3 : applied (InsertMember (joined_row w actor inv)) w3
               = Some (with_members (db w)
                         (organization_members (db w) ++ [joined_row w actor inv]))).
  { unfold applied. rewrite N3, H3. cbn [perform db w3]. rewrite Hdb2.
    unfold member_insert_ok. cbn [joined_row m_id m_organization_id m_user_id m_role].
    rewrite (existsb_false _ _ _ Hout).
    rewrite existsb_false.
    - destruct (i_role inv); try reflexivity. contradiction.
    - intros m Hm. apply String.eqb_neq. apply Hfresh. exact Hm. }
  rewrite A3. cbn [negb].
  unfold update_invitations_returning, bind. cbn [get_db]. rewrite commit_eq.
  set (w4 := committed (InsertMember (joined_row w actor inv)) w3).
  assert (Hdb4 : db w4 = with_members (db w)
                   (organization_members (db w) ++ [joined_row w actor inv])).
  { unfold w4, committed. rewrite A3. reflexivity. }
  assert (N4 : next_ok w4 = true).
  { rewrite next_ok_hd. unfold w4. rewrite outcomes_committed. cbn [w3 outcomes].
    rewrite next_ok_hd, outcomes_tick in H4. exact H4. }
  assert (A4 : applied (UpdateInvitationStatus (ByToken (i_token inv)) accepted) w4
               = Some (with_invitations (db w4)
                         (marked_by_token (i_token inv) (invitations (db w))))).
  { unfold applied. rewrite N4. cbn [perform]. rewrite Hdb4. reflexivity. }
  rewrite A4. cbn [ret].
  assert (Hrows : exists r rs,
             map (set_status accepted)
                 (filter (inv_matches (ByToken (i_token inv))) (invitations (db w4)))
             = r :: rs).
  { rewrite Hdb4. cbn [invitations with_members].
    assert (Hx : In inv (filter (inv_matches (ByToken (i_token inv)))
                                (invitations (db w)))).
    { apply filter_In. split; [exact Hin|]. cbn [inv_matches]. apply String.eqb_refl. }
    destruct (filter _ _) as [|r rs]; [destruct Hx|].
    eexists. eexists. reflexivity. }
  destruct Hrows as (r & rs & ->).
  rewrite commit_eq. cbn [fst snd]. split; [reflexivity|].
  set (w5 := committed (UpdateInvitationStatus (ByToken (i_token inv)) accepted) w4).
  assert (Hdb5 : db w5 = with_invitations (db w4)
                   (marked_by_token (i_token inv) (invitations (db w)))).
  { unfold w5, committed. rewrite A4. reflexivity. }
  assert (N5 : next_ok w5 = true).
  { rewrite next_ok_hd. unfold w5, w4. rewrite !outcomes_committed. cbn [w3 outcomes].
    rewrite !next_ok_hd, !outcomes_tick in H5. exact H5. }
  unfold committed, applied. rewrite N5. cbn [perform db].
  rewrite Hdb5, Hdb4. reflexivity.
Qed.

Lemma joined_db_no_pending_token w actor email inv :
  filter (fun i => (i_token i =? i_token inv) && status_eqb (i_status i) pending)
         (invitations (joined_db w actor email inv)) = [].
Proof.
  apply filter_none. intros x Hx. cbn [joined_db invitations] in Hx.
  unfold swept, marked_by_token in Hx. rewrite map_map in Hx.
  apply in_map_iff in Hx. destruct Hx as (i & <- & _).
  destruct (inv_matches (ByToken (i_token inv)) i) eqn:T.
  - destruct (inv_matches _ (set_status accepted i));
      cbn [set_status i_status status_eqb]; apply andb_false_r.
  - cbn [inv_matches] in T.
    destruct (inv_matches _ i); cbn [set_status i_token]; rewrite T; reflexivity.
Qed.

Lemma joined_db_marks w actor email inv :
  In inv (invitations (db w)) ->
  In (set_status accepted inv) (invitations (joined_db w actor email inv)).
Proof.
  intros Hin. cbn [joined_db invitations]. unfold swept, marked_by_token.
  rewrite map_map. apply in_map_iff. exists inv. split; [|exact Hin].
  cbn [inv_matches]. rewrite String.eqb_refl.
  cbn [set_status i_organization_id i_invitee_email i_status status_eqb].
  rewrite !andb_false_r. reflexivity.
Qed.

Lemma acceptInvitationByToken_used actor email token w :
  auth_email actor = Some email -> email <> "" ->
  pending_by_token (db w) token = None ->
  acceptInvitationByToken actor token w
  = (failure "Invitation not found or has already been used", tick w).
Proof.
  intros He Hne Hnone. unfold acceptInvitationByToken. rewrite He.
  destruct email as [|c email']; [contradiction|]. cbn [truthy].
  unfold bind. rewrite select_single_eq.
  fold (pending_by_token (db w) token). rewrite Hnone.
  destruct (next_ok w); reflexivity.
Qed.

(** C6 (as it holds).  A first acceptance by token, every request answered,
    succeeds with the organization's id, gives the user exactly one row in
    the organization and leaves the invitation accepted.  Accepting again
    with the same token, at any later time and whatever the database then
    answers, does not succeed: the invitation is no longer pending, the
    action reports it as not found or already used, and it writes nothing,
    so the single membership and the swept invitations stay as they are. *)
Theorem acceptInvitationByToken_twice :
  forall w actor email inv,
    joinable w actor email inv ->
    answered 5 w = true ->
    let accept := acceptInvitationByToken actor (i_token inv) in
    let w1 := after accept w in
    result accept w = mkAccept None (Some (i_organization_id inv))
    /\ filter (member_of (i_organization_id inv) (auth_id actor))
              (organization_members (db w1))
       = [joined_row w actor inv]
    /\ In (set_status accepted inv) (invitations (db w1))
    /\ forall w', db w' = db w1 ->
         result accept w' = failure "Invitation not found or has already been used"
         /\ untouched w' (after accept w').
Proof.
  intros w actor email inv Hjoin Hok accept w1.
  destruct (acceptInvitationByToken_join_eq _ _ _ _ Hjoin Hok) as [Hres Hdb].
  fold accept in Hres, Hdb. fold w1 in Hdb.
  split; [exact Hres|]. rewrite Hdb. split.
  - cbn [joined_db organization_members]. rewrite filter_app.
    rewrite (filter_none _ _ _ (jn_outsider _ _ _ _ Hjoin)).
    cbn [filter app]. unfold member_of, joined_row at 1.
    cbn [m_organization_id m_user_id]. rewrite !String.eqb_refl. reflexivity.
  - split; [apply joined_db_marks; exact (jn_listed _ _ _ _ Hjoin)|].
    intros w' Hw'.
    assert (Hnone : pending_by_token (db w') (i_token inv) = None).
    { unfold pending_by_token. rewrite Hw', joined_db_no_pending_token. reflexivity. }
    unfold result, after, accept.
    rewrite (acceptInvitationByToken_used _ _ _ _ (jn_email _ _ _ _ Hjoin)
               (jn_nonempty _ _ _ _ Hjoin) Hnone).
    cbn [fst snd]. split; [reflexivity|]. apply untouched_tick, untouched_refl.
Qed.

Module Twice.
Import Acme.

(** Dave, not yet a member, holds a pending invitation to Acme. *)
Definition invitation : OrganizationInvitation :=
  mkInvitation "i-1" "acme" "u-alice" "dave@acme.test" viewer pending "t-1" 1000 0.

Definition start : World := world (mkDatabase members [invitation] profiles) [] 500.
Definition once : World := after (acceptInvitationByToken dave "t-1") start.

End Twice.

(** The second acceptance with the same token is an error, not a success. *)
Lemma acceptInvitationByToken_second_call_fails :
  error (result (acceptInvitationByToken Acme.dave "t-1") Twice.start) = None
  /\ error (result (acceptInvitationByToken Acme.dave "t-1") Twice.once)
     = Some "Invitation not found or has already been used".
Proof. vm_compute. split; reflexivity. Qed.

(* ------------------------------------------------------------------ *)
(** ** Listing the pending invitations *)

Lemma has_In ids x : has ids x = true <-> In x ids.
Proof.
  unfold has. rewrite existsb_exists. split.
  - intros (y & Hy & E). apply String.eqb_eq in E. subst. exact Hy.
  - intros H. exists x. split; [exact H | apply String.eqb_refl].
Qed.

Lemma insert_by_created_at_In i x l :
  In x (insert_by_created_at i l) <-> x = i \/ In x l.
Proof.
  induction l as [|j l IH]; simpl.
  - intuition.
  - destruct (i_created_at j <? i_created_at i)%Z; simpl; [intuition|].
    rewrite IH. intuition.
Qed.

Lemma newest_first_In x l : In x (newest_first l) <-> In x l.
Proof.
  induction l as [|i l IH]; simpl; [reflexivity|].
  rewrite insert_by_created_at_In, IH. intuition.
Qed.

(** The invitations the first query of the listing returns. *)
Definition pending_pool (d : Database) (email : string) (t : Z)
  : list OrganizationInvitation :=
  filter (fun i => (i_invitee_email i =? email) && status_eqb (i_status i) pending
                   && (t <? i_expires_at i)%Z) (invitations d).

(** The organizations struck from the listing: those the user belongs to,
    and those for which an accepted invitation to the user's address exists. *)
Definition member_orgs (d : Database) (userId : string) (orgs : list string)
  : list string :=
  map m_organization_id
      (filter (fun m => (m_user_id m =? userId) && has orgs (m_organization_id m))
              (organization_members d)).

Definition accepted_orgs (d : Database) (email : string) (orgs : list string)
  : list string :=
  map i_organization_id
      (filter (fun i => (i_invitee_email i =? email) && status_eqb (i_status i) accepted
                        && has orgs (i_organization_id i))
              (invitations d)).

Lemma getPendingInvitations_eq actor email w :
  auth_email actor = Some email -> email <> "" ->
  answered 3 w = true ->
  result (getPendingInvitations (Some actor)) w =
  let data := newest_first (pending_pool (db w) email (now w)) in
  let orgs := map i_organization_id data in
  (filter (fun inv => negb (has (member_orgs (db w) (auth_id actor) orgs)
                                (i_organization_id inv))
                      && negb (has (accepted_orgs (db w) email orgs)
                                   (i_organization_id inv))) data,
   None).
Proof.
  intros He Hne Hok. cbn [answered] in Hok.
  apply andb_true_iff in Hok. destruct Hok as [H1 Hok].
  apply andb_true_iff in Hok. destruct Hok as [H2 Hok].
  apply andb_true_iff in Hok. destruct Hok as [H3 _].
  unfold result, getPendingInvitations. rewrite He.
  destruct email as [|c email']; [contradiction|]. cbn [truthy].
  unfold bind. cbn [get_now]. rewrite select_eq, H1.
  fold (pending_pool (db w) (String c email') (now w)).
  destruct (pending_pool (db w) (String c email') (now w)) as [|r rs] eqn:Epool;
    [reflexivity|].
  rewrite select_eq, H2, select_eq, H3, !db_tick. reflexivity.
Qed.

(** Which invitations the listing shows. *)
Lemma getPendingInvitations_lists actor email w i :
  auth_email actor = Some email -> email <> "" ->
  answered 3 w = true ->
  In i (fst (result (getPendingInvitations (Some actor)) w)) <->
  In i (invitations (db w))
  /\ i_invitee_email i = email
  /\ i_status i = pending
  /\ (now w < i_expires_at i)%Z
  /\ (forall m, In m (organization_members (db w)) -> m_user_id m = auth_id actor ->
        m_organization_id m <> i_organization_id i)
  /\ (forall j, In j (invitations (db w)) -> i_invitee_email j = email ->
        i_status j = accepted -> i_organization_id j <> i_organization_id i).
Proof.
  intros He Hne Hok. rewrite (getPendingInvitations_eq _ _ _ He Hne Hok).
  cbv zeta. cbn [fst]. rewrite filter_In, newest_first_In.
  unfold pending_pool. rewrite filter_In, !andb_true_iff, !negb_true_iff.
  rewrite String.eqb_eq, status_eqb_eq, Z.ltb_lt.
  set (orgs := map i_organization_id _).
  split.
  - intros [(Hin & (Hem & Hst) & Hexp) [Hm Ha]].
    assert (Horg : In (i_organization_id i) orgs).
    { unfold orgs. apply in_map. apply newest_first_In. unfold pending_pool.
      apply filter_In. split; [exact Hin|].
      rewrite !andb_true_iff, String.eqb_eq, status_eqb_eq, Z.ltb_lt. auto. }
    repeat split; auto.
    + intros m Hmin Hu E.
      assert (X : has (member_orgs (db w) (auth_id actor) orgs) (i_organization_id i)
                  = true).
      { apply has_In. unfold member_orgs. rewrite <- E. apply in_map.
        apply filter_In. split; [exact Hmin|].
        rewrite andb_true_iff, String.eqb_eq, has_In, E. auto. }
      rewrite X in Hm. discriminate.
    + intros j Hjin Hje Hjs E.
      assert (X : has (accepted_orgs (db w) email orgs) (i_organization_id i) = true).
      { apply has_In. unfold accepted_orgs. rewrite <- E. apply in_map.
        apply filter_In. split; [exact Hjin|].
        rewrite !andb_true_iff, String.eqb_eq, status_eqb_eq, has_In, E. auto. }
      rewrite X in Ha. discriminate.
  - intros (Hin & Hem & Hst & Hexp & Hm & Ha). repeat split; auto.
    + destruct (has (member_orgs _ _ _) _) eqn:X; [|reflexivity].
      apply has_In in X. unfold member_orgs in X. apply in_map_iff in X.
      destruct X as (m & E & Hmf). apply filter_In in Hmf.
      destruct Hmf as [Hmin Hp]. apply andb_true_iff in Hp. destruct Hp as [Hu _].
      apply String.eqb_eq in Hu. exfalso. exact (Hm m Hmin Hu E).
    + destruct (has (accepted_orgs _ _ _) _) eqn:X; [|reflexivity].
      apply has_In in X. unfold accepted_orgs in X. apply in_map_iff in X.
      destruct X as (j & E & Hjf). apply filter_In in Hjf.
      destruct Hjf as [Hjin Hp]. rewrite !andb_true_iff in Hp.
      destruct Hp as [[Hje Hjs] _].
      apply String.eqb_eq in Hje. apply status_eqb_eq in Hjs.
      exfalso. exact (Ha j Hjin Hje Hjs E).
Qed.

Lemma getPendingInvitations_post actor w :
  wp (getPendingInvitations actor)
     (fun r w' =>
        untouched w w'
        /\ forall i, In i (fst r) ->
             exists a email,
               actor = Some a
               /\ truthy (auth_email a) = Some email
               /\ In i (invitations (db w))
               /\ i_invitee_email i = email
               /\ i_status i = pending
               /\ (now w < i_expires_at i)%Z)
     w.
Proof.
  unfold getPendingInvitations.
  repeat wp_step; cbn [fst]; (split; [auto 6 with actions|]);
    try (intros i []).
  intros i Hi. apply filter_In in Hi. destruct Hi as [Hi _].
  apply (proj1 (newest_first_In _ _)) in Hi.
  match goal with
  | H : (if ?b then Some _ else None) = Some _ |- _ =>
      destruct b; [|discriminate H]; inversion H as [E]; clear H
  end.
  rewrite <- E in Hi. apply filter_In in Hi. destruct Hi as [Hin Hp].
  rewrite !andb_true_iff, String.eqb_eq, status_eqb_eq, Z.ltb_lt in Hp.
  destruct Hp as [[Hem Hst] Hexp].
  exists a, s. split; [reflexivity|]. split; [assumption|]. split; [exact Hin|].
  split; [exact Hem|]. split; [exact Hst | exact Hexp].
Qed.

(** C7 (as it holds).  Whatever the database answers, the listing shows
    invitations of the table that are addressed to the user's address,
    pending and not yet expired, and nothing else, so no accepted invitation
    ever appears in it; and, its three queries answered, it strikes every
    organization for which an accepted invitation to that address exists.  A
    user who once accepted an invitation to an organization therefore sees no
    invitation of that organization, stale or new: a later re-invitation
    stays out of the listing as well. *)
Theorem getPendingInvitations_after_acceptance :
  forall w actor email old,
    auth_email actor = Some email ->
    email <> "" ->
    In old (invitations (db w)) ->
    i_invitee_email old = email ->
    i_status old = accepted ->
    let listing := fst (result (getPendingInvitations (Some actor)) w) in
    (forall i, In i listing ->
       In i (invitations (db w))
       /\ i_invitee_email i = email
       /\ i_status i = pending
       /\ (now w < i_expires_at i)%Z
       /\ i <> old)
    /\ (answered 3 w = true ->
        (forall i, In i listing -> i_organization_id i <> i_organization_id old)
        /\ (forall reinvitation,
              In reinvitation (invitations (db w)) ->
              i_organization_id reinvitation = i_organization_id old ->
              ~ In reinvitation listing)).
Proof.
  intros w actor email old He Hne Hin Hem Hst listing. split.
  - intros i Hi.
    destruct (getPendingInvitations_post (Some actor) w) as [_ Hown].
    destruct (Hown i Hi) as (a & e & Ea & Et & Hi_in & Hi_em & Hi_st & Hi_exp).
    inversion Ea; subst a. rewrite He in Et.
    destruct email as [|c email']; [contradiction|]. cbn [truthy] in Et.
    injection Et as Ee. rewrite <- Ee in Hi_em.
    split; [exact Hi_in|]. split; [exact Hi_em|]. split; [exact Hi_st|].
    split; [exact Hi_exp|].
    intros ->. rewrite Hst in Hi_st. discriminate Hi_st.
  - intros Hok.
    assert (Hother : forall i, In i listing ->
                       i_organization_id i <> i_organization_id old).
    { intros i Hi. apply (getPendingInvitations_lists _ _ _ _ He Hne Hok) in Hi.
      destruct Hi as (_ & _ & _ & _ & _ & Ha).
      intros E. exact (Ha old Hin Hem Hst (eq_sym E)). }
    split; [exact Hother|].
    intros reinvitation _ Horg Hlisted. exact (Hother reinvitation Hlisted Horg).
Qed.

Module Reinvited.
Import Acme.

Definition invite_dave : Action InviteResult :=
  inviteMember has_at_sign alice "acme"
    (mkForm (Some "dave@acme.test") (Some "viewer")).

(** Alice invites Dave; Dave accepts by the emailed token; Alice removes
    him; Alice invites him again. *)
Definition invited : World := after invite_dave (world tables [] 0).
Definition accepted_once : World := after (acceptInvitationByToken dave "id-1") invited.
Definition removed : World := after (removeMember alice "acme" "id-2") accepted_once.
Definition reinvited : World := after invite_dave removed.

Definition first_invitation : OrganizationInvitation :=
  mkInvitation "id-0" "acme" "u-alice" "dave@acme.test" viewer accepted "id-1"
               seven_days 0.
Definition second_invitation : OrganizationInvitation :=
  mkInvitation "id-3" "acme" "u-alice" "dave@acme.test" viewer pending "id-4"
               seven_days 0.

End Reinvited.

(** After accepting, being removed and being invited again, Dave holds a new
    pending, unexpired invitation and no membership; yet his listing is
    empty: the new invitation is not included. *)
Lemma getPendingInvitations_omits_reinvitation :
  invitations (db Reinvited.reinvited)
  = [Reinvited.first_invitation; Reinvited.second_invitation]
  /\ membership (db Reinvited.reinvited) "acme" "u-dave" = None
  /\ result (getPendingInvitations (Some Acme.dave)) Reinvited.reinvited = ([], None)
  /\ ~ In Reinvited.second_invitation
          (fst (result (getPendingInvitations (Some Acme.dave)) Reinvited.reinvited)).
Proof. vm_compute. repeat split. intros []. Qed.

(* ------------------------------------------------------------------ *)
(** ** Accepted is terminal *)

(** Every invitation accepted in [d] is still there, as it was, in [d']. *)
Definition stays_accepted (d d' : Database) : Prop :=
  forall i, In i (invitations d) -> i_status i = accepted -> In i (invitations d').

(** The invariant carried along a run started in [w0]. *)
Definition keeps (w0 w : World) : Prop :=
  unique_invitations (db w) /\ stays_accepted (db w0) (db w).

(** A write that, on tables with unique keys, keeps the keys unique and the
    accepted invitations accepted. *)
Definition safe_write (r : Mutation) (d : Database) : Prop :=
  unique_invitations d ->
  forall d', perform r d = Some d' -> unique_invitations d' /\ stays_accepted d d'.

Lemma set_status_same i : set_status (i_status i) i = i.
Proof. destruct i; reflexivity. Qed.

Lemma status_update_keys f s invs :
  map i_id (map (fun i => if inv_matches f i then set_status s i else i) invs)
  = map i_id invs
  /\ map i_token (map (fun i => if inv_matches f i then set_status s i else i) invs)
     = map i_token invs.
Proof.
  rewrite !map_map. split; apply map_ext; intros i;
    destruct (inv_matches f i); reflexivity.
Qed.

Lemma safe_member_write r d :
  match r with
  | UpdateMemberRole _ _ _ | InsertMember _ | DeleteMember _ _ => True
  | _ => False
  end -> safe_write r d.
Proof.
  intros Hr Hu d' Hp. destruct r; try contradiction; cbn [perform] in Hp.
  - destruct (_ || _); [|discriminate]. inversion Hp; subst.
    split; [exact Hu | intros i Hi _; exact Hi].
  - destruct (member_insert_ok _ _); [|discriminate]. inversion Hp; subst.
    split; [exact Hu | intros i Hi _; exact Hi].
  - inversion Hp; subst. split; [exact Hu | intros i Hi _; exact Hi].
Qed.

Lemma NoDup_snoc (l : list string) (x : string) :
  NoDup l -> existsb (fun y => y =? x) l = false -> NoDup (l ++ [x]).
Proof.
  intros Hl Hx. apply NoDup_app.
  - exact Hl.
  - constructor; [intros [] | constructor].
  - intros a Ha [E|[]]. subst a.
    assert (E : existsb (fun y => y =? x) l = true).
    { apply existsb_exists. exists x. split; [exact Ha | apply String.eqb_refl]. }
    rewrite E in Hx. discriminate.
Qed.

Lemma safe_insert_invitation row d : safe_write (InsertInvitation row) d.
Proof.
  intros [Hid Htok] d' Hp. cbn [perform] in Hp.
  destruct (invitation_insert_ok row (invitations d)) eqn:Ok; [|discriminate].
  inversion Hp; subst. clear Hp.
  unfold invitation_insert_ok in Ok. apply andb_true_iff in Ok.
  destruct Ok as [Ok1 Ok2]. apply negb_true_iff in Ok1, Ok2.
  split.
  - split; cbn [invitations with_invitations]; rewrite map_app; cbn [map];
      apply NoDup_snoc; auto.
    + rewrite <- Ok1. clear. induction (invitations d); simpl; congruence.
    + rewrite <- Ok2. clear. induction (invitations d); simpl; congruence.
  - intros i Hi _. cbn [invitations with_invitations]. apply in_or_app. left. exact Hi.
Qed.

Lemma safe_mark_accepted f d : safe_write (UpdateInvitationStatus f accepted) d.
Proof.
  intros [Hid Htok] d' Hp. cbn [perform] in Hp. inversion Hp; subst. clear Hp.
  destruct (status_update_keys f accepted (invitations d)) as [E1 E2].
  split.
  - split; cbn [invitations with_invitations]; [rewrite E1 | rewrite E2]; assumption.
  - intros i Hi Hs. cbn [invitations with_invitations]. apply in_map_iff.
    exists i. split; [|exact Hi].
    destruct (inv_matches f i); [|reflexivity].
    rewrite <- Hs. apply set_status_same.
Qed.

(** Marking expired the invitation just looked up as pending: by the
    uniqueness of the key no accepted invitation is touched. *)
Lemma safe_mark_expired (key : OrganizationInvitation -> string) f k p inv d :
  (forall i, inv_matches f i = (key i =? k)) ->
  (unique_invitations d -> NoDup (map key (invitations d))) ->
  single (filter p (invitations d)) = Some inv ->
  (forall i, p i = true -> key i = k /\ i_status i = pending) ->
  safe_write (UpdateInvitationStatus f expired) d.
Proof.
  intros Hf Hkey Hfound Hp Hu d' Hperf. cbn [perform] in Hperf.
  inversion Hperf; subst. clear Hperf.
  destruct (status_update_keys f expired (invitations d)) as [E1 E2].
  split.
  - destruct Hu as [Hid Htok].
    split; cbn [invitations with_invitations]; [rewrite E1 | rewrite E2]; assumption.
  - intros i Hi Hs. cbn [invitations with_invitations]. apply in_map_iff.
    exists i. split; [|exact Hi].
    rewrite Hf. destruct (String.eqb_spec (key i) k) as [E|_]; [|reflexivity].
    exfalso.
    apply single_In in Hfound.
    assert (Hin : In inv (filter p (invitations d))) by (rewrite Hfound; left; reflexivity).
    apply filter_In in Hin. destruct Hin as [Hin Hpi].
    destruct (Hp inv Hpi) as [Ek Est].
    assert (i = inv).
    { specialize (Hkey Hu). revert Hkey Hi Hin. rewrite <- Ek in E. clear -E.
      induction (invitations d) as [|x l IH]; intros Hnd Hi Hin; [destruct Hi|].
      simpl in Hnd. inversion Hnd as [|? ? Hnot Hnd']; subst.
      destruct Hi as [->|Hi], Hin as [->|Hin]; auto.
      - exfalso. apply Hnot. rewrite E. apply in_map. exact Hin.
      - exfalso. apply Hnot. rewrite <- E. apply in_map. exact Hi. }
    subst i. rewrite Est in Hs. discriminate.
Qed.

Lemma keeps_refl w : unique_invitations (db w) -> keeps w w.
Proof. intros H. split; [exact H | intros i Hi _; exact Hi]. Qed.

Lemma keeps_tick w0 w : keeps w0 w -> keeps w0 (tick w).
Proof. unfold keeps. rewrite db_tick. exact (fun H => H). Qed.

Lemma keeps_bump w0 w : keeps w0 w -> keeps w0 (bump w).
Proof. exact (fun H => H). Qed.

Lemma keeps_committed r w0 w :
  keeps w0 w -> safe_write r (db w) -> keeps w0 (committed r w).
Proof.
  intros [Hu Hs] Hsafe. unfold committed, applied.
  destruct (next_ok w); [destruct (perform r (db w)) as [d'|] eqn:E|];
    cbn [keeps db]; try (split; assumption).
  destruct (Hsafe Hu d' E) as [Hu' Hs']. split; [exact Hu'|].
  intros i Hi Ha. apply Hs'; [apply Hs|]; assumption.
Qed.

(** An action that keeps the invariant, whatever the database answers. *)
Definition preserves {A} (c : Action A) : Prop :=
  forall w0 w, keeps w0 w -> wp c (fun _ w' => keeps w0 w') w.

Lemma found_pending_by (p : OrganizationInvitation -> bool) invs inv (b : bool) :
  (if b then single (filter p invs) else None) = Some inv ->
  single (filter p invs) = Some inv.
Proof. destruct b; [exact (fun H => H) | discriminate]. Qed.

(** Discharge the invariant at the end of a symbolic run. *)
Ltac keep_on :=
  repeat first
    [ assumption
    | match goal with
      | |- keeps _ (tick _) => apply keeps_tick
      | |- keeps _ (bump _) => apply keeps_bump
      end
    | lazymatch goal with |- keeps _ (committed _ _) => apply keeps_committed end;
      [ | first
          [ apply safe_mark_accepted
          | apply safe_insert_invitation
          | apply safe_member_write; exact I
          | rewrite ?db_tick in *;
            match goal with
            | H : _ = Some _
              |- safe_write (UpdateInvitationStatus (ById ?k) expired) _ =>
                apply (@safe_mark_expired i_id (ById k) k _ _ _
                         (fun _ => eq_refl) (@proj1 _ _)
                         (found_pending_by _ _ _ _ H));
                intro; rewrite !andb_true_iff, String.eqb_eq, status_eqb_eq; tauto
            | H : _ = Some _
              |- safe_write (UpdateInvitationStatus (ByToken ?k) expired) _ =>
                apply (@safe_mark_expired i_token (ByToken k) k _ _ _
                         (fun _ => eq_refl) (@proj2 _ _)
                         (found_pending_by _ _ _ _ H));
                intro; rewrite !andb_true_iff, String.eqb_eq, status_eqb_eq; tauto
            end ] ] ].

Lemma declineInvitation_preserves actor invitationId :
  preserves (declineInvitation actor invitationId).
Proof.
  intros w0 w H. unfold declineInvitation. repeat wp_step; keep_on.
Qed.

Lemma cancelInvitation_preserves actor org invitationId :
  preserves (cancelInvitation actor org invitationId).
Proof.
  intros w0 w H. unfold cancelInvitation, isMember. repeat wp_step; keep_on.
Qed.

Lemma acceptInvitation_preserves actor invitationId :
  preserves (acceptInvitation actor invitationId).
Proof.
  intros w0 w H. unfold acceptInvitation, update_invitations_returning.
  repeat wp_step; keep_on.
Qed.

Lemma acceptInvitationByToken_preserves actor token :
  preserves (acceptInvitationByToken actor token).
Proof.
  intros w0 w H. unfold acceptInvitationByToken, update_invitations_returning.
  repeat wp_step; keep_on.
Qed.

Lemma getPendingInvitations_preserves actor : preserves (getPendingInvitations actor).
Proof.
  intros w0 w H. unfold getPendingInvitations. repeat wp_step; keep_on.
Qed.

Lemma removeMember_preserves actor org memberId :
  preserves (removeMember actor org memberId).
Proof.
  intros w0 w H. unfold removeMember, isMember, canRemoveMember, isOwner.
  repeat wp_step; keep_on.
Qed.

Lemma changeMemberRole_preserves actor org memberId formData :
  preserves (changeMemberRole actor org memberId formData).
Proof.
  intros w0 w H. unfold changeMemberRole, isMember, canChangeRole.
  repeat wp_step; keep_on.
Qed.

Lemma transferOwnership_preserves actor org newOwnerMemberId :
  preserves (transferOwnership actor org newOwnerMemberId).
Proof.
  intros w0 w H. unfold transferOwnership, isMember, canTransferOwnership, isOwner.
  repeat wp_step; keep_on.
Qed.

Lemma inviteMember_preserves isEmail actor org formData :
  preserves (inviteMember isEmail actor org formData).
Proof.
  intros w0 w H. unfold inviteMember, canInviteMembers, isAdminOrOwner, isMember.
  repeat wp_step; keep_on.
Qed.

(** A write that keeps the accepted invitations accepted on any tables. *)
Definition harmless (r : Mutation) (d : Database) : Prop :=
  forall d', perform r d = Some d' -> stays_accepted d d'.

Lemma harmless_member_write r d :
  match r with
  | UpdateMemberRole _ _ _ | InsertMember _ | DeleteMember _ _ => True
  | _ => False
  end -> harmless r d.
Proof.
  intros Hr d' Hp. destruct r; try contradiction; cbn [perform] in Hp.
  - destruct (_ || _); [|discriminate]. inversion Hp; subst. intros i Hi _; exact Hi.
  - destruct (member_insert_ok _ _); [|discriminate]. inversion Hp; subst.
    intros i Hi _; exact Hi.
  - inversion Hp; subst. intros i Hi _; exact Hi.
Qed.

Lemma harmless_mark_accepted f d : harmless (UpdateInvitationStatus f accepted) d.
Proof.
  intros d' Hp. cbn [perform] in Hp. inversion Hp; subst. clear Hp.
  intros i Hi Hs. cbn [invitations with_invitations]. apply in_map_iff.
  exists i. split; [|exact Hi].
  destruct (inv_matches f i); [|reflexivity].
  rewrite <- Hs. apply set_status_same.
Qed.

Lemma lasting_tick d0 w : stays_accepted d0 (db w) -> stays_accepted d0 (db (tick w)).
Proof. rewrite db_tick. exact (fun H => H). Qed.

Lemma lasting_committed r d0 w :
  stays_accepted d0 (db w) -> harmless r (db w) ->
  stays_accepted d0 (db (committed r w)).
Proof.
  intros Hs Hh. unfold committed, applied.
  destruct (next_ok w); [destruct (perform r (db w)) as [d'|] eqn:E|];
    cbn [db]; try assumption.
  intros i Hi Ha. apply (Hh d' E); [apply Hs|]; assumption.
Qed.

(** Removing a member leaves every accepted invitation accepted, on any
    tables and whatever the database answers: the one write it makes to
    [invitations] sets the status accepted. *)
Lemma removeMember_lasting actor org memberId w :
  wp (removeMember actor org memberId)
     (fun _ w' => stays_accepted (db w) (db w')) w.
Proof.
  assert (H : stays_accepted (db w) (db w)) by (intros i Hi _; exact Hi).
  revert H. generalize (db w) at 1 3. intros d0 H.
  unfold removeMember, isMember, canRemoveMember, isOwner.
  repeat wp_step;
    repeat first
      [ assumption
      | lazymatch goal with
        | |- stays_accepted _ (db (tick _)) => apply lasting_tick
        | |- stays_accepted _ (db (committed _ _)) =>
            apply lasting_committed;
            [ | first [ apply harmless_mark_accepted
                      | apply harmless_member_write; exact I ] ]
        end ].
Qed.

(** The calls a client can make, and time passing between them. *)
Inductive Call : Type :=
| Invite (actor : AuthUser) (organizationId : string) (formData : FormData)
| ChangeRole (actor : AuthUser) (organizationId memberId : string) (formData : FormData)
| Remove (actor : AuthUser) (organizationId memberId : string)
| Transfer (actor : AuthUser) (organizationId newOwnerMemberId : string)
| ListPending (actor : option AuthUser)
| Accept (actor : AuthUser) (invitationId : string)
| AcceptByToken (actor : AuthUser) (token : string)
| Decline (actor : AuthUser) (invitationId : string)
| Cancel (actor : AuthUser) (organizationId invitationId : string)
| Elapse (milliseconds : Z).

Definition elapse (dt : Z) : Action unit := fun w =>
  (tt, mkWorld (db w) (outcomes w) (journal w) (now w + Z.max 0 dt) (uuid w) (uuid_next w)
         (env w)).

Definition discard {A} (c : Action A) : Action unit := c ;;; ret tt.

Section Calls.

Variable isEmail : string -> bool.

Definition call (c : Call) : Action unit :=
  match c with
  | Invite actor org formData => discard (inviteMember isEmail actor org formData)
  | ChangeRole actor org memberId formData =>
      discard (changeMemberRole actor org memberId formData)
  | Remove actor org memberId => discard (removeMember actor org memberId)
  | Transfer actor org newOwner => discard (transferOwnership actor org newOwner)
  | ListPending actor => discard (getPendingInvitations actor)
  | Accept actor invitationId => discard (acceptInvitation actor invitationId)
  | AcceptByToken actor token => discard (acceptInvitationByToken actor token)
  | Decline actor invitationId => discard (declineInvitation actor invitationId)
  | Cancel actor org invitationId => discard (cancelInvitation actor org invitationId)
  | Elapse dt => elapse dt
  end.

Fixpoint calls (cs : list Call) : Action unit :=
  match cs with
  | [] => ret tt
  | c :: rest => call c ;;; calls rest
  end.

Lemma discard_preserves A (c : Action A) : preserves c -> preserves (discard c).
Proof.
  intros Hc w0 w H. unfold discard. apply wp_bind.
  exact (Hc w0 w H).
Qed.

Lemma call_preserves c : preserves (call c).
Proof.
  destruct c; cbn [call]; try apply discard_preserves.
  - apply inviteMember_preserves.
  - apply changeMemberRole_preserves.
  - apply removeMember_preserves.
  - apply transferOwnership_preserves.
  - apply getPendingInvitations_preserves.
  - apply acceptInvitation_preserves.
  - apply acceptInvitationByToken_preserves.
  - apply declineInvitation_preserves.
  - apply cancelInvitation_preserves.
  - intros w0 w H. exact H.
Qed.

Lemma calls_preserves cs : preserves (calls cs).
Proof.
  induction cs as [|c cs IH]; intros w0 w H; cbn [calls].
  - exact H.
  - apply wp_bind. unfold wp. apply IH. exact (call_preserves c w0 w H).
Qed.

(** Calls run one after another.  An accepted invitation stays in the
    table, accepted and otherwise unchanged, through the removal of any
    member, on any tables and whatever the database answers; and, on tables
    whose invitation ids and tokens are unique, through any sequence of calls
    each of which ends before the next begins. *)
Lemma accepted_survives_calls :
  forall w i,
    In i (invitations (db w)) ->
    i_status i = accepted ->
    (forall actor org memberId,
       In i (invitations (db (after (removeMember actor org memberId) w))))
    /\ (unique_invitations (db w) ->
        forall cs, In i (invitations (db (after (calls cs) w)))).
Proof.
  intros w i Hin Hacc. split.
  - intros actor org memberId.
    exact (removeMember_lasting actor org memberId w i Hin Hacc).
  - intros Hu cs.
    exact (proj2 (calls_preserves cs w w (keeps_refl w Hu)) i Hin Hacc).
Qed.

End Calls.

(* ------------------------------------------------------------------ *)
(** ** Calls that overlap

    An action is a sequence of requests, and the requests of two callers
    reach the database in some order.  [cancelInvitation] looks the
    invitation up as pending and then marks it expired by its id alone. *)

(** [cancelInvitation] up to its decision: the error it ends with, or
    [None] when the update is to follow. *)
Definition cancelInvitation_checks (actor : AuthUser) (organizationId invitationId : string)
  : Action (option string) :=
  isUserMember <- isMember (auth_id actor) organizationId ;;
  if negb isUserMember then ret (Some "You don't have access to this organization")
  else
    invitation <- select_single invitations
                    (fun i => (i_id i =? invitationId)
                              && (i_organization_id i =? organizationId)
                              && status_eqb (i_status i) pending) ;;
    match invitation with
    | None => ret (Some "Invitation not found")
    | Some invitation =>
      member <- select_single organization_members
                  (member_of organizationId (auth_id actor)) ;;
      let permitted :=
        match member with
        | None => false
        | Some member =>
            negb (negb (role_eqb (m_role member) owner)
                  && negb (role_eqb (m_role member) admin)
                  && negb (i_inviter_id invitation =? auth_id actor))
        end in
      if negb permitted
      then ret (Some "You don't have permission to cancel this invitation")
      else ret None
    end.

(** The update of [cancelInvitation], and its result. *)
Definition cancelInvitation_update (invitationId : string) : Action (option string) :=
  updated <- commit (UpdateInvitationStatus (ById invitationId) expired) ;;
  if negb updated then ret (Some "Failed to cancel invitation. Please try again.")
  else ret None.

(** [first], then all of [between], then [last] unless [first] ended the
    call. *)
Definition overlapped {A} (first : Action (option string)) (between : Action A)
  (last : Action (option string)) : Action (A * option string) :=
  refusal <- first ;;
  a <- between ;;
  r <- match refusal with
       | Some e => ret (Some e)
       | None => last
       end ;;
  ret (a, r).

(** The two steps, nothing running in between, are [cancelInvitation]. *)
Lemma cancelInvitation_in_two_steps actor org invitationId w :
  cancelInvitation actor org invitationId w
  = (let (r, w') := overlapped (cancelInvitation_checks actor org invitationId) (ret tt)
                      (cancelInvitation_update invitationId) w in
     (snd r, w')).
Proof.
  unfold cancelInvitation, overlapped, cancelInvitation_checks, cancelInvitation_update,
    bind, ret.
  destruct (isMember (auth_id actor) org w) as [[|] w1]; cbn [negb]; [|reflexivity].
  destruct (select_single invitations _ w1) as [[inv|] w2]; [|reflexivity].
  destruct (select_single organization_members _ w2) as [[m|] w3]; cbn [negb];
    [|reflexivity].
  destruct (negb (negb (role_eqb (m_role m) owner) && negb (role_eqb (m_role m) admin)
                  && negb (i_inviter_id inv =? auth_id actor))); cbn [negb];
    [|reflexivity].
  destruct (commit _ w3) as [[|] w4]; reflexivity.
Qed.

Module Race.
Import Acme.

(** Dave, not a member, holds a pending invitation to Acme; Bob is an admin
    of Acme. *)
Definition invitation : OrganizationInvitation :=
  mkInvitation "i-1" "acme" "u-alice" "dave@acme.test" viewer pending "t-1" 1000 0.

Definition start : World := world (mkDatabase members [invitation] profiles) [] 500.

(** Bob cancels the invitation while Dave accepts it: Bob's lookups, Dave's
    acceptance, Bob's update. *)
Definition run : Action (AcceptResult * option string) :=
  overlapped (cancelInvitation_checks bob "acme" "i-1")
             (acceptInvitationByToken dave "t-1")
             (cancelInvitation_update "i-1").

(** The same, up to Bob's update. *)
Definition before_update : World :=
  after (cancelInvitation_checks bob "acme" "i-1" ;;; acceptInvitationByToken dave "t-1")
        start.

End Race.

(** C8.  An accepted invitation does not always stay accepted.  Bob, an
    admin, cancels a pending invitation while Dave accepts it by token, and
    the cancellation's lookups reach the database before the acceptance, its
    update after: the acceptance succeeds, Dave is a member and the
    invitation is accepted; the cancellation's update, which selects by id
    alone, then marks that accepted invitation expired, and both calls
    report success. *)
Theorem cancel_overtakes_acceptance :
  In (set_status accepted Race.invitation) (invitations (db Race.before_update))
  /\ result Race.run Race.start = (mkAccept None (Some "acme"), None)
  /\ invitations (db (after Race.run Race.start)) = [set_status expired Race.invitation]
  /\ membership (db (after Race.run Race.start)) "acme" "u-dave"
     = Some (mkMember "id-0" "acme" "u-dave" viewer).
Proof.
  split; [left; reflexivity|]. split; [reflexivity|]. split; reflexivity.
Qed.

(* ------------------------------------------------------------------ *)
(** ** Creating an invitation *)

Lemma uuid_of_tick w : uuid (tick w) = uuid w.
Proof. exact (proj1 (uuid_tick w)). Qed.

Lemma uuid_next_tick w : uuid_next (tick w) = uuid_next w.
Proof. exact (proj2 (uuid_tick w)). Qed.

Lemma db_bump w : db (bump w) = db w.
Proof. reflexivity. Qed.

Lemma now_bump w : now (bump w) = now w.
Proof. reflexivity. Qed.

Lemma env_bump w : env (bump w) = env w.
Proof. reflexivity. Qed.

Lemma uuid_bump w : uuid (bump w) = uuid w.
Proof. reflexivity. Qed.

Lemma uuid_next_bump w : uuid_next (bump w) = S (uuid_next w).
Proof. reflexivity. Qed.

(** Read a field of the world through the requests sent since. *)
Ltac through_requests :=
  rewrite ?db_tick, ?now_tick, ?journal_tick, ?uuid_of_tick, ?uuid_next_tick,
    ?env_tick, ?db_bump, ?now_bump, ?uuid_bump, ?uuid_next_bump, ?env_bump in *.

(** Close a goal by a hypothesis equating distinct constructors. *)
Ltac contradictory :=
  match goal with H : _ = _ |- _ => discriminate H end.

(** The address as [inviteMember] keys it. *)
Definition normalized (email : string) : string := trim (toLowerCase email).

(** The row [inviteMember] inserts. *)
Definition invitation_row (w : World) (actor : AuthUser) (org email : string)
  (role : OrganizationRole) : OrganizationInvitation :=
  mkInvitation (uuid w (uuid_next w)) org (auth_id actor) (normalized email) role
               pending (uuid w (S (uuid_next w)))
               (seven_days_later (env w) (now w)) (database_clock (env w) (now w)).

Lemma db_committed_applied r w d' :
  applied r w = Some d' -> db (committed r w) = d'.
Proof. unfold committed. intros ->. reflexivity. Qed.

Lemma inviteMember_post isEmail actor org formData w :
  wp (inviteMember isEmail actor org formData)
     (fun r w' =>
        invite_error r = None ->
        exists email role,
          form_email formData = Some email
          /\ inviteRoleSchema (form_role formData) = Some role
          /\ isEmail (normalized email) = true
          /\ invitationId r = Some (uuid w (uuid_next w))
          /\ invitation_insert_ok (invitation_row w actor org email role)
                                  (invitations (db w)) = true
          /\ db w' = with_invitations (db w)
                       (invitations (db w) ++ [invitation_row w actor org email role]))
     w.
Proof.
  unfold inviteMember, canInviteMembers, isAdminOrOwner, isMember.
  repeat wp_step; cbn [invite_error]; try discriminate.
  all: intros _; exists s, o.
  all: repeat match goal with
       | H : negb _ = false |- _ => apply negb_false_iff in H
       end.
  all: repeat through_requests.
  all: fold (normalized s) in *; fold (invitation_row w actor org s o) in *.
  all: destruct (applied _ _) as [d'|] eqn:A; [|contradictory].
  all: rewrite (db_committed_applied _ _ _ A).
  all: unfold applied in A; repeat through_requests.
  all: match type of A with
       | (if ?b then _ else _) = _ => destruct b; [|discriminate A]
       end; cbn [perform] in A.
  all: destruct (invitation_insert_ok _ _) eqn:Ok; [|discriminate A].
  all: inversion A; subst d'; repeat split; auto.
Qed.

Lemma lower_char_idempotent c : lower_char (lower_char c) = lower_char c.
Proof. destruct c as [[] [] [] [] [] [] [] []]; reflexivity. Qed.

Lemma is_white_space_lower c : is_white_space (lower_char c) = is_white_space c.
Proof. destruct c as [[] [] [] [] [] [] [] []]; reflexivity. Qed.

Lemma toLowerCase_idempotent s : toLowerCase (toLowerCase s) = toLowerCase s.
Proof.
  induction s as [|c s IH]; simpl; [reflexivity|].
  rewrite lower_char_idempotent, IH. reflexivity.
Qed.

Lemma toLowerCase_trimStart s : toLowerCase (trimStart s) = trimStart (toLowerCase s).
Proof.
  induction s as [|c s IH]; simpl; [reflexivity|].
  rewrite is_white_space_lower. destruct (is_white_space c); [exact IH | reflexivity].
Qed.

Lemma toLowerCase_trimEnd s : toLowerCase (trimEnd s) = trimEnd (toLowerCase s).
Proof.
  induction s as [|c s IH]; simpl; [reflexivity|].
  rewrite <- IH, is_white_space_lower.
  destruct (trimEnd s) as [|c' t]; simpl; [destruct (is_white_space c)|]; reflexivity.
Qed.

(** The stored address is in lower case: lowering it again changes nothing. *)
Lemma normalized_lower email : toLowerCase (normalized email) = normalized email.
Proof.
  unfold normalized, trim.
  rewrite toLowerCase_trimEnd, toLowerCase_trimStart, toLowerCase_idempotent.
  reflexivity.
Qed.

(** Addresses that differ in case only are keyed alike. *)
Lemma normalized_case_insensitive a b :
  toLowerCase a = toLowerCase b -> normalized a = normalized b.
Proof. unfold normalized. intros ->. reflexivity. Qed.

Lemma acceptInvitation_not_found actor email invitationId w :
  auth_email actor = Some email -> email <> "" ->
  pending_by_id (db w) invitationId email = None ->
  acceptInvitation actor invitationId w
  = (failure "Invitation not found or has expired", tick w).
Proof.
  intros He Hne Hnone. unfold acceptInvitation. rewrite He.
  destruct email as [|c email']; [contradiction|]. cbn [truthy].
  unfold bind. rewrite select_single_eq.
  fold (pending_by_id (db w) invitationId (String c email')). rewrite Hnone.
  destruct (next_ok w); reflexivity.
Qed.

(** C10.  When [inviteMember] succeeds, the form held an address, and the
    one row added to [invitations] stores that address lowercased and then
    trimmed, which is also the string that was validated; the id returned is
    the row's.  Accepting by id then compares the signed-in user's address
    with the stored one as it is: a user whose address is spelled otherwise
    is told that the invitation was not found. *)
Theorem inviteMember_normalizes_email :
  forall isEmail actor org formData w,
    let invite := inviteMember isEmail actor org formData in
    invite_error (result invite w) = None ->
    exists email role,
      let row := invitation_row w actor org email role in
      form_email formData = Some email
      /\ isEmail (trim (toLowerCase email)) = true
      /\ i_invitee_email row = trim (toLowerCase email)
      /\ invitations (db (after invite w)) = invitations (db w) ++ [row]
      /\ invitationId (result invite w) = Some (i_id row)
      /\ forall reader address w',
           db w' = db (after invite w) ->
           auth_email reader = Some address ->
           address <> "" ->
           address <> trim (toLowerCase email) ->
           result (acceptInvitation reader (i_id row)) w'
           = failure "Invitation not found or has expired".
Proof.
  intros isEmail actor org formData w invite Hok.
  destruct (inviteMember_post isEmail actor org formData w Hok)
    as (email & role & Hform & _ & Hvalid & Hid & Hins & Hdb).
  exists email, role. cbv zeta.
  split; [exact Hform|]. split; [exact Hvalid|]. split; [reflexivity|].
  fold invite in Hdb, Hid. fold (after invite w) in Hdb. fold (result invite w) in Hid.
  split; [rewrite Hdb; reflexivity|]. split; [exact Hid|].
  intros reader address w' Hw' Haddr Hne Hdiff.
  unfold result.
  rewrite (acceptInvitation_not_found _ _ _ _ Haddr Hne); [reflexivity|].
  unfold pending_by_id. rewrite Hw', Hdb. cbn [invitations with_invitations].
  rewrite filter_none; [reflexivity|].
  intros x Hx. apply in_app_or in Hx. destruct Hx as [Hx|[<-|[]]].
  - unfold invitation_insert_ok in Hins. apply andb_true_iff in Hins.
    destruct Hins as [Hins _]. apply negb_true_iff in Hins.
    assert (E : (i_id x =? i_id (invitation_row w actor org email role)) = false).
    { destruct (i_id x =? _) eqn:E; [|reflexivity].
      assert (X : existsb (fun i => i_id i =? i_id (invitation_row w actor org email role))
                    (invitations (db w)) = true)
        by (apply existsb_exists; exists x; split; assumption).
      rewrite X in Hins. discriminate. }
    rewrite E. reflexivity.
  - cbn [invitation_row i_id i_invitee_email i_status]. rewrite String.eqb_refl.
    unfold normalized.
    destruct (String.eqb_spec (trim (toLowerCase email)) address) as [E|_];
      [exfalso; apply Hdiff; symmetry; exact E | reflexivity].
Qed.

(* ------------------------------------------------------------------ *)
(** ** The theorems at work on the sample organization *)

Ltac distinct_strings :=
  repeat (constructor; [simpl; intuition discriminate|]); constructor.

Ltac each_row :=
  let m := fresh "m" in
  let H := fresh "H" in
  intros m H; simpl in H;
  repeat (destruct H as [H|H]; [subst m; try reflexivity; try discriminate|]);
  destruct H.

Lemma canChangeRole_admin_actor_witness :
  let decision := result (canChangeRole "u-bob" "acme" "u-carol" viewer)
                         (Acme.world Acme.tables [] 0) in
  (user = owner \/ user = admin -> granted decision = false)
  /\ (viewer = owner \/ viewer = admin -> granted decision = false)
  /\ (granted decision = true <->
      answered 2 (Acme.world Acme.tables [] 0) = true
      /\ (user = user \/ user = viewer) /\ (viewer = user \/ viewer = viewer))
  /\ (answered 2 (Acme.world Acme.tables [] 0) = true -> decision = allow).
Proof.
  exact (canChangeRole_admin_actor (Acme.world Acme.tables [] 0)
           "u-bob" "acme" "u-carol" viewer
           (mkMember "m-bob" "acme" "u-bob" admin)
           (mkMember "m-carol" "acme" "u-carol" user)
           eq_refl eq_refl eq_refl).
Defined.

Module Rollback.
Import Acme.

(** The promotion is refused, the rollback applied. *)
Definition start : World :=
  world tables [true; true; true; true; true; true; false; true] 0.

End Rollback.


(** The rollback path is the one taken there. *)
Example transferOwnership_rolls_back :
  map (fun e => (request e, succeeded e))
      (journal (after (transferOwnership Acme.alice "acme" "m-carol") Rollback.start))
  = [ (UpdateMemberRole "m-alice" "acme" admin, true);
      (UpdateMemberRole "m-carol" "acme" owner, false);
      (UpdateMemberRole "m-alice" "acme" owner, true) ]
  /\ organization_members
       (db (after (transferOwnership Acme.alice "acme" "m-carol") Rollback.start))
     = Acme.members.
Proof. vm_compute. split; reflexivity. Qed.

Lemma transfer_round_trip_witness :
  let w := Acme.world Acme.tables [] 0 in
  let first := transferOwnership Acme.alice "acme" "m-carol" in
  let second := transferOwnership Acme.carol "acme" "m-alice" in
  let w1 := after first w in
  let w2 := after second w1 in
  result first w = None
  /\ result second w1 = None
  /\ owners_of "acme" (organization_members (db w1))
     = [set_role owner Acme.carol_row]
  /\ organization_members (db w2)
     = role_update "m-carol" "acme" admin (organization_members (db w))
  /\ membership (db w2) "acme" "u-alice" = Some Acme.alice_row
  /\ membership (db w2) "acme" "u-carol" = Some (set_role admin Acme.carol_row)
  /\ exists extra,
       appended w w2 extra
       /\ map (fun e => owners_of "acme" (organization_members (state_after e))) extra
          = [ []; [set_role owner Acme.carol_row]; []; [Acme.alice_row] ].
Proof.
  apply (transfer_round_trip (Acme.world Acme.tables [] 0) "acme"
           Acme.alice_row Acme.carol_row Acme.alice Acme.carol).
  - constructor; try reflexivity. discriminate.
  - reflexivity.
  - reflexivity.
  - reflexivity.
Defined.

Lemma accept_when_already_member_witness :
  let w := AlreadyMember.start in
  let byId := acceptInvitation Acme.carol "i-1" in
  let byToken := acceptInvitationByToken Acme.carol "t-1" in
  result byId w
  = mkAccept (Some "You are already a member of this organization") (Some "acme")
  /\ result byToken w = mkAccept None (Some "acme")
  /\ short_circuited w (after byId w) "carol@acme.test" AlreadyMember.invitation
  /\ short_circuited w (after byToken w) "carol@acme.test" AlreadyMember.invitation.
Proof.
  apply (accept_when_already_member AlreadyMember.start Acme.carol "carol@acme.test"
           AlreadyMember.invitation Acme.carol_row).
  - split; distinct_strings.
  - left. reflexivity.
  - reflexivity.
  - reflexivity.
  - reflexivity.
  - discriminate.
  - reflexivity.
  - reflexivity.
  - reflexivity.
Defined.

Lemma acceptInvitationByToken_twice_witness :
  let accept := acceptInvitationByToken Acme.dave "t-1" in
  let w1 := after accept Twice.start in
  result accept Twice.start = mkAccept None (Some "acme")
  /\ filter (member_of "acme" "u-dave") (organization_members (db w1))
     = [mkMember "id-0" "acme" "u-dave" viewer]
  /\ In (set_status accepted Twice.invitation) (invitations (db w1))
  /\ forall w', db w' = db w1 ->
       result accept w' = failure "Invitation not found or has already been used"
       /\ untouched w' (after accept w').
Proof.
  apply (acceptInvitationByToken_twice Twice.start Acme.dave "dave@acme.test"
           Twice.invitation).
  - constructor; try reflexivity; try discriminate.
    + split; distinct_strings.
    + left. reflexivity.
    + each_row.
    + each_row.
  - reflexivity.
Defined.

Module Listing.
Import Acme.

(** Dave once accepted an invitation to Acme and is no longer a member; an
    invitation to Globex is pending for him. *)
Definition old_acme : OrganizationInvitation :=
  mkInvitation "i-1" "acme" "u-alice" "dave@acme.test" viewer accepted "t-1" 1000 0.
Definition new_globex : OrganizationInvitation :=
  mkInvitation "i-2" "globex" "u-erin" "dave@acme.test" user pending "t-2" 2000 10.

Definition start : World :=
  world (mkDatabase members [old_acme; new_globex] profiles) [] 500.

End Listing.

Lemma getPendingInvitations_after_acceptance_witness :
  let listing := fst (result (getPendingInvitations (Some Acme.dave)) Listing.start) in
  (forall i, In i listing ->
     In i (invitations (db Listing.start))
     /\ i_invitee_email i = "dave@acme.test"
     /\ i_status i = pending
     /\ (now Listing.start < i_expires_at i)%Z
     /\ i <> Listing.old_acme)
  /\ (answered 3 Listing.start = true ->
      (forall i, In i listing ->
         i_organization_id i <> i_organization_id Listing.old_acme)
      /\ (forall reinvitation,
            In reinvitation (invitations (db Listing.start)) ->
            i_organization_id reinvitation = i_organization_id Listing.old_acme ->
            ~ In reinvitation listing)).
Proof.
  apply (getPendingInvitations_after_acceptance Listing.start Acme.dave "dave@acme.test"
           Listing.old_acme).
  - reflexivity.
  - discriminate.
  - left. reflexivity.
  - reflexivity.
  - reflexivity.
Defined.

(** What the listing of the sample shows: the Globex invitation alone. *)
Example getPendingInvitations_lists_globex :
  fst (result (getPendingInvitations (Some Acme.dave)) Listing.start)
  = [Listing.new_globex].
Proof. reflexivity. Qed.

Lemma accepted_survives_calls_example :
  (forall actor org memberId,
     In Reinvited.first_invitation
        (invitations (db (after (removeMember actor org memberId)
                                Reinvited.accepted_once))))
  /\ (unique_invitations (db Reinvited.accepted_once) ->
      forall cs,
        In Reinvited.first_invitation
           (invitations (db (after (calls Acme.has_at_sign cs)
                                   Reinvited.accepted_once)))).
Proof.
  apply (accepted_survives_calls Acme.has_at_sign Reinvited.accepted_once
           Reinvited.first_invitation).
  - vm_compute. left. reflexivity.
  - reflexivity.
Defined.

(** The sample tables do have unique ids and tokens. *)
Example accepted_once_unique : unique_invitations (db Reinvited.accepted_once).
Proof. split; vm_compute; distinct_strings. Qed.

(** The scenario of the claim: accepted, removed, invited again, and one week
    and more gone by; the first invitation is still accepted. *)
Example accepted_survives_removal :
  In Reinvited.first_invitation
     (invitations
        (db (after (calls Acme.has_at_sign
                      [ Remove Acme.alice "acme" "id-2";
                        Invite Acme.alice "acme"
                          (mkForm (Some "dave@acme.test") (Some "viewer"));
                        Elapse (2 * seven_days);
                        AcceptByToken Acme.dave "id-4";
                        Decline Acme.dave "id-0";
                        Cancel Acme.alice "acme" "id-0" ])
                   Reinvited.accepted_once))).
Proof. vm_compute. left. reflexivity. Qed.

Module Spelled.
Import Acme.

(** Alice invites Dave, typing his address with capitals and blanks. *)
Definition form : FormData := mkForm (Some "  Dave@ACME.test ") (Some "viewer").
Definition invite : Action InviteResult :=
  inviteMember Acme.has_at_sign alice "acme" form.
Definition start : World := world tables [] 0.

End Spelled.

Lemma inviteMember_normalizes_email_witness :
  exists email role,
    let row := invitation_row Spelled.start Acme.alice "acme" email role in
    form_email Spelled.form = Some email
    /\ Acme.has_at_sign (trim (toLowerCase email)) = true
    /\ i_invitee_email row = trim (toLowerCase email)
    /\ invitations (db (after Spelled.invite Spelled.start))
       = invitations (db Spelled.start) ++ [row]
    /\ invitationId (result Spelled.invite Spelled.start) = Some (i_id row)
    /\ forall reader address w',
         db w' = db (after Spelled.invite Spelled.start) ->
         auth_email reader = Some address ->
         address <> "" ->
         address <> trim (toLowerCase email) ->
         result (acceptInvitation reader (i_id row)) w'
         = failure "Invitation not found or has expired".
Proof.
  apply (inviteMember_normalizes_email Acme.has_at_sign Acme.alice "acme"
           Spelled.form Spelled.start).
  reflexivity.
Defined.

(** What was stored for ["  Dave@ACME.test "]. *)
Example inviteMember_stores_lowercase :
  map i_invitee_email (invitations (db (after Spelled.invite Spelled.start)))
  = ["dave@acme.test"].
Proof. vm_compute. reflexivity. Qed.

(* ------------------------------------------------------------------ *)
(** ** Further properties of the permission checks *)

(** X1.  The hierarchy is a total order on roles, owner on top and viewer at the
    bottom. *)
Theorem hasRoleOrHigher_total_order :
  (forall a, hasRoleOrHigher a a = true)
  /\ (forall a b c, hasRoleOrHigher a b = true -> hasRoleOrHigher b c = true ->
        hasRoleOrHigher a c = true)
  /\ (forall a b, hasRoleOrHigher a b = true -> hasRoleOrHigher b a = true -> a = b)
  /\ (forall a b, hasRoleOrHigher a b = true \/ hasRoleOrHigher b a = true)
  /\ (forall a, hasRoleOrHigher owner a = true /\ hasRoleOrHigher a viewer = true).
Proof.
  repeat split.
  - intros []; reflexivity.
  - intros [] [] []; vm_compute; congruence.
  - intros [] []; vm_compute; congruence.
  - intros [] []; vm_compute; auto.
  - destruct a; reflexivity.
  - destruct a; reflexivity.
Qed.

(** [canUpdateOrganization] and [canDeleteOrganization] *)
Definition canUpdateOrganization (userId organizationId : string) : Action bool :=
  isAdminOrOwner userId organizationId.

Definition canDeleteOrganization (userId organizationId : string) : Action bool :=
  isOwner userId organizationId.

Lemma isAdminOrOwner_eq userId org w :
  isAdminOrOwner userId org w =
  (match (if next_ok w
          then single (filter (fun m => member_of org userId m
                                        && (role_eqb (m_role m) owner
                                            || role_eqb (m_role m) admin))
                              (organization_members (db w)))
          else None) with
   | Some m => role_eqb (m_role m) owner || role_eqb (m_role m) admin
   | None => false
   end, tick w).
Proof. unfold isAdminOrOwner, bind, ret. rewrite select_single_eq. reflexivity. Qed.

Lemma getUserRole_eq userId org w :
  getUserRole userId org w =
  (option_map m_role (if next_ok w then membership (db w) org userId else None), tick w).
Proof. unfold getUserRole, bind, ret. rewrite select_single_eq. reflexivity. Qed.

(** X2.  For a user with one row in the organization, the role lookups all read
    that row's role through the hierarchy when the database answers, and
    all answer no (or no role) when the request fails. *)
Theorem role_lookups_agree :
  forall w userId org m,
    membership (db w) org userId = Some m ->
    result (getUserRole userId org) w = (if next_ok w then Some (m_role m) else None)
    /\ result (isMember userId org) w = next_ok w
    /\ result (isOwner userId org) w = next_ok w && hasRoleOrHigher (m_role m) owner
    /\ result (canDeleteOrganization userId org) w
       = next_ok w && hasRoleOrHigher (m_role m) owner
    /\ result (isAdminOrOwner userId org) w
       = next_ok w && hasRoleOrHigher (m_role m) admin
    /\ result (canInviteMembers userId org) w
       = next_ok w && hasRoleOrHigher (m_role m) admin
    /\ result (canUpdateOrganization userId org) w
       = next_ok w && hasRoleOrHigher (m_role m) admin.
Proof.
  intros w userId org m Hm.
  assert (Hown : result (isOwner userId org) w
                 = next_ok w && hasRoleOrHigher (m_role m) owner).
  { unfold result. rewrite isOwner_eq, (owner_row_membership _ _ _ _ Hm). cbn [fst].
    destruct (next_ok w); [|reflexivity].
    destruct (m_role m) eqn:E; cbn [role_eqb]; rewrite ?E; reflexivity. }
  assert (Hadm : result (isAdminOrOwner userId org) w
                 = next_ok w && hasRoleOrHigher (m_role m) admin).
  { unfold result. rewrite isAdminOrOwner_eq. cbn [fst].
    destruct (next_ok w); [|reflexivity].
    rewrite filter_andb. unfold membership in Hm.
    rewrite (single_filter _ _ _ _ Hm).
    destruct (m_role m) eqn:E; cbn [role_eqb orb]; rewrite ?E; reflexivity. }
  split.
  { unfold result. rewrite getUserRole_eq, Hm. cbn [fst].
    destruct (next_ok w); reflexivity. }
  split.
  { unfold result. rewrite isMember_eq, Hm. cbn [fst].
    destruct (next_ok w); reflexivity. }
  repeat split; assumption.
Qed.

Lemma role_lookups_agree_witness :
  let w := Acme.world Acme.tables [] 0 in
  result (getUserRole "u-bob" "acme") w = (if next_ok w then Some admin else None)
  /\ result (isMember "u-bob" "acme") w = next_ok w
  /\ result (isOwner "u-bob" "acme") w = next_ok w && hasRoleOrHigher admin owner
  /\ result (canDeleteOrganization "u-bob" "acme") w
     = next_ok w && hasRoleOrHigher admin owner
  /\ result (isAdminOrOwner "u-bob" "acme") w = next_ok w && hasRoleOrHigher admin admin
  /\ result (canInviteMembers "u-bob" "acme") w
     = next_ok w && hasRoleOrHigher admin admin
  /\ result (canUpdateOrganization "u-bob" "acme") w
     = next_ok w && hasRoleOrHigher admin admin.
Proof.
  exact (role_lookups_agree (Acme.world Acme.tables [] 0) "u-bob" "acme"
           (mkMember "m-bob" "acme" "u-bob" admin) eq_refl).
Defined.

Lemma canRemoveMember_eq userId org targetUserId w :
  result (canRemoveMember userId org targetUserId) w =
  if userId =? targetUserId then
    if match (if next_ok w then owner_row (db w) org userId else None) with
       | Some m => role_eqb (m_role m) owner
       | None => false
       end
    then deny "Owners must transfer ownership before leaving the organization"
    else allow
  else
    match (if next_ok w then membership (db w) org userId else None) with
    | None => deny "You are not a member of this organization"
    | Some actorRow =>
      match (if next_ok (tick w) then membership (db w) org targetUserId else None) with
      | None => deny "Target user is not a member of this organization"
      | Some targetRow =>
        match m_role actorRow with
        | owner =>
            if role_eqb (m_role targetRow) owner
            then deny "Cannot remove the owner. Transfer ownership first."
            else allow
        | admin =>
            if negb (low_role (m_role targetRow))
            then deny "Admins cannot remove owners or other admins"
            else allow
        | _ => deny "You don't have permission to remove members"
        end
      end
    end.
Proof.
  unfold result, canRemoveMember, bind.
  destruct (userId =? targetUserId).
  - rewrite isOwner_eq. cbn [fst snd]. destruct (match _ with Some _ => _ | None => _ end);
      reflexivity.
  - rewrite select_single_eq. fold (membership (db w) org userId).
    destruct (next_ok w); [|reflexivity].
    destruct (membership (db w) org userId) as [a|]; [|reflexivity].
    rewrite select_single_eq, db_tick. fold (membership (db w) org targetUserId).
    destruct (next_ok (tick w)); [|destruct (m_role a); reflexivity].
    destruct (membership (db w) org targetUserId) as [t|];
      [|destruct (m_role a); reflexivity].
    destruct (m_role a), (m_role t); reflexivity.
Qed.

(** X3.  Removing somebody else: granted exactly when both lookups are answered
    and the actor is the owner and the target is not, or the actor is an
    admin and the target a user or a viewer; a failed lookup denies. *)
Theorem canRemoveMember_other_member :
  forall w userId org targetUserId actorRow targetRow,
    userId <> targetUserId ->
    membership (db w) org userId = Some actorRow ->
    membership (db w) org targetUserId = Some targetRow ->
    let decision := result (canRemoveMember userId org targetUserId) w in
    (granted decision = true <->
     answered 2 w = true
     /\ (m_role actorRow = owner /\ m_role targetRow <> owner
         \/ m_role actorRow = admin
            /\ (m_role targetRow = user \/ m_role targetRow = viewer)))
    /\ (answered 2 w = true ->
        decision =
        match m_role actorRow with
        | owner =>
            if role_eqb (m_role targetRow) owner
            then deny "Cannot remove the owner. Transfer ownership first."
            else allow
        | admin =>
            if role_eqb (m_role targetRow) owner || role_eqb (m_role targetRow) admin
            then deny "Admins cannot remove owners or other admins"
            else allow
        | _ => deny "You don't have permission to remove members"
        end).
Proof.
  intros w userId org targetUserId actorRow targetRow Hne Ha Ht decision.
  subst decision. rewrite canRemoveMember_eq, Ha, Ht.
  destruct (String.eqb_spec userId targetUserId) as [E|_]; [contradiction|].
  cbn [answered].
  destruct (next_ok w), (next_ok (tick w)), (m_role actorRow), (m_role targetRow);
    simpl; split; try split; intros; try reflexivity; try discriminate;
    repeat match goal with
           | H : _ /\ _ |- _ => destruct H
           | H : _ \/ _ |- _ => destruct H
           end; try discriminate; try congruence; auto;
    try (split; [reflexivity|]);
    try (left; split; [reflexivity | discriminate]);
    try (right; split; [reflexivity|]; auto).
Qed.

Lemma canRemoveMember_other_member_witness :
  let w := Acme.world Acme.tables [] 0 in
  let decision := result (canRemoveMember "u-bob" "acme" "u-carol") w in
  (granted decision = true <->
   answered 2 w = true
   /\ (admin = owner /\ user <> owner \/ admin = admin /\ (user = user \/ user = viewer)))
  /\ (answered 2 w = true -> decision = allow).
Proof.
  apply (canRemoveMember_other_member (Acme.world Acme.tables [] 0)
           "u-bob" "acme" "u-carol"
           (mkMember "m-bob" "acme" "u-bob" admin) Acme.carol_row).
  - discriminate.
  - reflexivity.
  - reflexivity.
Defined.

(** X4.  Leaving: a member asking to remove themself is refused only if the
    owner lookup is answered and finds them owner.  When that request fails
    the check answers yes, for an owner too. *)
Theorem canRemoveMember_self :
  forall w userId org row,
    membership (db w) org userId = Some row ->
    result (canRemoveMember userId org userId) w =
    if next_ok w && role_eqb (m_role row) owner
    then deny "Owners must transfer ownership before leaving the organization"
    else allow.
Proof.
  intros w userId org row Hm.
  rewrite canRemoveMember_eq, String.eqb_refl, (owner_row_membership _ _ _ _ Hm).
  destruct (next_ok w); [|reflexivity].
  destruct (m_role row) eqn:E; cbn [role_eqb andb]; rewrite ?E; reflexivity.
Qed.

Lemma canRemoveMember_self_witness :
  result (canRemoveMember "u-alice" "acme" "u-alice") (Acme.world Acme.tables [false] 0)
  = if next_ok (Acme.world Acme.tables [false] 0) && role_eqb owner owner
    then deny "Owners must transfer ownership before leaving the organization"
    else allow.
Proof.
  exact (canRemoveMember_self (Acme.world Acme.tables [false] 0) "u-alice" "acme"
           Acme.alice_row eq_refl).
Defined.

(** X5.  A transfer is permitted exactly when both lookups are answered, the
    actor is the owner, the target is somebody else and has a row in the
    organization; a failed lookup denies. *)
Theorem canTransferOwnership_granted :
  forall w userId org targetUserId actorRow,
    membership (db w) org userId = Some actorRow ->
    granted (result (canTransferOwnership userId org targetUserId) w) = true <->
    answered 2 w = true
    /\ m_role actorRow = owner
    /\ userId <> targetUserId
    /\ exists targetRow, membership (db w) org targetUserId = Some targetRow.
Proof.
  intros w userId org targetUserId actorRow Ha.
  unfold result. rewrite canTransferOwnership_eq, (owner_row_membership _ _ _ _ Ha).
  cbn [answered].
  destruct (next_ok w); cbn [andb negb].
  2:{ cbn [fst granted deny]. split; [discriminate | intros [H _]; discriminate]. }
  destruct (m_role actorRow) eqn:R; cbn [role_eqb]; rewrite ?R; cbn [role_eqb negb].
  2-4: cbn [fst granted deny]; split;
       [discriminate | intros (_ & H & _); discriminate].
  destruct (String.eqb_spec userId targetUserId) as [E|E].
  { cbn [fst granted deny]. split; [discriminate | intros (_ & _ & H & _); contradiction]. }
  destruct (next_ok (tick w)); cbn [andb].
  2:{ cbn [fst granted deny]. split; [discriminate | intros [H _]; discriminate]. }
  destruct (membership (db w) org targetUserId) as [t|]; cbn [fst granted deny allow].
  - split; [|reflexivity]. intros _. repeat split; auto. exists t. reflexivity.
  - split; [discriminate | intros (_ & _ & _ & t & H); discriminate].
Qed.

Lemma canTransferOwnership_granted_witness :
  granted (result (canTransferOwnership "u-alice" "acme" "u-carol")
                  (Acme.world Acme.tables [] 0)) = true <->
  answered 2 (Acme.world Acme.tables [] 0) = true
  /\ owner = owner
  /\ "u-alice" <> "u-carol"
  /\ exists targetRow, membership Acme.tables "acme" "u-carol" = Some targetRow.
Proof.
  exact (canTransferOwnership_granted (Acme.world Acme.tables [] 0)
           "u-alice" "acme" "u-carol" Acme.alice_row eq_refl).
Defined.

(* ------------------------------------------------------------------ *)
(** ** The members page and the server's checks

    [MembersManagementClient] ([src/unnamed/part_000]) decides in the
    browser, from the viewer's role and a member's row, whether to show the
    buttons; the server decides again when the button is used. *)

Module MembersManagementClient.

(** [canChangeRole(member)], [showTransferOwnership] being the dialog's state *)
Definition canChangeRole (userRole : OrganizationRole) (showTransferOwnership : bool)
  (member : OrganizationMember) : bool :=
  if role_eqb userRole owner then
    negb (role_eqb (m_role member) owner) || showTransferOwnership
  else if role_eqb userRole admin then
    role_eqb (m_role member) user || role_eqb (m_role member) viewer
  else false.

(** [canRemove(member)] *)
Definition canRemove (userRole : OrganizationRole) (member : OrganizationMember) : bool :=
  if role_eqb userRole owner then negb (role_eqb (m_role member) owner)
  else if role_eqb userRole admin then
    role_eqb (m_role member) user || role_eqb (m_role member) viewer
  else false.

(** The [option]s of the role dialog's [select]. *)
Definition role_options (userRole : OrganizationRole) : list OrganizationRole :=
  (if role_eqb userRole owner then [admin; user; viewer] else [])
  ++ (if role_eqb userRole admin then [user; viewer] else []).

End MembersManagementClient.

(** X6.  Every remove button the page shows leads to a removal the server
    permits: if the page, given the viewer's actual role, offers to remove a
    member, then [canRemoveMember] (its lookups answered) grants it. *)
Theorem shown_remove_button_is_permitted :
  forall w userId org actorRow targetRow,
    membership (db w) org userId = Some actorRow ->
    membership (db w) org (m_user_id targetRow) = Some targetRow ->
    answered 2 w = true ->
    MembersManagementClient.canRemove (m_role actorRow) targetRow = true ->
    result (canRemoveMember userId org (m_user_id targetRow)) w = allow.
Proof.
  intros w userId org actorRow targetRow Ha Ht Hok Hui.
  assert (Hne : userId <> m_user_id targetRow).
  { intros E. rewrite <- E in Ht. rewrite Ha in Ht. inversion Ht; subst targetRow.
    unfold MembersManagementClient.canRemove in Hui.
    destruct (m_role actorRow); discriminate. }
  rewrite canRemoveMember_eq, Ha, Ht.
  destruct (String.eqb_spec userId (m_user_id targetRow)) as [E|_]; [contradiction|].
  cbn [answered] in Hok. apply andb_true_iff in Hok. destruct Hok as [H1 Hok].
  apply andb_true_iff in Hok. destruct Hok as [H2 _]. rewrite H1, H2.
  unfold MembersManagementClient.canRemove in Hui.
  destruct (m_role actorRow), (m_role targetRow); try discriminate; reflexivity.
Qed.

Lemma shown_remove_button_is_permitted_witness :
  result (canRemoveMember "u-bob" "acme" "u-carol") (Acme.world Acme.tables [] 0) = allow.
Proof.
  exact (shown_remove_button_is_permitted (Acme.world Acme.tables [] 0) "u-bob" "acme"
           (mkMember "m-bob" "acme" "u-bob" admin) Acme.carol_row
           eq_refl eq_refl eq_refl eq_refl).
Defined.

(** X7.  Every role change the dialog can offer is one the server permits: if
    the page shows the change-role button for a member and the new role is
    picked among the dialog's options, [canChangeRole] (its lookups
    answered) grants it, and the role picked is never owner. *)
Theorem offered_role_change_is_permitted :
  forall w userId org actorRow targetRow showTransferOwnership newRole,
    membership (db w) org userId = Some actorRow ->
    membership (db w) org (m_user_id targetRow) = Some targetRow ->
    answered 2 w = true ->
    MembersManagementClient.canChangeRole (m_role actorRow) showTransferOwnership
      targetRow = true ->
    In newRole (MembersManagementClient.role_options (m_role actorRow)) ->
    result (canChangeRole userId org (m_user_id targetRow) newRole) w = allow
    /\ newRole <> owner.
Proof.
  intros w userId org actorRow targetRow showT newRole Ha Ht Hok Hui Hopt.
  rewrite canChangeRole_eq, Ha, Ht. cbn [answered] in Hok.
  apply andb_true_iff in Hok. destruct Hok as [H1 Hok].
  apply andb_true_iff in Hok. destruct Hok as [H2 _]. rewrite H1, H2.
  unfold MembersManagementClient.canChangeRole in Hui.
  unfold MembersManagementClient.role_options in Hopt.
  destruct (m_role actorRow); simpl in Hopt, Hui;
    try contradiction; try discriminate;
    repeat (destruct Hopt as [<-|Hopt]); try contradiction;
    (split; [|discriminate]);
    destruct (m_role targetRow); try discriminate; reflexivity.
Qed.

Lemma offered_role_change_is_permitted_witness :
  result (canChangeRole "u-alice" "acme" "u-carol" admin) (Acme.world Acme.tables [] 0)
  = allow
  /\ admin <> owner.
Proof.
  apply (offered_role_change_is_permitted (Acme.world Acme.tables [] 0) "u-alice" "acme"
           Acme.alice_row Acme.carol_row false admin).
  - reflexivity.
  - reflexivity.
  - reflexivity.
  - reflexivity.
  - left. reflexivity.
Defined.

(* ------------------------------------------------------------------ *)
(** ** What a role change does *)

Lemma run_pair A (c : Action A) w : c w = (result c w, after c w).
Proof. unfold result, after. destruct (c w); reflexivity. Qed.

Lemma canChangeRole_after userId org targetUserId newRole w :
  after (canChangeRole userId org targetUserId newRole) w =
  match (if next_ok w then membership (db w) org userId else None) with
  | None => tick w
  | Some _ => tick (tick w)
  end.
Proof.
  unfold after, canChangeRole, bind, membership.
  rewrite select_single_eq.
  destruct (next_ok w); [|reflexivity].
  destruct (single _) as [a|]; [|reflexivity].
  rewrite select_single_eq.
  destruct (next_ok (tick w)); [|reflexivity].
  destruct (single _) as [t|]; [|reflexivity].
  destruct (m_role a), (m_role t), newRole; reflexivity.
Qed.

Lemma answered_S n w : answered (S n) w = next_ok w && answered n (tick w).
Proof. reflexivity. Qed.

Lemma member_by_id_membership d memberId org row row' :
  member_by_id d memberId org = Some row ->
  membership d org (m_user_id row) = Some row' ->
  row' = row.
Proof.
  intros Hid Hm. symmetry.
  apply single_In in Hid.
  assert (Hin : In row (filter (member_is memberId org) (organization_members d))).
  { rewrite Hid. left. reflexivity. }
  apply filter_In in Hin. destruct Hin as [Hin Hp].
  apply (filter_single_In _ _ _ _ row Hm Hin).
  unfold member_is in Hp. apply andb_true_iff in Hp. destruct Hp as [_ Ho].
  unfold member_of. rewrite Ho, String.eqb_refl. reflexivity.
Qed.

Lemma perform_role_update memberId org r d :
  r <> owner ->
  perform (UpdateMemberRole memberId org r) d
  = Some (with_members d (role_update memberId org r (organization_members d))).
Proof. intros H. destruct r; try reflexivity. contradiction. Qed.

(** X8.  The role-change action succeeds exactly when its five requests are
    answered, the actor and the member each have their row in the
    organization, the form names a role other than owner, and the actor is
    the owner, or an admin changing a user or a viewer into a user or a
    viewer.  On success the member's row, and nothing else, has the new role,
    by one write; on an error the tables are as they were. *)
Theorem changeMemberRole_outcome :
  forall actor org memberId formData w,
    let c := changeMemberRole actor org memberId formData in
    (result c w = None <->
     answered 5 w = true
     /\ exists actorRow targetRow newRole,
          membership (db w) org (auth_id actor) = Some actorRow
          /\ member_by_id (db w) memberId org = Some targetRow
          /\ membership (db w) org (m_user_id targetRow) = Some targetRow
          /\ changeRoleSchema (form_role formData) = Some newRole
          /\ newRole <> owner
          /\ (m_role actorRow = owner
              \/ m_role actorRow = admin
                 /\ low_role (m_role targetRow) = true /\ low_role newRole = true))
    /\ (forall newRole,
          result c w = None -> changeRoleSchema (form_role formData) = Some newRole ->
          db (after c w)
          = with_members (db w) (role_update memberId org newRole
                                   (organization_members (db w)))
          /\ journal (after c w)
             = journal w ++ [mkEntry (UpdateMemberRole memberId org newRole) true
                               (db (after c w))])
    /\ (result c w <> None -> db (after c w) = db w).
Proof.
  intros actor org memberId formData w c. subst c.
  unfold result, after, changeMemberRole, bind.
  rewrite isMember_eq. rewrite !answered_S.
  destruct (next_ok w) eqn:N1; cbn [andb].
  2:{ cbn [negb fst snd ret]. rewrite db_tick.
      split; [split; [discriminate | intros [H _]; discriminate]|].
      split; [discriminate | reflexivity]. }
  destruct (membership (db w) org (auth_id actor)) as [a|] eqn:Ha.
  2:{ cbn [negb fst snd ret]. rewrite db_tick.
      split; [split; [discriminate | intros (_ & a & t & r & H & _); discriminate]|].
      split; [discriminate | reflexivity]. }
  cbn [negb]. rewrite select_single_eq, db_tick.
  fold (member_by_id (db w) memberId org).
  destruct (next_ok (tick w)) eqn:N2; cbn [andb].
  2:{ cbn [fst snd ret]. rewrite !db_tick.
      split; [split; [discriminate | intros [H _]; discriminate]|].
      split; [discriminate | reflexivity]. }
  destruct (member_by_id (db w) memberId org) as [t|] eqn:Ht.
  2:{ cbn [fst snd ret]. rewrite !db_tick.
      split; [split; [discriminate
                     | intros (_ & a' & t & r & _ & H & _); discriminate]|].
      split; [discriminate | reflexivity]. }
  destruct (changeRoleSchema (form_role formData)) as [newRole|] eqn:Hs.
  2:{ cbn [fst snd ret]. rewrite !db_tick.
      split; [split; [discriminate
                     | intros (_ & a' & t' & r & _ & _ & _ & H & _); discriminate]|].
      split; [discriminate | reflexivity]. }
  rewrite (run_pair _ (canChangeRole (auth_id actor) org (m_user_id t) newRole)
             (tick (tick w))).
  rewrite canChangeRole_eq, canChangeRole_after, !db_tick, Ha.
  set (w2 := tick (tick w)).
  destruct (next_ok w2) eqn:N3; cbn [andb].
  2:{ cbn [granted deny negb fst snd ret]. unfold w2. rewrite !db_tick.
      split; [split; [discriminate | intros [H _]; discriminate]|].
      split; [discriminate | reflexivity]. }
  destruct (next_ok (tick w2)) eqn:N4; cbn [andb].
  2:{ cbn [granted deny negb fst snd ret]. unfold w2. rewrite !db_tick.
      split; [split; [discriminate | intros [H _]; discriminate]|].
      split; [discriminate | reflexivity]. }
  destruct (membership (db w) org (m_user_id t)) as [t'|] eqn:Ht'.
  2:{ cbn [granted deny negb fst snd ret]. unfold w2. rewrite !db_tick.
      split; [split; [discriminate
                     | intros (_ & a' & t' & r & _ & E & H & _);
                       inversion E; subst t'; rewrite H in Ht'; discriminate]|].
      split; [discriminate | reflexivity]. }
  pose proof (member_by_id_membership _ _ _ _ _ Ht Ht') as E. subst t'.
  set (w4 := tick (tick w2)).
  assert (Hdb : db w4 = db w) by (unfold w4, w2; rewrite !db_tick; reflexivity).
  assert (Hj : journal w4 = journal w)
    by (unfold w4, w2; rewrite !journal_tick; reflexivity).
  assert (Hdeny :
    forall why,
      (let r := @ret (option string) (Some why) w4 in
       (fst r = None <->
        true = true /\ False)
       /\ (fst r = None -> False)
       /\ (fst r <> None -> db (snd r) = db w))).
  { intros why. cbn [ret fst snd]. repeat split; try discriminate; auto.
    intros [_ []]. }
  destruct (role_eqb newRole owner) eqn:Ro.
  { apply role_eqb_eq in Ro. subst newRole.
    destruct (m_role a), (m_role t); cbn [role_eqb andb low_role orb negb granted deny allow reason or_else truthy fst snd ret];
      (split; [split; [discriminate
                      | intros (_ & a' & t' & r & _ & _ & _ & E & H & _);
                        inversion E; subst r; contradiction]|]);
      (split; [intros r H; discriminate | intros _; exact Hdb]). }
  assert (Hno : newRole <> owner) by (intros ->; discriminate).
  assert (Hgo :
    let r := (updated <- commit (UpdateMemberRole memberId org newRole) ;;
              if negb updated
              then ret (Some "Failed to update member role. Please try again.")
              else ret None) w4 in
    (fst r = None <-> next_ok w4 = true)
    /\ (fst r = None ->
        db (snd r) = with_members (db w) (role_update memberId org newRole
                                            (organization_members (db w)))
        /\ journal (snd r)
           = journal w ++ [mkEntry (UpdateMemberRole memberId org newRole) true
                             (db (snd r))])
    /\ (fst r <> None -> db (snd r) = db w)).
  { unfold bind. rewrite commit_eq. unfold applied, committed, applied.
    rewrite Hdb, Hj, (perform_role_update _ _ _ _ Hno).
    destruct (next_ok w4); cbn [negb ret fst snd db journal].
    - repeat split; try reflexivity; intros H; contradiction H; reflexivity.
    - repeat split; try discriminate; reflexivity. }
  cbv zeta in Hgo. unfold bind in Hgo. destruct Hgo as (G1 & G2 & G3).
  destruct (m_role a) eqn:Ra, (m_role t) eqn:Rt, newRole;
    try (contradiction Hno; reflexivity);
    cbn [role_eqb andb low_role orb negb granted deny allow reason or_else truthy fst snd ret];
    cbn [role_eqb negb] in G1, G2, G3;
    first
      [ (* denied *)
        split; [split; [discriminate
                       | intros (_ & a' & t' & r & Ea & Et & _ & Er & _ & [H|(H & L1 & L2)]);
                         inversion Ea; subst a'; inversion Et; subst t';
                         inversion Er; subst r;
                         rewrite ?Ra, ?Rt in *; discriminate]|];
        split; [intros r H; discriminate | intros _; exact Hdb]
      | (* granted *)
        split;
        [ rewrite G1; split;
          [ intros H; split; [rewrite H; reflexivity|];
            exists a, t; eexists; repeat split; try reflexivity; try assumption;
            first [left; rewrite Ra; reflexivity
                  | right; rewrite Ra, Rt; repeat split; reflexivity]
          | intros [H _]; apply andb_true_iff in H; exact (proj1 H) ]
        | split; [intros r H E; inversion E; subst r; exact (G2 H) | exact G3] ] ].
Qed.

Lemma membership_user d org userId row :
  membership d org userId = Some row ->
  In row (organization_members d) /\ m_organization_id row = org /\ m_user_id row = userId.
Proof.
  intros H. apply single_In in H.
  assert (Hin : In row (filter (member_of org userId) (organization_members d))).
  { rewrite H. left. reflexivity. }
  apply filter_In in Hin. destruct Hin as [Hin Hp]. split; [exact Hin|].
  unfold member_of in Hp. apply andb_true_iff in Hp. destruct Hp as [Ho Hu].
  split; apply String.eqb_eq; assumption.
Qed.

Lemma owners_without_sole_owner org row r ms :
  r <> owner -> owners_of org ms = [row] -> member_is (m_id row) org row = true ->
  owners_of org (role_update (m_id row) org r ms) = [].
Proof.
  intros Hr Hsole Hrow. unfold owners_of, role_update. apply filter_none.
  intros y Hy. apply in_map_iff in Hy. destruct Hy as (x & <- & Hx).
  destruct (member_is (m_id row) org x) eqn:E.
  - cbn [set_role m_role m_organization_id].
    destruct r; try (contradiction Hr; reflexivity); apply andb_false_r.
  - destruct ((m_organization_id x =? org) && role_eqb (m_role x) owner) eqn:Q;
      [|reflexivity].
    assert (H : In x (owners_of org ms)) by (apply filter_In; split; assumption).
    rewrite Hsole in H. destruct H as [<-|[]]. rewrite Hrow in E. discriminate.
Qed.

(** X9.  The role-change action lets the owner give up the owner role without
    naming a successor: an owner who submits another role for their own row
    succeeds (every request answered), and the organization is left without
    an owner. *)
Theorem changeMemberRole_owner_steps_down :
  forall actor org ownerRow email role newRole w,
    membership (db w) org (auth_id actor) = Some ownerRow ->
    member_by_id (db w) (m_id ownerRow) org = Some ownerRow ->
    owners_of org (organization_members (db w)) = [ownerRow] ->
    changeRoleSchema (Some role) = Some newRole ->
    newRole <> owner ->
    answered 5 w = true ->
    let c := changeMemberRole actor org (m_id ownerRow) (mkForm email (Some role)) in
    result c w = None
    /\ owners_of org (organization_members (db (after c w))) = []
    /\ membership (db (after c w)) org (auth_id actor) = Some (set_role newRole ownerRow).
Proof.
  intros actor org ownerRow email role newRole w Ha Hid Hsole Hs Hno Hok c. subst c.
  destruct (membership_user _ _ _ _ Ha) as (Hin & Horg & Huser).
  assert (Hrole : m_role ownerRow = owner).
  { assert (H : In ownerRow (owners_of org (organization_members (db w))))
      by (rewrite Hsole; left; reflexivity).
    apply filter_In in H. destruct H as [_ H]. apply andb_true_iff in H.
    apply role_eqb_eq. exact (proj2 H). }
  assert (Hrow : member_is (m_id ownerRow) org ownerRow = true).
  { unfold member_is. rewrite Horg, !String.eqb_refl. reflexivity. }
  rewrite !answered_S in Hok.
  repeat match type of Hok with
         | _ && _ = true => apply andb_true_iff in Hok; destruct Hok as [? Hok]
         end.
  unfold result, after, changeMemberRole, bind.
  rewrite isMember_eq, H, Ha. cbn [negb].
  rewrite select_single_eq, db_tick, H0.
  fold (member_by_id (db w) (m_id ownerRow) org). rewrite Hid.
  cbn [form_role]. rewrite Hs.
  rewrite (run_pair _ (canChangeRole (auth_id actor) org (m_user_id ownerRow) newRole)
             (tick (tick w))).
  rewrite canChangeRole_eq, canChangeRole_after, !db_tick, H1, H2, Huser, Ha, Hrole.
  assert (Hn : role_eqb newRole owner = false)
    by (destruct newRole; try reflexivity; contradiction Hno; reflexivity).
  rewrite Hn. cbn [role_eqb andb granted allow negb].
  rewrite commit_eq. unfold applied, committed, applied. rewrite H3, !db_tick.
  rewrite (perform_role_update _ _ _ _ Hno). cbn [negb ret fst snd db].
  split; [reflexivity|]. split.
  - cbn [organization_members with_members].
    exact (owners_without_sole_owner _ _ _ _ Hno Hsole Hrow).
  - rewrite membership_role_update, Ha. cbn [option_map]. rewrite Hrow. reflexivity.
Qed.

Lemma changeMemberRole_owner_steps_down_witness :
  let c := changeMemberRole Acme.alice "acme" "m-alice" (mkForm None (Some "viewer")) in
  let w := Acme.world Acme.tables [] 0 in
  result c w = None
  /\ owners_of "acme" (organization_members (db (after c w))) = []
  /\ membership (db (after c w)) "acme" "u-alice" = Some (set_role viewer Acme.alice_row).
Proof.
  apply (changeMemberRole_owner_steps_down Acme.alice "acme" Acme.alice_row None
           "viewer" viewer (Acme.world Acme.tables [] 0)).
  - reflexivity.
  - reflexivity.
  - reflexivity.
  - reflexivity.
  - discriminate.
  - reflexivity.
Defined.

(* ------------------------------------------------------------------ *)
(** ** What removing a member does *)

Lemma NoDup_key_inj A (key : A -> string) (l : list A) (x y : A) :
  NoDup (map key l) -> In x l -> In y l -> key x = key y -> x = y.
Proof.
  induction l as [|z l IH]; intros Hnd Hx Hy E; [destruct Hx|].
  simpl in Hnd. inversion Hnd as [|? ? Hnot Hnd']; subst.
  destruct Hx as [->|Hx], Hy as [->|Hy]; auto.
  - exfalso. apply Hnot. rewrite E. apply in_map. exact Hy.
  - exfalso. apply Hnot. rewrite <- E. apply in_map. exact Hx.
Qed.

(** The update that re-marks the accepted invitations of a removed member. *)
Definition protect (org email : string) (invs : list OrganizationInvitation)
  : list OrganizationInvitation :=
  let found := filter (fun i => (i_organization_id i =? org) && (i_invitee_email i =? email)
                                && status_eqb (i_status i) accepted) invs in
  map (fun i => if inv_matches (AmongIds org email (map i_id found)) i
                then set_status accepted i else i) invs.

Lemma protect_unique_ids org email invs :
  NoDup (map i_id invs) -> protect org email invs = invs.
Proof.
  intros Hnd. unfold protect.
  transitivity (map (fun i : OrganizationInvitation => i) invs); [|apply map_id].
  apply map_ext_in. intros i Hi.
  destruct (inv_matches _ i) eqn:E; [|reflexivity].
  cbn [inv_matches] in E. apply andb_true_iff in E. destruct E as [_ E].
  apply existsb_exists in E. destruct E as (k & Hk & Ek).
  apply String.eqb_eq in Ek. apply in_map_iff in Hk. destruct Hk as (j & Hj & Hin).
  apply filter_In in Hin. destruct Hin as [Hin Hp].
  apply andb_true_iff in Hp. destruct Hp as [_ Hst]. apply status_eqb_eq in Hst.
  assert (i = j) by (apply (NoDup_key_inj _ i_id invs); congruence).
  subst j. rewrite <- Hst. apply set_status_same.
Qed.

Lemma after_read_only A (c : Action A) w : read_only c -> untouched w (after c w).
Proof. intros H. exact (H w w (untouched_refl w)). Qed.

(** The ways a removal can end: with an error and the tables as they were,
    or with the member's row deleted after the check granted it. *)
Lemma removeMember_cases actor org memberId w :
  let c := removeMember actor org memberId in
  (result c w <> None /\ db (after c w) = db w
   /\ (next_ok w = false \/ membership (db w) org (auth_id actor) = None
       \/ next_ok (tick w) = false \/ member_by_id (db w) memberId org = None
       \/ exists targetRow,
            member_by_id (db w) memberId org = Some targetRow
            /\ let check := canRemoveMember (auth_id actor) org (m_user_id targetRow) in
               granted (result check (tick (tick w))) = false
               \/ next_ok (tick (after check (tick (tick w)))) = false))
  \/ (result c w = None
      /\ next_ok w = true /\ next_ok (tick w) = true
      /\ exists actorRow targetRow,
           membership (db w) org (auth_id actor) = Some actorRow
           /\ member_by_id (db w) memberId org = Some targetRow
           /\ granted (result (canRemoveMember (auth_id actor) org (m_user_id targetRow))
                              (tick (tick w))) = true
           /\ organization_members (db (after c w))
              = filter (fun m => negb (member_is memberId org m))
                       (organization_members (db w))
           /\ users (db (after c w)) = users (db w)
           /\ (invitations (db (after c w)) = invitations (db w)
               \/ exists email,
                    invitations (db (after c w)) = protect org email (invitations (db w)))).
Proof.
  intros c. subst c. unfold result, after, removeMember, bind.
  rewrite isMember_eq.
  destruct (next_ok w) eqn:N1.
  2:{ left. cbn [negb fst snd ret]. rewrite db_tick.
      split; [discriminate | split; [reflexivity | auto]]. }
  destruct (membership (db w) org (auth_id actor)) as [a|] eqn:Ha.
  2:{ left. cbn [negb fst snd ret]. rewrite db_tick.
      split; [discriminate | split; [reflexivity | auto]]. }
  cbn [negb]. rewrite select_single_eq, db_tick.
  fold (member_by_id (db w) memberId org).
  destruct (next_ok (tick w)) eqn:N2.
  2:{ left. cbn [fst snd ret]. rewrite !db_tick.
      split; [discriminate | split; [reflexivity | auto]]. }
  destruct (member_by_id (db w) memberId org) as [t|] eqn:Ht.
  2:{ left. cbn [fst snd ret]. rewrite !db_tick.
      split; [discriminate | split; [reflexivity | auto 6]]. }
  rewrite (run_pair _ (canRemoveMember (auth_id actor) org (m_user_id t)) (tick (tick w))).
  pose proof (after_read_only _ _ (tick (tick w))
                (canRemoveMember_read_only (auth_id actor) org (m_user_id t))) as Hu.
  set (w3 := after (canRemoveMember (auth_id actor) org (m_user_id t)) (tick (tick w)))
    in *.
  assert (Hdb : db w3 = db w) by (destruct Hu as [-> _]; rewrite !db_tick; reflexivity).
  destruct (granted (result (canRemoveMember (auth_id actor) org (m_user_id t))
                            (tick (tick w)))) eqn:G.
  2:{ left. cbn [negb fst snd ret]. split; [discriminate | split; [exact Hdb|]].
      do 4 right. exists t. split; [reflexivity | left; exact G]. }
  cbn [negb]. rewrite select_single_eq, commit_eq.
  unfold applied, committed, applied. rewrite !db_tick, Hdb. cbn [perform].
  destruct (next_ok (tick w3)) eqn:N4.
  2:{ left. cbn [negb fst snd ret db]. split; [discriminate | split; [reflexivity|]].
      do 4 right. exists t. split; [reflexivity | right; exact N4]. }
  cbn [negb]. right.
  match goal with
  | |- context [mkWorld ?d ?o ?j ?n ?u ?x ?e] => set (w5 := mkWorld d o j n u x e)
  end.
  assert (Hres :
    forall r : option string * World,
      fst r = None ->
      (db (snd r) = db w5
       \/ exists email,
            db (snd r) = with_invitations (db w5) (protect org email (invitations (db w)))) ->
      fst r = None /\ true = true /\ true = true
      /\ exists actorRow targetRow,
           Some a = Some actorRow /\ Some t = Some targetRow
           /\ granted (fst (canRemoveMember (auth_id actor) org (m_user_id targetRow)
                                            (tick (tick w)))) = true
           /\ organization_members (db (snd r))
              = filter (fun m => negb (member_is memberId org m))
                       (organization_members (db w))
           /\ users (db (snd r)) = users (db w)
           /\ (invitations (db (snd r)) = invitations (db w)
               \/ exists email,
                    invitations (db (snd r)) = protect org email (invitations (db w)))).
  { intros r Hr Hd. repeat split; try assumption. exists a, t.
    repeat split; try exact G; destruct Hd as [->|(email & ->)]; try reflexivity.
    - left. reflexivity.
    - right. exists email. reflexivity. }
  destruct (truthy _) as [email|].
  2:{ apply Hres; [reflexivity | left; reflexivity]. }
  rewrite select_eq.
  destruct (next_ok w5) eqn:N5.
  2:{ apply Hres; [reflexivity | left; cbn [snd ret]; rewrite db_tick; reflexivity]. }
  destruct (filter _ (invitations (db w5))) as [|inv rest] eqn:F.
  { apply Hres; [reflexivity | left; cbn [snd ret]; rewrite db_tick; reflexivity]. }
  rewrite commit_eq. unfold applied, committed, applied. rewrite !db_tick. cbn [perform].
  destruct (next_ok (tick w5)).
  - apply Hres; [reflexivity|]. right. exists email. cbn [snd ret db].
    unfold protect. f_equal. change (invitations (db w5)) with (invitations (db w)) in *.
    rewrite F. reflexivity.
  - apply Hres; [reflexivity|]. left. reflexivity.
Qed.

Lemma canRemoveMember_after userId org targetUserId w :
  after (canRemoveMember userId org targetUserId) w =
  if userId =? targetUserId then tick w
  else match (if next_ok w then membership (db w) org userId else None) with
       | None => tick w
       | Some _ => tick (tick w)
       end.
Proof.
  unfold after, canRemoveMember, bind.
  destruct (userId =? targetUserId).
  - rewrite isOwner_eq. cbn [fst snd]. destruct (match _ with Some _ => _ | None => _ end);
      reflexivity.
  - rewrite select_single_eq. fold (membership (db w) org userId).
    destruct (next_ok w); [|reflexivity].
    destruct (membership (db w) org userId) as [a|]; [|reflexivity].
    rewrite select_single_eq.
    destruct (next_ok (tick w)); [|destruct (m_role a); reflexivity].
    destruct (single _) as [t|]; [|destruct (m_role a); reflexivity].
    destruct (m_role a), (m_role t); reflexivity.
Qed.

Lemma database_eq d d' :
  organization_members d = organization_members d' ->
  invitations d = invitations d' -> users d = users d' -> d = d'.
Proof. destruct d, d'. simpl. intros -> -> ->. reflexivity. Qed.

Lemma filter_out A (p : A -> bool) (l : list A) :
  filter p (filter (fun x => negb (p x)) l) = [].
Proof.
  apply filter_none. intros x Hx. apply filter_In in Hx.
  destruct (p x); [destruct Hx; discriminate | reflexivity].
Qed.

Lemma filter_absorb A (p q : A -> bool) (l : list A) :
  (forall x, In x l -> q x = true -> p x = false) ->
  filter q (filter (fun x => negb (p x)) l) = filter q l.
Proof.
  induction l as [|x l IH]; intros H; [reflexivity|]. simpl.
  assert (IH' : filter q (filter (fun x => negb (p x)) l) = filter q l)
    by (apply IH; intros y Hy; apply H; right; exact Hy).
  destruct (q x) eqn:Q.
  - rewrite (H x (or_introl eq_refl) Q). simpl. rewrite Q, IH'. reflexivity.
  - destruct (p x); simpl; rewrite ?Q; exact IH'.
Qed.

Lemma filter_absorb_not A (p q : A -> bool) (l : list A) :
  filter q (filter (fun x => negb (p x)) l) = filter (fun x => negb (p x)) (filter q l).
Proof.
  induction l as [|x l IH]; [reflexivity|]. simpl.
  destruct (p x) eqn:P, (q x) eqn:Q; simpl; rewrite ?P, ?Q; simpl; rewrite IH; reflexivity.
Qed.

(** X10.  A removal either fails and leaves the tables as they were, or deletes
    the rows with the given id in the organization and nothing else: on
    tables with unique invitation ids the update that re-marks the member's
    accepted invitations changes no row.  After a success the id designates
    no member any more. *)
Theorem removeMember_outcome :
  forall actor org memberId w,
    NoDup (map i_id (invitations (db w))) ->
    let c := removeMember actor org memberId in
    (result c w = None ->
     db (after c w)
     = with_members (db w) (filter (fun m => negb (member_is memberId org m))
                              (organization_members (db w)))
     /\ member_by_id (db (after c w)) memberId org = None)
    /\ (result c w <> None -> db (after c w) = db w).
Proof.
  intros actor org memberId w Hnd c.
  destruct (removeMember_cases actor org memberId w) as [(Hr & Hd & _)|(Hr & _ & _ & H)];
    fold c in Hr |- *.
  - split; [intros E; contradiction | intros _; exact Hd].
  - split; [intros _ | intros E; contradiction].
    fold c in H. destruct H as (a & t & _ & _ & _ & Hm & Hu & Hi).
    assert (E : db (after c w)
                = with_members (db w) (filter (fun m => negb (member_is memberId org m))
                                         (organization_members (db w)))).
    { apply database_eq; cbn [organization_members invitations users with_members];
        try assumption.
      destruct Hi as [Hi|(email & Hi)]; [exact Hi|].
      rewrite Hi. apply protect_unique_ids. exact Hnd. }
    split; [exact E|]. rewrite E. unfold member_by_id.
    cbn [organization_members with_members]. rewrite filter_out. reflexivity.
Qed.

Lemma removeMember_outcome_witness :
  let c := removeMember Acme.bob "acme" "m-carol" in
  let w := Acme.world Acme.tables [] 0 in
  (result c w = None ->
   db (after c w)
   = with_members (db w) (filter (fun m => negb (member_is "m-carol" "acme" m))
                            (organization_members (db w)))
   /\ member_by_id (db (after c w)) "m-carol" "acme" = None)
  /\ (result c w <> None -> db (after c w) = db w).
Proof.
  apply (removeMember_outcome Acme.bob "acme" "m-carol" (Acme.world Acme.tables [] 0)).
  constructor.
Defined.

(** X11.  Who can remove whom: a removal that succeeds was asked by a member of
    the organization, about a member of it, and either the actor is leaving
    (an owner only if the owner lookup failed), or the actor is the owner and
    the member is not, or the actor is an admin and the member a user or a
    viewer. *)
Theorem removeMember_permitted :
  forall actor org memberId w,
    result (removeMember actor org memberId) w = None ->
    exists actorRow targetRow,
      membership (db w) org (auth_id actor) = Some actorRow
      /\ member_by_id (db w) memberId org = Some targetRow
      /\ (targetRow = actorRow
          /\ (m_role actorRow = owner -> next_ok (tick (tick w)) = false)
          \/ m_user_id targetRow <> auth_id actor
             /\ (m_role actorRow = owner /\ m_role targetRow <> owner
                 \/ m_role actorRow = admin /\ low_role (m_role targetRow) = true)).
Proof.
  intros actor org memberId w Hr.
  destruct (removeMember_cases actor org memberId w) as [(Hn & _)|(_ & _ & _ & H)];
    [contradiction|].
  destruct H as (a & t & Ha & Ht & G & _). exists a, t.
  split; [exact Ha|]. split; [exact Ht|].
  rewrite canRemoveMember_eq, !db_tick in G.
  destruct (String.eqb_spec (auth_id actor) (m_user_id t)) as [E|E].
  - left.
    assert (Et : t = a).
    { symmetry. apply (member_by_id_membership _ _ _ _ _ Ht). rewrite <- E. exact Ha. }
    split; [exact Et|]. intros Ro.
    rewrite (owner_row_membership _ _ _ _ Ha), Ro in G. cbn [role_eqb] in G.
    destruct (next_ok (tick (tick w))); [|reflexivity].
    cbn [role_eqb] in G. rewrite Ro in G. discriminate G.
  - right. split; [intros E'; apply E; symmetry; exact E'|].
    rewrite Ha in G.
    destruct (next_ok (tick (tick w))); [|discriminate G].
    destruct (next_ok (tick (tick (tick w)))); [|discriminate G].
    destruct (membership (db w) org (m_user_id t)) as [t'|] eqn:Ht'; [|discriminate G].
    pose proof (member_by_id_membership _ _ _ _ _ Ht Ht') as Et. subst t'.
    destruct (m_role a), (m_role t); try discriminate G;
      first [left; split; [reflexivity | discriminate]
            | right; split; reflexivity].
Qed.

Lemma removeMember_permitted_witness :
  exists actorRow targetRow,
    membership Acme.tables "acme" "u-bob" = Some actorRow
    /\ member_by_id Acme.tables "m-carol" "acme" = Some targetRow
    /\ (targetRow = actorRow
        /\ (m_role actorRow = owner
            -> next_ok (tick (tick (Acme.world Acme.tables [] 0))) = false)
        \/ m_user_id targetRow <> "u-bob"
           /\ (m_role actorRow = owner /\ m_role targetRow <> owner
               \/ m_role actorRow = admin /\ low_role (m_role targetRow) = true)).
Proof.
  exact (removeMember_permitted Acme.bob "acme" "m-carol" (Acme.world Acme.tables [] 0)
           eq_refl).
Defined.

(** X12.  With the lookups answered no removal takes an owner's row away: the
    owners of every organization are the same before and after. *)
Theorem removeMember_keeps_owners :
  forall actor org memberId w org',
    answered 3 w = true ->
    result (removeMember actor org memberId) w = None ->
    owners_of org' (organization_members (db (after (removeMember actor org memberId) w)))
    = owners_of org' (organization_members (db w)).
Proof.
  intros actor org memberId w org' Hok Hr.
  destruct (removeMember_cases actor org memberId w) as [(Hn & _)|(_ & _ & _ & H)];
    [contradiction|].
  destruct H as (a & t & Ha & Ht & G & Hm & _). rewrite Hm. clear Hm.
  assert (Hrole : m_role t <> owner).
  { rewrite !answered_S in Hok.
    apply andb_true_iff in Hok. destruct Hok as [_ Hok].
    apply andb_true_iff in Hok. destruct Hok as [_ Hok].
    apply andb_true_iff in Hok. destruct Hok as [N3 _].
    rewrite canRemoveMember_eq, !db_tick, N3 in G.
    destruct (String.eqb_spec (auth_id actor) (m_user_id t)) as [E|E].
    - assert (Et : t = a).
      { symmetry. apply (member_by_id_membership _ _ _ _ _ Ht). rewrite <- E. exact Ha. }
      subst t. rewrite (owner_row_membership _ _ _ _ Ha) in G.
      intros Ro. rewrite Ro in G. cbn [role_eqb] in G. rewrite Ro in G. discriminate G.
    - rewrite Ha in G.
      destruct (next_ok (tick (tick (tick w)))); [|discriminate G].
      destruct (membership (db w) org (m_user_id t)) as [t'|] eqn:Ht'; [|discriminate G].
      pose proof (member_by_id_membership _ _ _ _ _ Ht Ht') as Et. subst t'.
      intros Ro. rewrite Ro in G. destruct (m_role a); discriminate G. }
  unfold owners_of. apply filter_absorb. intros m Hin Hq.
  destruct (member_is memberId org m) eqn:E; [|reflexivity].
  pose proof (filter_single_In _ _ _ _ m Ht Hin E) as Em. subst m.
  apply andb_true_iff in Hq. destruct Hq as [_ Hq]. apply role_eqb_eq in Hq.
  contradiction.
Qed.

Lemma removeMember_keeps_owners_witness :
  owners_of "acme"
    (organization_members
       (db (after (removeMember Acme.bob "acme" "m-carol") (Acme.world Acme.tables [] 0))))
  = owners_of "acme" (organization_members (db (Acme.world Acme.tables [] 0))).
Proof.
  exact (removeMember_keeps_owners Acme.bob "acme" "m-carol" (Acme.world Acme.tables [] 0)
           "acme" eq_refl eq_refl).
Defined.

(** X13.  The owner can leave when the owner lookup of the removal check fails:
    the check then grants the removal, the owner's row is deleted and the
    organization is left without an owner. *)
Theorem removeMember_owner_leaves_on_failed_lookup :
  forall actor org ownerRow w,
    membership (db w) org (auth_id actor) = Some ownerRow ->
    member_by_id (db w) (m_id ownerRow) org = Some ownerRow ->
    owners_of org (organization_members (db w)) = [ownerRow] ->
    answered 2 w = true ->
    next_ok (ticks 2 w) = false ->
    next_ok (ticks 4 w) = true ->
    let c := removeMember actor org (m_id ownerRow) in
    result c w = None
    /\ owners_of org (organization_members (db (after c w))) = []
    /\ membership (db (after c w)) org (auth_id actor) = None.
Proof.
  intros actor org ownerRow w Ha Hid Hsole Hok N3 N5 c.
  destruct (membership_user _ _ _ _ Ha) as (Hin & Horg & Huser).
  rewrite !answered_S in Hok.
  apply andb_true_iff in Hok. destruct Hok as [N1 Hok].
  apply andb_true_iff in Hok. destruct Hok as [N2 _].
  cbn [ticks] in N3, N5.
  assert (G : result (canRemoveMember (auth_id actor) org (m_user_id ownerRow))
                     (tick (tick w)) = allow).
  { rewrite canRemoveMember_eq, Huser, String.eqb_refl, N3. reflexivity. }
  destruct (removeMember_cases actor org (m_id ownerRow) w)
    as [(_ & _ & H)|(Hr & _ & _ & H)]; fold c in H |- *.
  - exfalso.
    destruct H as [H|[H|[H|[H|(t & Ht & H)]]]]; try congruence.
    rewrite Hid in Ht. inversion Ht; subst t. cbv zeta in H.
    rewrite G, canRemoveMember_after, Huser, String.eqb_refl in H.
    destruct H as [H|H]; [discriminate H | congruence].
  - split; [exact Hr|].
    destruct H as (a & t & _ & _ & _ & Hm & _). unfold membership. rewrite !Hm.
    assert (Hrow : member_is (m_id ownerRow) org ownerRow = true).
    { unfold member_is. rewrite Horg, !String.eqb_refl. reflexivity. }
    split.
    + unfold owners_of. rewrite filter_absorb_not.
      * fold (owners_of org (organization_members (db w))). rewrite Hsole.
        cbn [filter]. rewrite Hrow. reflexivity.
    + rewrite filter_absorb_not.
      fold (membership (db w) org (auth_id actor)).
      apply single_In in Ha. rewrite Ha. cbn [filter]. rewrite Hrow. reflexivity.
Qed.

Lemma removeMember_owner_leaves_on_failed_lookup_witness :
  let c := removeMember Acme.alice "acme" "m-alice" in
  let w := Acme.world Acme.tables [true; true; false] 0 in
  result c w = None
  /\ owners_of "acme" (organization_members (db (after c w))) = []
  /\ membership (db (after c w)) "acme" "u-alice" = None.
Proof.
  apply (removeMember_owner_leaves_on_failed_lookup Acme.alice "acme" Acme.alice_row
           (Acme.world Acme.tables [true; true; false] 0)); reflexivity.
Defined.

(* ------------------------------------------------------------------ *)
(** ** Who can invite *)

Lemma db_committed_refused r w : applied r w = None -> db (committed r w) = db w.
Proof. unfold committed. intros ->. reflexivity. Qed.

Lemma inviteMember_checks isEmail actor org formData w :
  wp (inviteMember isEmail actor org formData)
     (fun r w' =>
        (invite_error r <> None -> db w' = db w)
        /\ (invite_error r = None ->
            exists actorRow,
              membership (db w) org (auth_id actor) = Some actorRow
              /\ (m_role actorRow = owner \/ m_role actorRow = admin)
              /\ (m_role actorRow = admin ->
                  inviteRoleSchema (form_role formData) = Some admin ->
                  next_ok (tick (tick w)) = false)))
     w.
Proof.
  unfold inviteMember, canInviteMembers, isAdminOrOwner, isMember.
  repeat wp_step; cbn [invite_error];
    try solve [split; [intros _; repeat through_requests; reflexivity | discriminate]].
  all: repeat through_requests.
  all: try solve [split; [|discriminate]; intros _;
                  destruct (applied _ _) eqn:A; [contradictory|];
                  rewrite (db_committed_refused _ _ A);
                  repeat through_requests; reflexivity].
  all: split; [intros H; contradiction H; reflexivity | intros _].
  all: fold (membership (db w) org (auth_id actor)) in *.
  all: destruct (next_ok (tick w)); [|contradictory].
  all: destruct (membership (db w) org (auth_id actor)) as [a|] eqn:Ha; [|contradictory].
  all: exists a; split; [reflexivity|].
  all: destruct (next_ok w); [|contradictory].
  all: rewrite filter_andb in *; unfold membership in Ha;
       rewrite (single_filter _ _ _ _ Ha) in *.
  all: destruct (m_role a) eqn:Ra; cbn [role_eqb orb] in *; rewrite ?Ra in *;
       cbn [role_eqb orb negb andb] in *; try contradictory.
  all: split; [auto|]; intros Hadm Hrole; try discriminate Hadm.
  all: rewrite Hrole in *.
  all: match goal with H : Some _ = Some admin |- _ => inversion H; subst end.
  all: destruct (next_ok (tick (tick w))); [|reflexivity].
  all: cbn [role_eqb andb] in *; rewrite ?Ra in *; cbn [role_eqb andb] in *; contradictory.
Qed.

(** X14.  Who can invite, and what is created.  An invitation is created only for
    an actor whose row in the organization has the role owner or admin, and
    never for the role owner; an admin gets an invitation for the role admin
    through only if the lookup of the admin's own role failed.  The row is
    pending, names the actor as inviter, and expires at the instant seven
    calendar days after the server's clock reading, as the server's time
    zone counts them.  A call that returns an error leaves the tables as
    they were. *)
Theorem inviteMember_permitted :
  forall isEmail actor org formData w,
    let invite := inviteMember isEmail actor org formData in
    (invite_error (result invite w) = None ->
     exists actorRow row,
       membership (db w) org (auth_id actor) = Some actorRow
       /\ (m_role actorRow = owner \/ m_role actorRow = admin)
       /\ invitations (db (after invite w)) = invitations (db w) ++ [row]
       /\ organization_members (db (after invite w)) = organization_members (db w)
       /\ inviteRoleSchema (form_role formData) = Some (i_role row)
       /\ i_role row <> owner
       /\ (m_role actorRow = admin -> i_role row = admin ->
           next_ok (tick (tick w)) = false)
       /\ i_status row = pending
       /\ i_organization_id row = org
       /\ i_inviter_id row = auth_id actor
       /\ i_expires_at row = seven_days_later (env w) (now w))
    /\ (invite_error (result invite w) <> None -> db (after invite w) = db w).
Proof.
  intros isEmail actor org formData w invite.
  destruct (inviteMember_checks isEmail actor org formData w) as [Herr Hok].
  fold invite in Herr, Hok. fold (result invite w) in Herr, Hok.
  fold (after invite w) in Herr.
  split; [|exact Herr]. intros E.
  destruct (Hok E) as (a & Ha & Hrole & Hadm).
  destruct (inviteMember_post isEmail actor org formData w E)
    as (email & role & _ & Hschema & _ & _ & _ & Hdb).
  fold invite in Hdb. fold (after invite w) in Hdb.
  exists a, (invitation_row w actor org email role).
  rewrite Hdb. cbn [invitation_row i_role i_status i_organization_id i_inviter_id
                    i_expires_at invitations organization_members
                    with_invitations].
  repeat split; try assumption; try reflexivity.
  - intros ->. destruct (form_role formData) as [s|]; [|discriminate Hschema].
    cbn [inviteRoleSchema] in Hschema.
    repeat match type of Hschema with
           | (if ?b then _ else _) = _ => destruct b; [discriminate Hschema|]
           end. discriminate Hschema.
  - intros Ra ->. exact (Hadm Ra Hschema).
Qed.

Lemma inviteMember_permitted_witness :
  let invite := inviteMember Acme.has_at_sign Acme.bob "acme"
                  (mkForm (Some "dave@acme.test") (Some "admin")) in
  let w := mkWorld Acme.tables [true; true; false] [] 0 Acme.uuids 0
             (mkEnvironment (fun t => t + 608400000)%Z (fun t => t + 40)%Z None) in
  exists actorRow row,
    membership (db w) "acme" "u-bob" = Some actorRow
    /\ (m_role actorRow = owner \/ m_role actorRow = admin)
    /\ invitations (db (after invite w)) = invitations (db w) ++ [row]
    /\ organization_members (db (after invite w)) = organization_members (db w)
    /\ inviteRoleSchema (Some "admin") = Some (i_role row)
    /\ i_role row <> owner
    /\ (m_role actorRow = admin -> i_role row = admin ->
        next_ok (tick (tick w)) = false)
    /\ i_status row = pending
    /\ i_organization_id row = "acme"
    /\ i_inviter_id row = "u-bob"
    /\ i_expires_at row = seven_days_later (env w) (now w).
Proof.
  exact (proj1 (inviteMember_permitted Acme.has_at_sign Acme.bob "acme"
                  (mkForm (Some "dave@acme.test") (Some "admin"))
                  (mkWorld Acme.tables [true; true; false] [] 0 Acme.uuids 0
                     (mkEnvironment (fun t => t + 608400000)%Z (fun t => t + 40)%Z
                        None))) eq_refl).
Defined.

(* ------------------------------------------------------------------ *)
(** ** What accepting an invitation can do to the member table *)

(** The member table of [d'] is that of [d], or that of [d] with one row
    more: the actor's, in the organization and with the role of a pending,
    unexpired invitation of [d] that [chosen] designates, the actor having
    had no row there. *)
Definition joined_by_invitation (actor : AuthUser) (t : Z)
  (chosen : string -> OrganizationInvitation -> Prop) (newId : string)
  (d d' : Database) : Prop :=
  organization_members d' = organization_members d
  \/ exists email inv,
       truthy (auth_email actor) = Some email
       /\ In inv (invitations d)
       /\ chosen email inv
       /\ i_status inv = pending
       /\ (t <= i_expires_at inv)%Z
       /\ (forall m, In m (organization_members d) ->
             member_of (i_organization_id inv) (auth_id actor) m = false)
       /\ organization_members d'
          = organization_members d
            ++ [mkMember newId (i_organization_id inv) (auth_id actor) (i_role inv)].

(** A reported success: the result names an organization in which the
    actor has a row. *)
Definition member_of_result (actor : AuthUser) (r : AcceptResult) (d' : Database) : Prop :=
  error r = None ->
  exists org row,
    organizationId r = Some org
    /\ In row (organization_members d')
    /\ member_of org (auth_id actor) row = true.

Lemma members_committed_status f s w :
  organization_members (db (committed (UpdateInvitationStatus f s) w))
  = organization_members (db w).
Proof. unfold committed, applied. destruct (next_ok w); reflexivity. Qed.

Lemma applied_insert_member row w d' :
  applied (InsertMember row) w = Some d' ->
  organization_members d' = organization_members (db w) ++ [row]
  /\ forall m, In m (organization_members (db w)) ->
       member_of (m_organization_id row) (m_user_id row) m = false.
Proof.
  unfold applied. destruct (next_ok w); [|discriminate]. cbn [perform].
  destruct (member_insert_ok row (organization_members (db w))) eqn:Ok; [|discriminate].
  intros [= <-]. split; [reflexivity|].
  unfold member_insert_ok in Ok. apply andb_true_iff in Ok. destruct Ok as [Ok _].
  apply andb_true_iff in Ok. destruct Ok as [_ Ok]. apply negb_true_iff in Ok.
  intros m Hm. destruct (member_of _ _ m) eqn:E; [|reflexivity].
  assert (X : existsb (member_of (m_organization_id row) (m_user_id row))
                (organization_members (db w)) = true)
    by (apply existsb_exists; exists m; split; assumption).
  rewrite X in Ok. discriminate Ok.
Qed.

Lemma found_single A (p : A -> bool) (l : list A) (b : bool) (x : A) :
  (if b then single (filter p l) else None) = Some x -> In x l /\ p x = true.
Proof.
  destruct b; [|discriminate]. intros H. apply single_In in H.
  apply filter_In. rewrite H. left. reflexivity.
Qed.

Lemma acceptInvitation_post actor invitationId w :
  wp (acceptInvitation actor invitationId)
     (fun r w' =>
        member_of_result actor r (db w')
        /\ joined_by_invitation actor (now w)
             (fun email inv => i_id inv = invitationId /\ i_invitee_email inv = email)
             (uuid w (uuid_next w)) (db w) (db w'))
     w.
Proof.
  unfold acceptInvitation, update_invitations_returning, member_of_result,
    joined_by_invitation.
  repeat wp_step; cbn [error organizationId failure].
  all: repeat through_requests.
  all: rewrite ?members_committed_status.
  all: try solve [split; [discriminate | left; repeat through_requests; reflexivity]].
  all: match goal with
       | H : _ = Some ?o |- context [i_organization_id ?o] =>
           destruct (found_single _ _ _ _ _ H) as [Hin Hp]
       end.
  all: apply andb_true_iff in Hp; destruct Hp as [Hp Hst];
       apply andb_true_iff in Hp; destruct Hp as [Hid Hem];
       apply String.eqb_eq in Hid; apply String.eqb_eq in Hem;
       apply status_eqb_eq in Hst; apply Z.ltb_ge in Heqb.
  all: destruct (applied (InsertMember _) _) as [d'|] eqn:A;
       [ rewrite ?(db_committed_applied _ _ _ A);
         destruct (applied_insert_member _ _ _ A) as [Hms Hnone];
         cbn [m_organization_id m_user_id] in Hnone;
         repeat through_requests; rewrite ?Hms
       | rewrite ?(db_committed_refused _ _ A); repeat through_requests ].
  all: try solve [split; [discriminate | left; reflexivity]].
  all: try contradictory.
  all: split;
       [ first
           [ discriminate
           | intros _; eexists; eexists; split; [reflexivity|]; split;
             [ apply in_or_app; right; left; reflexivity
             | unfold member_of; cbn [m_organization_id m_user_id];
               rewrite !String.eqb_refl; reflexivity ] ]
       | right; exists s, o; repeat split; assumption ].
Qed.

Lemma acceptInvitationByToken_post actor token w :
  wp (acceptInvitationByToken actor token)
     (fun r w' =>
        member_of_result actor r (db w')
        /\ joined_by_invitation actor (now w)
             (fun email inv =>
                i_token inv = token
                /\ toLowerCase (i_invitee_email inv) = toLowerCase email)
             (uuid w (uuid_next w)) (db w) (db w'))
     w.
Proof.
  unfold acceptInvitationByToken, update_invitations_returning, member_of_result,
    joined_by_invitation.
  repeat wp_step; cbn [error organizationId failure].
  all: repeat through_requests.
  all: rewrite ?members_committed_status.
  all: try solve [split; [discriminate | left; repeat through_requests; reflexivity]].
  all: match goal with
       | H : _ = Some ?o |- context [i_organization_id ?o] =>
           destruct (found_single _ _ _ _ _ H) as [Hin Hp]
       end.
  all: apply andb_true_iff in Hp; destruct Hp as [Htok Hst];
       apply String.eqb_eq in Htok; apply status_eqb_eq in Hst;
       apply Z.ltb_ge in Heqb0; apply negb_false_iff in Heqb;
       apply String.eqb_eq in Heqb.
  all: try solve
         [ split; [|left; repeat through_requests; reflexivity]; intros _;
           match goal with
           | H : _ = Some ?m |- context [organization_members] =>
               destruct (found_single _ _ _ _ _ H) as [Hm Hof];
               exists (i_organization_id o), m; repeat through_requests;
               repeat split; assumption
           end ].
  all: destruct (applied (InsertMember _) _) as [d'|] eqn:A;
       [ rewrite ?(db_committed_applied _ _ _ A);
         destruct (applied_insert_member _ _ _ A) as [Hms Hnone];
         cbn [m_organization_id m_user_id] in Hnone;
         repeat through_requests; rewrite ?Hms
       | rewrite ?(db_committed_refused _ _ A); repeat through_requests ].
  all: try solve [split; [discriminate | left; reflexivity]].
  all: try contradictory.
  all: split;
       [ first
           [ discriminate
           | intros _; eexists; eexists; split; [reflexivity|]; split;
             [ apply in_or_app; right; left; reflexivity
             | unfold member_of; cbn [m_organization_id m_user_id];
               rewrite !String.eqb_refl; reflexivity ] ]
       | right; exists s, o; repeat split; assumption ].
Qed.

(** X15.  Accepting an invitation, by id or by token and whatever the database
    answers, changes the member table in one way only: it adds one row, for
    the actor, in the organization and with the role of an invitation that
    is pending, not past its expiry and addressed to the actor (exactly, by
    id; up to case, by token), the actor having had no row there.  And a
    result without an error names an organization in which the actor then
    has a row. *)
Theorem accepting_joins_by_invitation_only :
  forall actor key w,
    (let accept := acceptInvitation actor key in
     member_of_result actor (result accept w) (db (after accept w))
     /\ joined_by_invitation actor (now w)
          (fun email inv => i_id inv = key /\ i_invitee_email inv = email)
          (uuid w (uuid_next w)) (db w) (db (after accept w)))
    /\ (let accept := acceptInvitationByToken actor key in
        member_of_result actor (result accept w) (db (after accept w))
        /\ joined_by_invitation actor (now w)
             (fun email inv =>
                i_token inv = key
                /\ toLowerCase (i_invitee_email inv) = toLowerCase email)
             (uuid w (uuid_next w)) (db w) (db (after accept w))).
Proof.
  intros actor key w. split.
  - exact (acceptInvitation_post actor key w).
  - exact (acceptInvitationByToken_post actor key w).
Qed.

(* ------------------------------------------------------------------ *)
(** ** Invitations past their expiry *)

(** The invitations with the row [inv] replaced by [inv']. *)
Definition replace_invitation (inv inv' : OrganizationInvitation)
  (invs : list OrganizationInvitation) : list OrganizationInvitation :=
  map (fun i => if i_id i =? i_id inv then inv' else i) invs.

Lemma status_update_by_key (key : OrganizationInvitation -> string) f s inv invs :
  (forall i, inv_matches f i = (key i =? key inv)) ->
  NoDup (map key invs) -> NoDup (map i_id invs) -> In inv invs ->
  map (fun i => if inv_matches f i then set_status s i else i) invs
  = replace_invitation inv (set_status s inv) invs.
Proof.
  intros Hf Hkey Hid Hin. unfold replace_invitation. apply map_ext_in. intros i Hi.
  rewrite Hf.
  destruct (String.eqb_spec (key i) (key inv)) as [E|E],
           (String.eqb_spec (i_id i) (i_id inv)) as [E'|E']; try reflexivity.
  - rewrite (NoDup_key_inj _ key invs i inv Hkey Hi Hin E). reflexivity.
  - exfalso. apply E'. rewrite (NoDup_key_inj _ key invs i inv Hkey Hi Hin E). reflexivity.
  - exfalso. apply E. rewrite (NoDup_key_inj _ i_id invs i inv Hid Hi Hin E'). reflexivity.
Qed.

(** X16.  A pending invitation past its expiry is refused on both paths, by id
    and by token: the answer is that it has expired, nobody joins, and the
    one write marks that invitation, and no other row, expired. *)
Theorem expired_invitation_is_refused :
  forall actor email inv w accept,
    auth_email actor = Some email ->
    email <> "" ->
    unique_invitations (db w) ->
    In inv (invitations (db w)) ->
    i_status inv = pending ->
    (i_expires_at inv < now w)%Z ->
    answered 2 w = true ->
    (i_invitee_email inv = email /\ accept = acceptInvitation actor (i_id inv))
    \/ (toLowerCase (i_invitee_email inv) = toLowerCase email
        /\ accept = acceptInvitationByToken actor (i_token inv)) ->
    result accept w = failure "This invitation has expired"
    /\ organization_members (db (after accept w)) = organization_members (db w)
    /\ invitations (db (after accept w))
       = replace_invitation inv (set_status expired inv) (invitations (db w)).
Proof.
  intros actor email inv w accept He Hne Huniq Hin Hst Hexp Hok Hpath.
  rewrite !answered_S in Hok.
  apply andb_true_iff in Hok. destruct Hok as [H1 Hok].
  apply andb_true_iff in Hok. destruct Hok as [H2 _].
  apply Z.ltb_lt in Hexp.
  destruct Hpath as [[Hem ->]|[Hlow ->]].
  - pose proof (pending_by_id_found _ _ Huniq Hin Hst) as Hfound. rewrite Hem in Hfound.
    unfold result, after, acceptInvitation. rewrite He.
    destruct email as [|c email']; [contradiction|]. cbn [truthy].
    unfold bind. rewrite select_single_eq, H1.
    fold (pending_by_id (db w) (i_id inv) (String c email')). rewrite Hfound.
    cbn [get_now]. rewrite now_tick, Hexp, commit_eq.
    unfold committed, applied. rewrite H2, db_tick. cbn [perform ret fst snd db].
    split; [reflexivity|]. split; [reflexivity|].
    cbn [invitations with_invitations].
    apply (status_update_by_key i_id); try (apply Huniq); try assumption.
    intros i. reflexivity.
  - pose proof (pending_by_token_found _ _ Huniq Hin Hst) as Hfound.
    unfold result, after, acceptInvitationByToken. rewrite He.
    destruct email as [|c email']; [contradiction|]. cbn [truthy].
    unfold bind. rewrite select_single_eq, H1.
    fold (pending_by_token (db w) (i_token inv)). rewrite Hfound.
    rewrite Hlow, String.eqb_refl. cbn [negb get_now]. rewrite now_tick, Hexp, commit_eq.
    unfold committed, applied. rewrite H2, db_tick. cbn [perform ret fst snd db].
    split; [reflexivity|]. split; [reflexivity|].
    cbn [invitations with_invitations].
    apply (status_update_by_key i_token); try (apply Huniq); try assumption.
    intros i. reflexivity.
Qed.

Lemma expired_invitation_is_refused_witness :
  let inv := mkInvitation "i-1" "acme" "u-alice" "dave@acme.test" user pending "t-1" 100 0 in
  let w := Acme.world (mkDatabase Acme.members [inv] Acme.profiles) [] 500 in
  let accept := acceptInvitationByToken Acme.dave "t-1" in
  result accept w = failure "This invitation has expired"
  /\ organization_members (db (after accept w)) = organization_members (db w)
  /\ invitations (db (after accept w))
     = replace_invitation inv (set_status expired inv) (invitations (db w)).
Proof.
  apply (expired_invitation_is_refused Acme.dave "dave@acme.test"
           (mkInvitation "i-1" "acme" "u-alice" "dave@acme.test" user pending "t-1" 100 0)
           (Acme.world
              (mkDatabase Acme.members
                 [mkInvitation "i-1" "acme" "u-alice" "dave@acme.test" user pending
                    "t-1" 100 0]
                 Acme.profiles) [] 500)).
  - reflexivity.
  - discriminate.
  - split; distinct_strings.
  - left. reflexivity.
  - reflexivity.
  - reflexivity.
  - reflexivity.
  - right. split; reflexivity.
Defined.

(* ------------------------------------------------------------------ *)
(** ** From the listing to a membership *)

(** The invitations once the one with id [id] was marked accepted. *)
Definition marked_by_id (id : string) (invs : list OrganizationInvitation)
  : list OrganizationInvitation :=
  map (fun i => if inv_matches (ById id) i then set_status accepted i else i) invs.

Lemma acceptInvitation_join_eq w actor email inv :
  unique_invitations (db w) ->
  In inv (invitations (db w)) ->
  i_status inv = pending ->
  auth_email actor = Some email -> email <> "" ->
  i_invitee_email inv = email ->
  (i_expires_at inv <? now w)%Z = false ->
  i_role inv <> owner ->
  (forall m, In m (organization_members (db w)) ->
     member_of (i_organization_id inv) (auth_id actor) m = false) ->
  (forall m, In m (organization_members (db w)) -> m_id m <> uuid w (uuid_next w)) ->
  answered 5 w = true ->
  result (acceptInvitation actor (i_id inv)) w
  = mkAccept None (Some (i_organization_id inv))
  /\ db (after (acceptInvitation actor (i_id inv)) w)
     = mkDatabase (organization_members (db w) ++ [joined_row w actor inv])
         (swept (i_organization_id inv) email
            (marked_by_id (i_id inv) (invitations (db w))))
         (users (db w)).
Proof.
  intros Huniq Hin Hp He Hne Hem Hexp Hrole Hout Hfresh Hok.
  change 5%nat with (2 + 3)%nat in Hok. rewrite answered_split in Hok.
  apply andb_true_iff in Hok. destruct Hok as [Hreads Hwrites].
  cbn [answered] in Hreads.
  apply andb_true_iff in Hreads. destruct Hreads as [H1 H2]. rewrite andb_true_r in H2.
  cbn [answered ticks] in Hwrites.
  apply andb_true_iff in Hwrites. destruct Hwrites as [H3 Hwrites].
  apply andb_true_iff in Hwrites. destruct Hwrites as [H4 Hwrites].
  apply andb_true_iff in Hwrites. destruct Hwrites as [H5 _].
  pose proof (pending_by_id_found _ _ Huniq Hin Hp) as Hfound. rewrite Hem in Hfound.
  unfold result, after, acceptInvitation. rewrite He.
  destruct email as [|c email']; [contradiction|]. cbn [truthy].
  unfold bind. rewrite select_single_eq, H1.
  fold (pending_by_id (db w) (i_id inv) (String c email')). rewrite Hfound.
  cbn [get_now]. rewrite now_tick, Hexp.
  rewrite select_single_eq, db_tick, H2.
  rewrite (filter_none _ _ _ Hout). cbn [single].
  set (w2 := tick (tick w)) in *.
  assert (Hdb2 : db w2 = db w) by (unfold w2; rewrite !db_tick; reflexivity).
  assert (Hu2 : uuid w2 (uuid_next w2) = uuid w (uuid_next w)).
  { unfold w2. destruct (uuid_tick (tick w)) as [-> ->].
    destruct (uuid_tick w) as [-> ->]. reflexivity. }
  cbn [fresh_uuid]. rewrite Hu2. fold (joined_row w actor inv).
  rewrite commit_eq.
  set (w3 := mkWorld (db w2) (outcomes w2) (journal w2) (now w2) (uuid w2)
                     (S (uuid_next w2)) (env w2)).
  assert (N3 : next_ok w3 = next_ok w2) by (rewrite !next_ok_hd; reflexivity).
  assert (A3 : applied (InsertMember (joined_row w actor inv)) w3
               = Some (with_members (db w)
                         (organization_members (db w) ++ [joined_row w actor inv]))).
  { unfold applied. rewrite N3, H3. cbn [perform db w3]. rewrite Hdb2.
    unfold member_insert_ok. cbn [joined_row m_id m_organization_id m_user_id m_role].
    rewrite (existsb_false _ _ _ Hout).
    rewrite existsb_false.
    - destruct (i_role inv); try reflexivity. contradiction.
    - intros m Hm. apply String.eqb_neq. apply Hfresh. exact Hm. }
  rewrite A3. cbn [negb].
  unfold update_invitations_returning, bind. cbn [get_db]. rewrite commit_eq.
  set (w4 := committed (InsertMember (joined_row w actor inv)) w3).
  assert (Hdb4 : db w4 = with_members (db w)
                   (organization_members (db w) ++ [joined_row w actor inv])).
  { unfold w4, committed. rewrite A3. reflexivity. }
  assert (N4 : next_ok w4 = true).
  { rewrite next_ok_hd. unfold w4. rewrite outcomes_committed. cbn [w3 outcomes].
    rewrite next_ok_hd, outcomes_tick in H4. exact H4. }
  assert (A4 : applied (UpdateInvitationStatus (ById (i_id inv)) accepted) w4
               = Some (with_invitations (db w4)
                         (marked_by_id (i_id inv) (invitations (db w))))).
  { unfold applied. rewrite N4. cbn [perform]. rewrite Hdb4. reflexivity. }
  rewrite A4. cbn [ret].
  assert (Hrows : exists r rs,
             map (set_status accepted)
                 (filter (inv_matches (ById (i_id inv))) (invitations (db w4)))
             = r :: rs).
  { rewrite Hdb4. cbn [invitations with_members].
    assert (Hx : In inv (filter (inv_matches (ById (i_id inv)))
                                (invitations (db w)))).
    { apply filter_In. split; [exact Hin|]. cbn [inv_matches]. apply String.eqb_refl. }
    destruct (filter _ _) as [|r rs]; [destruct Hx|].
    eexists. eexists. reflexivity. }
  destruct Hrows as (r & rs & ->).
  rewrite commit_eq. cbn [fst snd]. split; [reflexivity|].
  set (w5 := committed (UpdateInvitationStatus (ById (i_id inv)) accepted) w4).
  assert (Hdb5 : db w5 = with_invitations (db w4)
                   (marked_by_id (i_id inv) (invitations (db w)))).
  { unfold w5, committed. rewrite A4. reflexivity. }
  assert (N5 : next_ok w5 = true).
  { rewrite next_ok_hd. unfold w5, w4. rewrite !outcomes_committed. cbn [w3 outcomes].
    rewrite !next_ok_hd, !outcomes_tick in H5. exact H5. }
  unfold committed, applied. rewrite N5. cbn [perform db].
  rewrite Hdb5, Hdb4. reflexivity.
Qed.

(** X17.  Every invitation the listing shows can be accepted.  If the listing,
    its queries answered, shows an invitation, then accepting it by id on
    the same tables no later than its expiry, every request answered,
    succeeds: the user gets one row in the organization, with the invited
    role, and the invitation is accepted.  (The invited role is not owner,
    as for every invitation [inviteMember] creates, and the id drawn for the
    new row is unused.) *)
Theorem listed_invitation_can_be_accepted :
  forall actor email inv w w',
    auth_email actor = Some email ->
    email <> "" ->
    answered 3 w = true ->
    In inv (fst (result (getPendingInvitations (Some actor)) w)) ->
    unique_invitations (db w) ->
    i_role inv <> owner ->
    db w' = db w ->
    (now w' <= i_expires_at inv)%Z ->
    (forall m, In m (organization_members (db w)) -> m_id m <> uuid w' (uuid_next w')) ->
    answered 5 w' = true ->
    let accept := acceptInvitation actor (i_id inv) in
    result accept w' = mkAccept None (Some (i_organization_id inv))
    /\ organization_members (db (after accept w'))
       = organization_members (db w)
         ++ [mkMember (uuid w' (uuid_next w')) (i_organization_id inv) (auth_id actor)
               (i_role inv)]
    /\ In (set_status accepted inv) (invitations (db (after accept w'))).
Proof.
  intros actor email inv w w' He Hne Hok Hlisted Huniq Hrole Hdb Hnow Hfresh Hok' accept.
  apply (getPendingInvitations_lists _ _ _ _ He Hne Hok) in Hlisted.
  destruct Hlisted as (Hin & Hem & Hst & _ & Hout & _).
  rewrite <- Hdb in Huniq, Hin, Hfresh.
  assert (Hout' : forall m, In m (organization_members (db w')) ->
                    member_of (i_organization_id inv) (auth_id actor) m = false).
  { intros m Hm. rewrite Hdb in Hm. unfold member_of.
    destruct (String.eqb_spec (m_organization_id m) (i_organization_id inv)) as [E|_];
      [|reflexivity].
    destruct (String.eqb_spec (m_user_id m) (auth_id actor)) as [E'|_]; [|reflexivity].
    exfalso. exact (Hout m Hm E' E). }
  apply Z.ltb_ge in Hnow.
  destruct (acceptInvitation_join_eq w' actor email inv Huniq Hin Hst He Hne Hem Hnow
              Hrole Hout' Hfresh Hok') as [Hres Hafter].
  fold accept in Hres, Hafter. split; [exact Hres|]. rewrite Hafter.
  cbn [organization_members invitations]. rewrite Hdb. split; [reflexivity|].
  unfold swept, marked_by_id. rewrite map_map. apply in_map_iff. exists inv.
  split; [|rewrite <- Hdb; exact Hin].
  cbn [inv_matches]. rewrite String.eqb_refl.
  cbn [set_status i_organization_id i_invitee_email i_status status_eqb].
  rewrite !andb_false_r. reflexivity.
Qed.

Module Invited.
Import Acme.

(** Dave, not a member, holds a pending invitation to Acme that expires at
    time 1000. *)
Definition invitation : OrganizationInvitation :=
  mkInvitation "i-1" "acme" "u-alice" "dave@acme.test" viewer pending "t-1" 1000 0.

Definition start : World := world (mkDatabase members [invitation] profiles) [] 500.

End Invited.

Lemma listed_invitation_can_be_accepted_witness :
  let accept := acceptInvitation Acme.dave "i-1" in
  result accept Invited.start = mkAccept None (Some "acme")
  /\ organization_members (db (after accept Invited.start))
     = Acme.members ++ [mkMember "id-0" "acme" "u-dave" viewer]
  /\ In (set_status accepted Invited.invitation)
        (invitations (db (after accept Invited.start))).
Proof.
  apply (listed_invitation_can_be_accepted Acme.dave "dave@acme.test" Invited.invitation
           Invited.start Invited.start).
  - reflexivity.
  - discriminate.
  - reflexivity.
  - left. reflexivity.
  - split; distinct_strings.
  - discriminate.
  - reflexivity.
  - vm_compute. discriminate.
  - each_row.
  - reflexivity.
Defined.

(* ------------------------------------------------------------------ *)
(** ** Declining and cancelling *)

Lemma replaced_not_pending inv s invs i :
  s <> pending -> NoDup (map i_id invs) -> In inv invs ->
  In i (replace_invitation inv (set_status s inv) invs) ->
  i_id i = i_id inv -> i_status i <> pending.
Proof.
  intros Hs Hnd Hin Hi Hid. unfold replace_invitation in Hi. apply in_map_iff in Hi.
  destruct Hi as (x & <- & Hx).
  destruct (String.eqb_spec (i_id x) (i_id inv)) as [E|E].
  - exact Hs.
  - contradiction.
Qed.

(** X18.  Declining succeeds exactly when both requests are answered and the id
    designates a pending invitation addressed to the actor; that row, and no
    other, is then marked expired, after which the invitation cannot be
    accepted, by its id or by its token, by anybody.  A refusal leaves the
    tables as they were. *)
Theorem declineInvitation_outcome :
  forall actor invitationId w,
    unique_invitations (db w) ->
    let decline := declineInvitation actor invitationId in
    (result decline w = None <->
     answered 2 w = true
     /\ exists email inv,
          truthy (auth_email actor) = Some email
          /\ pending_by_id (db w) invitationId email = Some inv)
    /\ (result decline w <> None -> db (after decline w) = db w)
    /\ (forall email inv,
          result decline w = None ->
          truthy (auth_email actor) = Some email ->
          pending_by_id (db w) invitationId email = Some inv ->
          db (after decline w)
          = with_invitations (db w)
              (replace_invitation inv (set_status expired inv) (invitations (db w)))
          /\ forall reader address w',
               db w' = db (after decline w) ->
               auth_email reader = Some address -> address <> "" ->
               result (acceptInvitation reader invitationId) w'
               = failure "Invitation not found or has expired"
               /\ result (acceptInvitationByToken reader (i_token inv)) w'
                  = failure "Invitation not found or has already been used").
Proof.
  intros actor invitationId w Huniq decline. subst decline.
  unfold result, after, declineInvitation, bind. rewrite !answered_S.
  destruct (truthy (auth_email actor)) as [email|] eqn:He.
  2:{ cbn [ret fst snd]. split; [split; [discriminate|]|split; [reflexivity|]].
      - intros (_ & email & inv & H & _). discriminate H.
      - intros email inv H. discriminate H. }
  rewrite select_single_eq. fold (pending_by_id (db w) invitationId email).
  destruct (next_ok w) eqn:N1; cbn [andb].
  2:{ cbn [ret fst snd]. rewrite db_tick.
      split; [split; [discriminate|]|split; [reflexivity|]].
      - intros (H & _). discriminate H.
      - intros e inv H. discriminate H. }
  destruct (pending_by_id (db w) invitationId email) as [inv|] eqn:Hinv.
  2:{ cbn [ret fst snd]. rewrite db_tick.
      split; [split; [discriminate|]|split; [reflexivity|]].
      - intros (_ & e & inv & E & H). inversion E; subst e. congruence.
      - intros e inv H. discriminate H. }
  rewrite commit_eq. unfold committed, applied. rewrite db_tick. cbn [perform].
  destruct (next_ok (tick w)) eqn:N2; cbn [andb negb ret fst snd db].
  2:{ split; [split; [discriminate | intros (H & _); discriminate H]|].
      split; [reflexivity|]. intros e inv' H. discriminate H. }
  split; [split; [intros _; split; [reflexivity|]; exists email, inv; auto | reflexivity]|].
  split; [intros H; contradiction H; reflexivity|].
  intros e inv' _ E1 E2. inversion E1; subst e. rewrite Hinv in E2.
  inversion E2; subst inv'. clear E1 E2.
  pose proof Hinv as Hfound. apply found_single with (b := true) in Hfound.
  destruct Hfound as [Hin Hp].
  apply andb_true_iff in Hp. destruct Hp as [Hp Hst].
  apply andb_true_iff in Hp. destruct Hp as [Hid Hem].
  apply String.eqb_eq in Hid. apply status_eqb_eq in Hst.
  assert (Hmap : map (fun i => if inv_matches (ById invitationId) i
                               then set_status expired i else i) (invitations (db w))
                 = replace_invitation inv (set_status expired inv) (invitations (db w))).
  { apply (status_update_by_key i_id); try (apply Huniq); try assumption.
    intros i. cbn [inv_matches]. rewrite Hid. reflexivity. }
  rewrite Hmap. split; [reflexivity|].
  intros reader address w' Hw' Ha Hne.
  assert (Hgone : forall i, In i (invitations (db w')) ->
                    i_id i = i_id inv \/ i_token i = i_token inv ->
                    i_status i <> pending).
  { intros i Hi Hkey. rewrite Hw' in Hi. cbn [invitations with_invitations] in Hi.
    apply (replaced_not_pending inv expired (invitations (db w)));
      try assumption; try discriminate; try (apply Huniq).
    destruct Hkey as [E|E]; [exact E|].
    unfold replace_invitation in Hi. apply in_map_iff in Hi.
    destruct Hi as (x & Hx & Hxin).
    destruct (String.eqb_spec (i_id x) (i_id inv)) as [E'|E'].
    - subst i. reflexivity.
    - subst i. rewrite (NoDup_key_inj _ i_token _ x inv (proj2 Huniq) Hxin Hin E).
      reflexivity. }
  split.
  - unfold result. rewrite (acceptInvitation_not_found _ _ _ _ Ha Hne); [reflexivity|].
    unfold pending_by_id. rewrite filter_none; [reflexivity|].
    intros i Hi. destruct (String.eqb_spec (i_id i) invitationId) as [E|_]; [|reflexivity].
    destruct (status_eqb (i_status i) pending) eqn:S; [|apply andb_false_r].
    apply status_eqb_eq in S. exfalso.
    apply (Hgone i Hi); [left; congruence | exact S].
  - unfold result. rewrite (acceptInvitationByToken_used _ _ _ _ Ha Hne); [reflexivity|].
    unfold pending_by_token. rewrite filter_none; [reflexivity|].
    intros i Hi. destruct (String.eqb_spec (i_token i) (i_token inv)) as [E|_];
      [|reflexivity].
    destruct (status_eqb (i_status i) pending) eqn:S; [|reflexivity].
    apply status_eqb_eq in S. exfalso.
    apply (Hgone i Hi); [right; exact E | exact S].
Qed.

Lemma declineInvitation_outcome_witness :
  let decline := declineInvitation Acme.dave "i-1" in
  let w := Invited.start in
  (result decline w = None <->
   answered 2 w = true
   /\ exists email inv,
        truthy (auth_email Acme.dave) = Some email
        /\ pending_by_id (db w) "i-1" email = Some inv)
  /\ (result decline w <> None -> db (after decline w) = db w)
  /\ (forall email inv,
        result decline w = None ->
        truthy (auth_email Acme.dave) = Some email ->
        pending_by_id (db w) "i-1" email = Some inv ->
        db (after decline w)
        = with_invitations (db w)
            (replace_invitation inv (set_status expired inv) (invitations (db w)))
        /\ forall reader address w',
             db w' = db (after decline w) ->
             auth_email reader = Some address -> address <> "" ->
             result (acceptInvitation reader "i-1") w'
             = failure "Invitation not found or has expired"
             /\ result (acceptInvitationByToken reader (i_token inv)) w'
                = failure "Invitation not found or has already been used").
Proof.
  apply (declineInvitation_outcome Acme.dave "i-1" Invited.start).
  split; distinct_strings.
Defined.

(** The pending invitation of the organization
    [.eq("id", ...).eq("organization_id", ...).eq("status", "pending").single()]
    finds. *)
Definition pending_in_org (d : Database) (invitationId org : string)
  : option OrganizationInvitation :=
  single (filter (fun i => (i_id i =? invitationId) && (i_organization_id i =? org)
                           && status_eqb (i_status i) pending) (invitations d)).

(** X19.  Cancelling succeeds exactly when the four requests are answered, the
    actor has a row in the organization, the id designates a pending
    invitation of that organization, and the actor is the owner, an admin,
    or the one who sent the invitation.  That row, and no other, is then
    marked expired; a refusal leaves the tables as they were. *)
Theorem cancelInvitation_outcome :
  forall actor org invitationId w,
    unique_invitations (db w) ->
    let cancel := cancelInvitation actor org invitationId in
    (result cancel w = None <->
     answered 4 w = true
     /\ exists member inv,
          membership (db w) org (auth_id actor) = Some member
          /\ pending_in_org (db w) invitationId org = Some inv
          /\ (m_role member = owner \/ m_role member = admin
              \/ i_inviter_id inv = auth_id actor))
    /\ (result cancel w <> None -> db (after cancel w) = db w)
    /\ (forall inv,
          result cancel w = None ->
          pending_in_org (db w) invitationId org = Some inv ->
          db (after cancel w)
          = with_invitations (db w)
              (replace_invitation inv (set_status expired inv) (invitations (db w)))).
Proof.
  intros actor org invitationId w Huniq cancel. subst cancel.
  unfold result, after, cancelInvitation, bind. rewrite !answered_S.
  rewrite isMember_eq.
  destruct (next_ok w) eqn:N1; cbn [andb].
  2:{ cbn [negb ret fst snd]. rewrite db_tick.
      split; [split; [discriminate | intros (H & _); discriminate H]|].
      split; [reflexivity | intros inv H; discriminate H]. }
  destruct (membership (db w) org (auth_id actor)) as [m|] eqn:Hm.
  2:{ cbn [negb ret fst snd]. rewrite db_tick.
      split; [split; [discriminate | intros (_ & m & inv & H & _); discriminate H]|].
      split; [reflexivity | intros inv H; discriminate H]. }
  cbn [negb]. rewrite select_single_eq, db_tick.
  fold (pending_in_org (db w) invitationId org).
  destruct (next_ok (tick w)) eqn:N2; cbn [andb].
  2:{ cbn [ret fst snd]. rewrite !db_tick.
      split; [split; [discriminate | intros (H & _); discriminate H]|].
      split; [reflexivity | intros inv H; discriminate H]. }
  destruct (pending_in_org (db w) invitationId org) as [inv|] eqn:Hinv.
  2:{ cbn [ret fst snd]. rewrite !db_tick.
      split; [split; [discriminate | intros (_ & m' & inv & _ & H & _); discriminate H]|].
      split; [reflexivity | intros inv H; discriminate H]. }
  rewrite select_single_eq, !db_tick.
  fold (membership (db w) org (auth_id actor)). rewrite Hm.
  destruct (next_ok (tick (tick w))) eqn:N3; cbn [andb].
  2:{ cbn [negb ret fst snd]. rewrite !db_tick.
      split; [split; [discriminate | intros (H & _); discriminate H]|].
      split; [reflexivity | intros inv' H; discriminate H]. }
  destruct (negb (negb (role_eqb (m_role m) owner) && negb (role_eqb (m_role m) admin)
                  && negb (i_inviter_id inv =? auth_id actor))) eqn:P.
  2:{ cbn [negb ret fst snd]. rewrite !db_tick.
      split; [split; [discriminate|]|split; [reflexivity | intros inv' H; discriminate H]].
      intros (_ & m' & inv' & [= <-] & [= <-] & Hperm). exfalso.
      apply negb_false_iff in P. rewrite !andb_true_iff, !negb_true_iff in P.
      destruct P as [[Po Pa] Pi]. apply String.eqb_neq in Pi.
      destruct Hperm as [H|[H|H]]; [rewrite H in Po | rewrite H in Pa | contradiction];
        discriminate. }
  cbn [negb]. rewrite commit_eq. unfold committed, applied. rewrite !db_tick.
  cbn [perform].
  destruct (next_ok (tick (tick (tick w)))) eqn:N4; cbn [andb negb ret fst snd db].
  2:{ split; [split; [discriminate | intros (H & _); discriminate H]|].
      split; [reflexivity | intros inv' H; discriminate H]. }
  split.
  - split; [intros _; split; [reflexivity|] | reflexivity].
    exists m, inv. split; [reflexivity|]. split; [reflexivity|].
    apply negb_true_iff in P. rewrite !andb_false_iff, !negb_false_iff in P.
    destruct P as [[P|P]|P].
    + left. apply role_eqb_eq. exact P.
    + right. left. apply role_eqb_eq. exact P.
    + right. right. apply String.eqb_eq. exact P.
  - split; [intros H; contradiction H; reflexivity|].
    intros inv' _ [= <-]. f_equal.
    pose proof Hinv as Hfound. apply found_single with (b := true) in Hfound.
    destruct Hfound as [Hin Hp].
    apply andb_true_iff in Hp. destruct Hp as [Hp _].
    apply andb_true_iff in Hp. destruct Hp as [Hid _]. apply String.eqb_eq in Hid.
    apply (status_update_by_key i_id); try (apply Huniq); try assumption.
    intros i. cbn [inv_matches]. rewrite Hid. reflexivity.
Qed.

Lemma cancelInvitation_outcome_witness :
  let cancel := cancelInvitation Acme.bob "acme" "i-1" in
  let w := Invited.start in
  (result cancel w = None <->
   answered 4 w = true
   /\ exists member inv,
        membership (db w) "acme" "u-bob" = Some member
        /\ pending_in_org (db w) "i-1" "acme" = Some inv
        /\ (m_role member = owner \/ m_role member = admin
            \/ i_inviter_id inv = "u-bob"))
  /\ (result cancel w <> None -> db (after cancel w) = db w)
  /\ (forall inv,
        result cancel w = None ->
        pending_in_org (db w) "i-1" "acme" = Some inv ->
        db (after cancel w)
        = with_invitations (db w)
            (replace_invitation inv (set_status expired inv) (invitations (db w)))).
Proof.
  apply (cancelInvitation_outcome Acme.bob "acme" "i-1" Invited.start).
  split; distinct_strings.
Defined.

(* ------------------------------------------------------------------ *)
(** ** Who can start a transfer *)

(** X20.  A call of the transfer action that is not a valid transfer with its
    five lookups answered (the actor holding the owner's row, the target
    row being somebody else's) returns an error and writes nothing: the
    tables and the journal are as they were. *)
Theorem transferOwnership_guard :
  forall actor org newOwnerMemberId w,
    let transfer := transferOwnership actor org newOwnerMemberId in
    (exists oldRow targetRow,
       valid_transfer (db w) actor org newOwnerMemberId oldRow targetRow
       /\ answered 5 w = true)
    \/ (result transfer w <> None /\ untouched w (after transfer w)).
Proof.
  intros actor org memberId w transfer. subst transfer.
  unfold result, after, transferOwnership, bind. rewrite !answered_S.
  rewrite isMember_eq.
  destruct (next_ok w) eqn:N1; cbn [andb];
    [|right; cbn [negb ret fst snd]; split; [discriminate | solve [auto 8 with actions]]].
  destruct (membership (db w) org (auth_id actor)) as [a|] eqn:Ha;
    [|right; cbn [negb ret fst snd]; split; [discriminate | solve [auto 8 with actions]]].
  cbn [negb]. rewrite select_single_eq, db_tick.
  fold (member_by_id (db w) memberId org).
  destruct (next_ok (tick w)) eqn:N2; cbn [andb];
    [|right; cbn [ret fst snd]; split; [discriminate | solve [auto 8 with actions]]].
  destruct (member_by_id (db w) memberId org) as [t|] eqn:Ht;
    [|right; cbn [ret fst snd]; split; [discriminate | solve [auto 8 with actions]]].
  rewrite canTransferOwnership_eq, !db_tick, (owner_row_membership _ _ _ _ Ha).
  destruct (next_ok (tick (tick w))) eqn:N3; cbn [andb];
    [|right; cbn [negb granted deny ret fst snd]; split;
      [discriminate | solve [auto 8 with actions]]].
  destruct (role_eqb (m_role a) owner) eqn:Ro;
    [|right; cbn [negb granted deny ret fst snd]; split;
      [discriminate | solve [auto 8 with actions]]].
  rewrite Ro. cbn [negb].
  destruct (String.eqb_spec (auth_id actor) (m_user_id t)) as [E|E];
    [right; cbn [negb granted deny ret fst snd]; split;
     [discriminate | solve [auto 8 with actions]]|].
  destruct (next_ok (tick (tick (tick w)))) eqn:N4; cbn [andb];
    [|right; cbn [negb granted deny ret fst snd]; split;
      [discriminate | solve [auto 8 with actions]]].
  destruct (membership (db w) org (m_user_id t)) as [t'|] eqn:Ht';
    [|right; cbn [negb granted deny ret fst snd]; split;
      [discriminate | solve [auto 8 with actions]]].
  pose proof (member_by_id_membership _ _ _ _ _ Ht Ht') as Et. subst t'.
  cbn [negb granted allow]. rewrite select_single_eq.
  destruct (next_ok (tick (tick (tick (tick w))))) eqn:N5; cbn [andb];
    [|right; cbn [ret fst snd]; split; [discriminate | solve [auto 8 with actions]]].
  left. exists a, t. split; [|reflexivity].
  apply role_eqb_eq in Ro. constructor; assumption.
Qed.

(* ------------------------------------------------------------------ *)
(** ** Password strength ([src/lib/utils/validation.ts]) *)

Module Validation.

Inductive Strength : Type := weak | medium | strong.

(** [PasswordStrength] *)
Record PasswordStrength : Type := mkStrength {
  isValid : bool;
  errors : list string;
  strength : Strength
}.

Definition in_range (lo hi : nat) (c : ascii) : bool :=
  let n := nat_of_ascii c in (lo <=? n)%nat && (n <=? hi)%nat.

(** The character classes of the four regular expressions. *)
Definition is_upper (c : ascii) : bool := in_range 65 90 c.
Definition is_lower (c : ascii) : bool := in_range 97 122 c.
Definition is_digit (c : ascii) : bool := in_range 48 57 c.
Definition is_special (c : ascii) : bool :=
  negb (is_upper c || is_lower c || is_digit c).

(** [/[class]/.test(s)] *)
Fixpoint test (class : ascii -> bool) (s : string) : bool :=
  match s with
  | EmptyString => false
  | String c rest => class c || test class rest
  end.

(** One [if (failed) errors.push(message) else strengthScore += 1]. *)
Definition check (failed : bool) (message : string) (state : list string * nat)
  : list string * nat :=
  let (errors, strengthScore) := state in
  if failed then (errors ++ [message], strengthScore)
  else (errors, (strengthScore + 1)%nat).

Definition checkPasswordStrength (password : string) : PasswordStrength :=
  let state := ([], 0%nat) in
  let state := check (String.length password <? 8)%nat
                 "Password must be at least 8 characters" state in
  let state := check (negb (test is_upper password))
                 "Password must contain at least one uppercase letter" state in
  let state := check (negb (test is_lower password))
                 "Password must contain at least one lowercase letter" state in
  let state := check (negb (test is_digit password))
                 "Password must contain at least one number" state in
  let state := check (negb (test is_special password))
                 "Password must contain at least one special character" state in
  let (errors, strengthScore) := state in
  let strengthScore :=
    if (12 <=? String.length password)%nat then (strengthScore + 1)%nat
    else strengthScore in
  let strength :=
    if (strengthScore <=? 2)%nat then weak
    else if (strengthScore <=? 4)%nat then medium
    else strong in
  mkStrength (length errors =? 0)%nat errors strength.

End Validation.

(** X21.  The strength meter and the five requirements.  A password is valid
    exactly when it meets the five requirements, and then it is rated
    strong; a password of fewer than twelve characters is rated strong only
    if it is valid (a longer one can be rated strong while breaking one
    requirement); a password rated weak breaks at least three requirements;
    and the number of messages is the number of requirements broken, at most
    five. *)
Theorem checkPasswordStrength_rating :
  forall password,
    let r := Validation.checkPasswordStrength password in
    (Validation.isValid r = true <->
     (8 <= String.length password)%nat
     /\ Validation.test Validation.is_upper password = true
     /\ Validation.test Validation.is_lower password = true
     /\ Validation.test Validation.is_digit password = true
     /\ Validation.test Validation.is_special password = true)
    /\ (Validation.isValid r = true <-> Validation.errors r = [])
    /\ (Validation.isValid r = true -> Validation.strength r = Validation.strong)
    /\ (Validation.strength r = Validation.strong ->
        (String.length password < 12)%nat -> Validation.isValid r = true)
    /\ (Validation.strength r = Validation.weak -> (3 <= length (Validation.errors r))%nat)
    /\ (length (Validation.errors r) <= 5)%nat.
Proof.
  intros password r. subst r. unfold Validation.checkPasswordStrength.
  rewrite <- Nat.ltb_ge, <- Nat.leb_gt.
  destruct (String.length password <? 8)%nat eqn:L8.
  - assert (L12 : (12 <=? String.length password)%nat = false).
    { apply Nat.leb_gt. apply Nat.ltb_lt in L8. lia. }
    rewrite L12.
    destruct (Validation.test Validation.is_upper password),
             (Validation.test Validation.is_lower password),
             (Validation.test Validation.is_digit password),
             (Validation.test Validation.is_special password);
      cbn; repeat split; intros; try discriminate; try lia;
      repeat match goal with H : _ /\ _ |- _ => destruct H end; try discriminate.
  - destruct (12 <=? String.length password)%nat,
             (Validation.test Validation.is_upper password),
             (Validation.test Validation.is_lower password),
             (Validation.test Validation.is_digit password),
             (Validation.test Validation.is_special password);
      cbn; repeat split; intros; try discriminate; try lia;
      repeat match goal with H : _ /\ _ |- _ => destruct H end; try discriminate.
Qed.

(* ------------------------------------------------------------------ *)
(** ** The middleware ([src/middleware.ts]) *)

Module Middleware.

Inductive Response : Type :=
| Next
| RedirectToSignIn (redirect : string)
| RedirectToOrganizations.

Definition protectedRoutes : list string := ["/organizations"; "/dashboard"; "/invitations"].
Definition authRoutes : list string := ["/sign-in"; "/sign-up"].

(** [pathname.startsWith(route)] *)
Definition startsWith (pathname route : string) : bool := String.prefix route pathname.

(** [configured]: both environment variables are set; [session]: there is
    a session. *)
Definition middleware (configured session : bool) (pathname : string) : Response :=
  if negb configured then Next
  else
    let isProtectedRoute := existsb (startsWith pathname) protectedRoutes in
    let isAuthRoute := existsb (startsWith pathname) authRoutes in
    if isProtectedRoute && negb session then RedirectToSignIn pathname
    else if isAuthRoute && session then RedirectToOrganizations
    else Next.

(** The path a response sends the browser to. *)
Definition location (r : Response) : option string :=
  match r with
  | Next => None
  | RedirectToSignIn _ => Some "/sign-in"
  | RedirectToOrganizations => Some "/organizations"
  end.

End Middleware.

Lemma prefix_cons c s t :
  String.prefix (String c s) t =
  match t with
  | EmptyString => false
  | String d t' => if Ascii.ascii_dec c d then String.prefix s t' else false
  end.
Proof. destruct t; reflexivity. Qed.

(** X22.  What the middleware lets through.  Configured, it never lets a request
    without a session reach a path under a protected route, nor a request
    with a session a path under a sign-in or sign-up route; it redirects the
    first to the sign-in page, carrying the path asked for, and the second to
    the organizations page.  Every other request passes, and the path it
    redirects to always passes: no redirect leads to another. *)
Theorem middleware_routes :
  forall configured session pathname,
    let isProtected := existsb (Middleware.startsWith pathname) Middleware.protectedRoutes in
    let isAuth := existsb (Middleware.startsWith pathname) Middleware.authRoutes in
    isProtected && isAuth = false
    /\ Middleware.middleware configured session pathname
       = (if configured && isProtected && negb session
          then Middleware.RedirectToSignIn pathname
          else if configured && isAuth && session
          then Middleware.RedirectToOrganizations
          else Middleware.Next)
    /\ forall target,
         Middleware.location (Middleware.middleware configured session pathname)
         = Some target ->
         Middleware.middleware configured session target = Middleware.Next.
Proof.
  intros configured session pathname isProtected isAuth.
  assert (Hdisjoint : isProtected && isAuth = false).
  { subst isProtected isAuth.
    unfold Middleware.protectedRoutes, Middleware.authRoutes, Middleware.startsWith.
    cbn [existsb]. rewrite !prefix_cons.
    destruct pathname as [|c0 p]; [reflexivity|].
    destruct (Ascii.ascii_dec "/" c0); [|reflexivity].
    rewrite !prefix_cons. destruct p as [|c1 p]; [reflexivity|].
    repeat match goal with
           | |- context [String.prefix ?s p] =>
               let b := fresh "b" in generalize (String.prefix s p); intros b
           end.
    destruct (Ascii.ascii_dec "o" c1) as [<-|];
      [repeat match goal with b : bool |- _ => destruct b end; reflexivity|].
    destruct (Ascii.ascii_dec "d" c1) as [<-|];
      [repeat match goal with b : bool |- _ => destruct b end; reflexivity|].
    destruct (Ascii.ascii_dec "i" c1) as [<-|];
      [repeat match goal with b : bool |- _ => destruct b end; reflexivity|].
    reflexivity. }
  split; [exact Hdisjoint|]. split.
  - unfold Middleware.middleware. fold isProtected isAuth.
    destruct configured, isProtected, isAuth, session; reflexivity.
  - unfold Middleware.middleware at 1. fold isProtected isAuth.
    destruct configured; [|discriminate]. cbn [negb].
    destruct isProtected, isAuth, session; try discriminate;
      cbn [andb negb Middleware.location]; intros target [= <-]; reflexivity.
Qed.

(* ------------------------------------------------------------------ *)
(** ** The acceptance link ([src/app/invitations/accept/route.ts]) *)

Module AcceptRoute.

(** Where the handler redirects: the invitations page with an error (the
    text before [encodeURIComponent]), an organization's page with
    [joined=true], or the invitations page with
    [success=invitation_accepted]. *)
Inductive Redirect : Type :=
| InvitationsError (message : string)
| OrganizationJoined (organizationId : string)
| InvitationsSuccess.

(** [GET]; [token] is [searchParams.get("token")]. *)
Definition GET (actor : AuthUser) (token : option string) : Action Redirect :=
  match truthy token with
  | None => ret (InvitationsError "missing_token")
  | Some token =>
    result <- acceptInvitationByToken actor token ;;
    match truthy (error result) with
    | Some message => ret (InvitationsError message)
    | None =>
      match truthy (organizationId result) with
      | Some id => ret (OrganizationJoined id)
      | None => ret InvitationsSuccess
      end
    end
  end.

End AcceptRoute.

Lemma acceptInvitationByToken_error_text actor token w :
  wp (acceptInvitationByToken actor token) (fun r _ => error r <> Some "") w.
Proof.
  unfold acceptInvitationByToken, update_invitations_returning.
  repeat wp_step; cbn [error failure]; discriminate.
Qed.

(** X23.  Where the acceptance link leads.  Without a token nothing is asked of
    the database.  The handler sends the user to an organization's page only
    if the user then has a row in that organization; and it reaches its last
    redirect, to the invitations page with a success notice, only if the
    user then has a row in an organization whose id is the empty string. *)
Theorem accept_link_lands_on_membership :
  forall actor token w,
    let handler := AcceptRoute.GET actor token in
    (truthy token = None ->
     result handler w = AcceptRoute.InvitationsError "missing_token"
     /\ after handler w = w)
    /\ (forall id,
          result handler w = AcceptRoute.OrganizationJoined id
          \/ (result handler w = AcceptRoute.InvitationsSuccess /\ id = "") ->
          exists row,
            In row (organization_members (db (after handler w)))
            /\ member_of id (auth_id actor) row = true).
Proof.
  intros actor token w handler. subst handler.
  unfold result, after, AcceptRoute.GET.
  destruct (truthy token) as [t|] eqn:Ht.
  2:{ split; [intros _; split; reflexivity|]. intros id [H|[H _]]; discriminate H. }
  split; [discriminate|]. intros id. unfold bind.
  pose proof (acceptInvitationByToken_error_text actor t w) as Htext.
  destruct (acceptInvitationByToken_post actor t w) as [Hmember _].
  unfold wp, member_of_result in *.
  destruct (acceptInvitationByToken actor t w) as [r w'].
  cbn [fst snd] in *.
  destruct (error r) as [[|c msg]|] eqn:Er.
  - contradiction Htext. reflexivity.
  - cbn [truthy ret fst snd]. intros [H|[H _]]; discriminate H.
  - cbn [truthy].
    destruct (Hmember eq_refl) as (org & row & Horg & Hin & Hof). rewrite Horg.
    destruct org as [|c org]; cbn [truthy ret fst snd].
    + intros [H|[_ ->]]; [discriminate H|]. exists row. split; assumption.
    + intros [[= <-]|[H _]]; [|discriminate H]. exists row. split; assumption.
Qed.

(* ------------------------------------------------------------------ *)
(** ** An acceptance interrupted between its two writes *)



(** The text of that failure carries the database's message. *)
Example mark_failed_text :
  mark_failed (Some "permission denied for table invitations")
  = "Failed to mark invitation as accepted: permission denied for table invitations. Please contact support."
  /\ mark_failed None
     = "Failed to mark invitation as accepted: Unknown error. Please contact support."
  /\ mark_failed (Some "") = mark_failed None.
Proof. repeat split. Qed.

(* ------------------------------------------------------------------ *)
(** ** The listing shows the user's own invitations only *)

(** X25.  Whatever the database answers, the listing reads only, and every
    invitation it returns is in the table, addressed to the signed-in
    user's own address, pending and not yet expired; without a user or an
    address it returns nothing. *)
Theorem getPendingInvitations_only_own :
  forall actor w i,
    let listing := getPendingInvitations actor in
    untouched w (after listing w)
    /\ (In i (fst (result listing w)) ->
        exists a email,
          actor = Some a
          /\ truthy (auth_email a) = Some email
          /\ In i (invitations (db w))
          /\ i_invitee_email i = email
          /\ i_status i = pending
          /\ (now w < i_expires_at i)%Z).
Proof.
  intros actor w i listing.
  destruct (getPendingInvitations_post actor w) as [Hu Hl].
  split; [exact Hu | exact (Hl i)].
Qed.
